(** * img_json: colour quantisation, pixel statistics and AI-response parsing

    A shallow embedding of the image-processing core of the repository
    (the canvas module: [extractColorPalette], [medianCut],
    [getColorDistance], [rgbToHex], [calculateImageStats]) and of the
    response parser of the Gemini module ([parseJSONResponse]), with the
    properties the specification states about them; then the rest of the
    two modules ([extractMetadata], [processImageWithCanvas],
    [validateApiKey], [fileToBase64], [analyzeImageWithGemini]) and the
    handler of the application that calls them ([handleProcess]), with
    further properties read off the code. *)

From Stdlib Require Import ZArith QArith Qround Qabs Qpower Qreduction Qcanon.
From Stdlib Require Import Lia Lqa Ascii String.
From stdpp Require Import base tactics option list sorting.

Local Open Scope Z_scope.

(** ** JavaScript numbers

    A number is a binary64 value: here a rational (the value of a finite
    double), or [NaN].  Every arithmetic operation returns the exact result
    rounded to the nearest double, ties to even ([binary64] below).  The
    exponent range is not bounded: the numbers of this program stay far
    from overflow and underflow.  Infinities and the sign of zero are not
    modelled: the divisions of the quantiser and of the statistics divide
    a sum over a collection by the size of that collection, so a zero
    divisor always meets a zero dividend and the quotient is [NaN].  (The
    quotient of the metadata is printed at once; [quotient_toFixed2] gives
    its text, infinities included.)

    Pixel channels, sums of channels, counts and lengths are integers far
    below 2^53; they are doubles, their sums are exact, and they are kept
    in [Z]. *)

(** [floor (log2 a)] for a positive rational: its binade. *)
Definition ilog2 (a : Q) : Z :=
  let e := Z.log2 (Qnum a) - Z.log2 (Zpos (Qden a)) in
  if Qle_bool (2 ^ e) a then e else e - 1.

(** The nearest integer, the even one on a tie. *)
Definition round_half_even (x : Q) : Z :=
  let f := Qfloor x in
  match (x - inject_Z f ?= 1 # 2)%Q with
  | Lt => f
  | Gt => f + 1
  | Eq => if Z.even f then f else f + 1
  end.

(** A positive rational rounded to a significand of 53 bits. *)
Definition round_pos (a : Q) : Q :=
  let e := ilog2 a in
  (inject_Z (round_half_even (a * 2 ^ (52 - e))) * 2 ^ (e - 52))%Q.

(** The double nearest to a rational, as a reduced fraction. *)
Definition binary64 (x : Q) : Q :=
  let x := Qred x in
  match Qnum x with
  | 0 => 0%Q
  | Zpos _ => Qred (round_pos x)
  | Zneg _ => Qred (- round_pos (- x))
  end.

(** The square root of a positive rational rounded to 53 bits: [t] is the
    integer part of the root scaled into [2^52, 2^53), and the root is at
    least [t + 1/2] when its square is at least [t^2 + t + 1/4]. *)
Definition sqrt_pos (a : Q) : Q :=
  let e := ilog2 a / 2 in
  let y := (a * 2 ^ (2 * (52 - e)))%Q in
  let t := Z.sqrt (Qfloor y) in
  let m :=
    match (y ?= inject_Z (t * t + t) + (1 # 4))%Q with
    | Lt => t
    | Gt => t + 1
    | Eq => if Z.even t then t else t + 1
    end in
  (inject_Z m * 2 ^ (e - 52))%Q.

(** Half the distance between 1 and the next double: the largest
    relative error of one rounding. *)
Definition unit_roundoff : Q := 1 # 9007199254740992.

Inductive number : Type :=
  | Num (q : Q)
  | NaN.

(** An integer below 2^53. *)
Definition ofZ (z : Z) : number := Num (inject_Z z).

(** A decimal literal, and [parseFloat] of a decimal string: the double
    nearest to the decimal. *)
Definition literal (d : Q) : number := Num (binary64 d).

Definition num_add (x y : number) : number :=
  match x, y with
  | Num a, Num b => Num (binary64 (a + b))
  | _, _ => NaN
  end.

Definition num_sub (x y : number) : number :=
  match x, y with
  | Num a, Num b => Num (binary64 (a - b))
  | _, _ => NaN
  end.

Definition num_mul (x y : number) : number :=
  match x, y with
  | Num a, Num b => Num (binary64 (a * b))
  | _, _ => NaN
  end.

(** [x / y]: [0 / 0] is [NaN]. *)
Definition num_div (x y : number) : number :=
  match x, y with
  | Num a, Num b => if Qeq_bool b 0 then NaN else Num (binary64 (a / b))
  | _, _ => NaN
  end.

(** [x < y]: false as soon as one side is [NaN]. *)
Definition num_lt (x y : number) : bool :=
  match x, y with
  | Num a, Num b => negb (Qle_bool b a)
  | _, _ => false
  end.

(** [x >= y]: false as soon as one side is [NaN]. *)
Definition num_ge (x y : number) : bool :=
  match x, y with
  | Num a, Num b => Qle_bool b a
  | _, _ => false
  end.

(** [Math.pow(x, 2)], taken as the rounded product. *)
Definition Math_pow2 (x : number) : number := num_mul x x.

(** [Math.sqrt(x)], the rounded root; [NaN] below zero. *)
Definition Math_sqrt (x : number) : number :=
  match x with
  | Num q =>
      match Qnum (Qred q) with
      | 0 => Num 0
      | Zpos _ => Num (Qred (sqrt_pos (Qred q)))
      | Zneg _ => NaN
      end
  | NaN => NaN
  end.

(** [Math.round(x)]: the nearest integer, a half rounds up. *)
Definition Math_round (x : number) : number :=
  match x with
  | Num q => ofZ (Qfloor (q + (1 # 2)))
  | NaN => NaN
  end.

(** [parseFloat(x.toFixed(2))]: [toFixed] takes the exact value of the
    double, picks the integer [n] with [n / 100] nearest to [|x|], the
    larger one on a tie, and prints it with the sign of [x]; [NaN] prints
    as "NaN", which [parseFloat] reads back as [NaN]. *)
Definition toFixed2 (x : number) : number :=
  match x with
  | Num q =>
      if Qle_bool 0 q then literal (Qfloor (q * 100 + (1 # 2)) # 100)
      else literal (- Qfloor (- q * 100 + (1 # 2)) # 100)
  | NaN => NaN
  end.

(** ** [Array.prototype.sort]

    The sort is stable, and with a consistent comparator its result is
    determined: the stable insertion sort below.  A comparator result that
    is [NaN] counts as [+0]. *)

Section ArraySort.
Context {A : Type}.
Variable compareFn : A → A → number.

(** [compareFn a b <= 0] after the [NaN]-to-zero conversion: [a] may stay
    before [b]. *)
Definition keeps_order (a b : A) : bool :=
  match compareFn a b with
  | Num v => Qle_bool v 0
  | NaN => true
  end.

Fixpoint sort_insert (x : A) (l : list A) : list A :=
  match l with
  | [] => [x]
  | y :: l' => if keeps_order x y then x :: y :: l' else y :: sort_insert x l'
  end.

Fixpoint Array_sort (l : list A) : list A :=
  match l with
  | [] => []
  | x :: l' => sort_insert x (Array_sort l')
  end.
End ArraySort.

(** ** The colour quantiser: [medianCut] *)

(** A colour sample [[r, g, b]] pushed by the sampler. *)
Definition rgb : Type := Z * Z * Z.

(** [color[channel]] for [channel] in 0, 1, 2. *)
Definition chan (channel : nat) (color : rgb) : Z :=
  match channel with
  | O => color.1.1
  | S O => color.1.2
  | _ => color.2
  end.

(** A representative colour: the three rounded means, [NaN] for an empty
    bucket. *)
Definition color : Type := number * number * number.

(** *** Spread calls

    [f(...values)] passes one argument per element of [values].  An
    engine takes a bounded number of arguments, [argument_limit] below
    (65536 for JavaScriptCore; the language sets no bound), and a call
    with more throws a [RangeError]: the call ends with its value or with
    that error. *)

Inductive outcome (A : Type) : Type :=
  | Returns (v : A)
  | RangeError.
Arguments Returns {A} v.
Arguments RangeError {A}.

(** What follows a call that throws is not run. *)
#[export] Instance outcome_mret : MRet outcome := @Returns.
#[export] Instance outcome_mbind : MBind outcome :=
  fun A B k m =>
    match m with
    | Returns v => k v
    | RangeError => RangeError
    end.

(** [Math.max(...values)] and [Math.min(...values)]; the value is that of
    a non-empty list (they are only applied to buckets of two samples or
    more, and to the three ranges). *)
Definition Math_max (argument_limit : nat) (values : list Z) : outcome Z :=
  if (length values <=? argument_limit)%nat then
    Returns match values with
            | [] => 0
            | v :: vs => fold_left Z.max vs v
            end
  else RangeError.

Definition Math_min (argument_limit : nat) (values : list Z) : outcome Z :=
  if (length values <=? argument_limit)%nat then
    Returns match values with
            | [] => 0
            | v :: vs => fold_left Z.min vs v
            end
  else RangeError.

(** [ranges.indexOf(m)]: the first index holding [m]. *)
Fixpoint indexOf (l : list Z) (m : Z) : nat :=
  match l with
  | [] => O
  | v :: l' => if v =? m then O else S (indexOf l' m)
  end.

(** The base case: the channel sums, then each one divided by the bucket
    size and rounded. *)
Definition average (colors : list rgb) : color :=
  let avg :=
    fold_left (fun avg c => (avg.1.1 + chan 0 c, avg.1.2 + chan 1 c, avg.2 + chan 2 c))
              colors (0, 0, 0) in
  let n := ofZ (Z.of_nat (length colors)) in
  (Math_round (num_div (ofZ avg.1.1) n),
   Math_round (num_div (ofZ avg.1.2) n),
   Math_round (num_div (ofZ avg.2) n)).

(** The body of the [map] over the channels. *)
Definition channel_range (argument_limit : nat) (colors : list rgb) (channel : nat)
  : outcome Z :=
  let values := map (chan channel) colors in
  hi ← Math_max argument_limit values;
  lo ← Math_min argument_limit values;
  mret (hi - lo).

Definition ranges (argument_limit : nat) (colors : list rgb) : outcome (list Z) :=
  mapM (channel_range argument_limit colors) [0; 1; 2]%nat.

Definition maxChannel (argument_limit : nat) (colors : list rgb) : outcome nat :=
  ranges ← ranges argument_limit colors;
  m ← Math_max argument_limit ranges;
  mret (indexOf ranges m).

(** [colors.sort((a, b) => a[maxChannel] - b[maxChannel])] *)
Definition sort_by_channel (channel : nat) (colors : list rgb) : list rgb :=
  Array_sort (fun a b => ofZ (chan channel a - chan channel b)) colors.

Definition mid (colors : list rgb) : nat := (length colors / 2)%nat.

Definition is_leaf (colors : list rgb) (depth : Z) : bool :=
  (depth =? 0) || (length colors <=? 1)%nat.

(** [medianCut(colors, depth)], with the number of nested calls bounded by
    [fuel]: [None] when the bound is hit. *)
Fixpoint medianCut_fuel (argument_limit : nat) (fuel : nat) (colors : list rgb)
    (depth : Z) : option (outcome (list color)) :=
  match fuel with
  | O => None
  | S fuel' =>
      if is_leaf colors depth then Some (Returns [average colors])
      else
        match maxChannel argument_limit colors with
        | RangeError => Some RangeError
        | Returns maxChannel =>
            let colors := sort_by_channel maxChannel colors in
            let left := take (mid colors) colors in
            let right := drop (mid colors) colors in
            match medianCut_fuel argument_limit fuel' left (depth - 1) with
            | Some (Returns l) =>
                match medianCut_fuel argument_limit fuel' right (depth - 1) with
                | Some (Returns r) => Some (Returns (l ++ r))
                | stopped => stopped
                end
            | stopped => stopped
            end
        end
  end.

(** A bucket of [n] samples needs at most [n] nested calls, whatever the
    depth: [medianCut] as a total function, from a bucket and a depth to
    the outcome of the call. *)
Definition medianCut (argument_limit : nat) (colors : list rgb) (depth : Z)
  : outcome (list color) :=
  default (Returns []) (medianCut_fuel argument_limit (S (length colors)) colors depth).

(** The caller's array after a call that returns: [colors.sort] works in
    place, the two halves are fresh copies ([slice]). *)
Definition medianCut_array (argument_limit : nat) (colors : list rgb) (depth : Z)
  : outcome (list rgb) :=
  if is_leaf colors depth then Returns colors
  else
    maxChannel ← maxChannel argument_limit colors;
    mret (sort_by_channel maxChannel colors).

(** ** Loops over the pixel buffer

    [imageData.data] is the flat RGBA array, four entries per pixel, each
    in 0..255.  The three loops of the module share one skeleton:

      for (let i = 0; i < pixels.length; i += stride) {
        const r = pixels[i]; const g = pixels[i + 1];
        const b = pixels[i + 2]; const a = pixels[i + 3];
        if (a < 128) continue;
        body
      }

    A read past the end of the array ([undefined] in the source) cannot
    happen on an [ImageData] buffer, whose length is a multiple of four;
    the loop answers [None] for it, and also when [fuel] iterations were
    not enough. *)

Fixpoint visible_pixels_loop {St : Type} (fuel : nat) (stride : nat)
    (pixels : list Z) (i : nat) (body : St → Z → Z → Z → St) (s : St) : option St :=
  match fuel with
  | O => None
  | S fuel' =>
      if (i <? length pixels)%nat then
        match pixels !! i, pixels !! (i + 1)%nat,
              pixels !! (i + 2)%nat, pixels !! (i + 3)%nat with
        | Some r, Some g, Some b, Some a =>
            if a <? 128
            then visible_pixels_loop fuel' stride pixels (i + stride) body s
            else visible_pixels_loop fuel' stride pixels (i + stride) body (body s r g b)
        | _, _, _, _ => None
        end
      else Some s
  end.

(** One iteration per index at most: the length of the buffer, plus the
    final test, is fuel enough. *)
Definition for_visible_pixels {St : Type} (stride : nat) (pixels : list Z)
    (body : St → Z → Z → Z → St) (s : St) : option St :=
  visible_pixels_loop (S (length pixels)) stride pixels 0 body s.

(** ** The pixel sampler (first loop of [extractColorPalette]) *)

Definition sampler (pixels : list Z) : option (list rgb) :=
  for_visible_pixels 40 pixels
    (fun sampledColors r g b => sampledColors ++ [(r, g, b)]) [].

(** ** The palette summariser (rest of [extractColorPalette]) *)

Definition getColorDistance (color1 : rgb) (color2 : color) : number :=
  Math_sqrt
    (num_add
       (num_add (Math_pow2 (num_sub (ofZ (chan 0 color1)) color2.1.1))
                (Math_pow2 (num_sub (ofZ (chan 1 color1)) color2.1.2)))
       (Math_pow2 (num_sub (ofZ (chan 2 color1)) color2.2))).

Definition hex_digit (d : Z) : ascii :=
  nth (Z.to_nat d) (list_ascii_of_string "0123456789abcdef") "0"%char.

Fixpoint hex_digits (fuel : nat) (n : Z) (acc : string) : string :=
  match fuel with
  | O => acc
  | S fuel' =>
      let acc' := String (hex_digit (n mod 16)) acc in
      if n / 16 =? 0 then acc' else hex_digits fuel' (n / 16) acc'
  end.

Definition hex_of_nonneg (n : Z) : string :=
  hex_digits (S (Z.to_nat (Z.log2 n))) n "".

(** [x.toString(16)].  The program prints rounded channel means only;
    the digits after the point of a non-integer, which the language leaves
    to the implementation, are left out. *)
Definition toString16 (x : number) : string :=
  match x with
  | NaN => "NaN"
  | Num q =>
      if Qle_bool 0 q then hex_of_nonneg (Qfloor q)
      else String "-" (hex_of_nonneg (Qfloor (- q)))
  end.

Definition rgbToHex (r g b : number) : string :=
  String "#"
    (String.concat ""
       (map (fun x =>
               let hex := toString16 x in
               if (String.length hex =? 1)%nat then String "0" hex else hex)
            [r; g; b])).

Record ColorInfo : Type := {
  hex : string;
  rgb_r : number;
  rgb_g : number;
  rgb_b : number;
  percentage : number
}.

(** The inner counting loop of [colorCounts]. *)
Definition count_near (sampledColors : list rgb) (color : color) : Z :=
  fold_left
    (fun count pixel =>
       if num_lt (getColorDistance pixel color) (ofZ 50) then count + 1 else count)
    sampledColors 0.

(** Everything after the sampling loop.  [medianCut] has sorted
    [sampledColors] in place by the time the counts are taken. *)
Definition summarize (argument_limit : nat) (sampledColors : list rgb)
    (numColors : Z) : outcome (list ColorInfo) :=
  palette ← medianCut argument_limit sampledColors numColors;
  sampledColors ← medianCut_array argument_limit sampledColors numColors;
  let totalPixels := Z.of_nat (length sampledColors) in
  let colorCounts := map (count_near sampledColors) palette in
  let dominantColors :=
    imap (fun index color =>
            {| hex := rgbToHex color.1.1 color.1.2 color.2;
               rgb_r := color.1.1;
               rgb_g := color.1.2;
               rgb_b := color.2;
               percentage :=
                 toFixed2 (num_mul (num_div (ofZ (colorCounts !!! index))
                                            (ofZ totalPixels))
                                   (ofZ 100)) |})
         palette in
  mret (Array_sort (fun a b => num_sub (percentage b) (percentage a)) dominantColors).

(** [None] as the sampling loop has it; then the palette, or the
    [RangeError] of [medianCut]. *)
Definition extractColorPalette (argument_limit : nat) (pixels : list Z)
    (numColors : Z) : option (outcome (list ColorInfo)) :=
  sampledColors ← sampler pixels;
  Some (summarize argument_limit sampledColors numColors).

(** The default [numColors = 8] of the signature. *)
Definition extractColorPalette_default (argument_limit : nat) (pixels : list Z)
  : option (outcome (list ColorInfo)) :=
  extractColorPalette argument_limit pixels 8.

(** ** The statistics engine: [calculateImageStats] *)

Record ImageStats : Type := {
  averageBrightness : number;
  averageContrast : number;
  red : number;
  green : number;
  blue : number
}.

(** [0.299 * r + 0.587 * g + 0.114 * b] *)
Definition brightness (r g b : Z) : number :=
  num_add
    (num_add (num_mul (literal (299 # 1000)) (ofZ r))
             (num_mul (literal (587 # 1000)) (ofZ g)))
    (num_mul (literal (114 # 1000)) (ofZ b)).

Record totals : Type := {
  totalBrightness : number;
  totalRed : Z;
  totalGreen : Z;
  totalBlue : Z;
  pixelCount : Z
}.

Definition no_totals : totals :=
  {| totalBrightness := ofZ 0; totalRed := 0; totalGreen := 0; totalBlue := 0;
     pixelCount := 0 |}.

Definition accumulate (t : totals) (r g b : Z) : totals :=
  {| totalBrightness := num_add (totalBrightness t) (brightness r g b);
     totalRed := totalRed t + r;
     totalGreen := totalGreen t + g;
     totalBlue := totalBlue t + b;
     pixelCount := pixelCount t + 1 |}.

(** The body of the second loop. *)
Definition add_deviation (avgBrightness : number) (varianceSum : number)
    (r g b : Z) : number :=
  num_add varianceSum (Math_pow2 (num_sub (brightness r g b) avgBrightness)).

Definition calculateImageStats (pixels : list Z) : option ImageStats :=
  t ← for_visible_pixels 4 pixels accumulate no_totals;
  let avgBrightness := num_div (totalBrightness t) (ofZ (pixelCount t)) in
  let avgRed := num_div (ofZ (totalRed t)) (ofZ (pixelCount t)) in
  let avgGreen := num_div (ofZ (totalGreen t)) (ofZ (pixelCount t)) in
  let avgBlue := num_div (ofZ (totalBlue t)) (ofZ (pixelCount t)) in
  varianceSum ← for_visible_pixels 4 pixels (add_deviation avgBrightness) (ofZ 0);
  let contrast := Math_sqrt (num_div varianceSum (ofZ (pixelCount t))) in
  Some {| averageBrightness := toFixed2 avgBrightness;
          averageContrast := toFixed2 contrast;
          red := toFixed2 avgRed;
          green := toFixed2 avgGreen;
          blue := toFixed2 avgBlue |}.

(** ** The response parser of the Gemini module: [parseJSONResponse]

    Strings are sequences of code units below 256. *)

Local Open Scope string_scope.

(** White space and line terminators, as [trim] sees them. *)
Definition is_white (c : ascii) : bool :=
  let n := nat_of_ascii c in
  ((9 <=? n) && (n <=? 13) || (n =? 32) || (n =? 160))%nat.

Fixpoint trim_start (s : string) : string :=
  match s with
  | "" => ""
  | String c s' => if is_white c then trim_start s' else s
  end.

Fixpoint trim_end (s : string) : string :=
  match s with
  | "" => ""
  | String c s' =>
      match trim_end s' with
      | "" => if is_white c then "" else String c ""
      | t => String c t
      end
  end.

(** [text.trim()] *)
Definition trim (text : string) : string := trim_end (trim_start text).

(** [s.startsWith(p)] *)
Definition startsWith (s p : string) : bool := String.prefix p s.

Definition line_feed : string := String "010" "".

(** Code units taken by a match of [/fence\n?/] at the head of [s]. *)
Definition fence_match (fence s : string) : nat :=
  if String.prefix (fence ++ line_feed) s
  then S (String.length fence)
  else String.length fence.

(** [s.replace(/fence\n?/g, '')] for a literal, non-empty [fence]: the
    matches are found from left to right and the scan resumes after each
    of them; [skip] counts the code units of the current match still to be
    dropped. *)
Fixpoint remove_fences_from (fence : string) (skip : nat) (s : string) : string :=
  match s with
  | "" => ""
  | String c s' =>
      match skip with
      | S k => remove_fences_from fence k s'
      | O =>
          if String.prefix fence s
          then remove_fences_from fence (Nat.pred (fence_match fence s)) s'
          else String c (remove_fences_from fence O s')
      end
  end.

Definition remove_fences (fence s : string) : string :=
  remove_fences_from fence O s.

(** The text handed to [JSON.parse]. *)
Definition cleaned (text : string) : string :=
  let cleaned := trim text in
  if startsWith cleaned "```json"
  then remove_fences "```" (remove_fences "```json" cleaned)
  else if startsWith cleaned "```"
  then remove_fences "```" cleaned
  else cleaned.

(** How a call ends: with a value, or with a thrown error. *)
Inductive completion (A : Type) : Type :=
  | Return (v : A)
  | Throw (message : string).
Arguments Return {A} v.
Arguments Throw {A} message.

Definition try_catch {A : Type} (block : completion A)
    (handler : string → completion A) : completion A :=
  match block with
  | Return v => Return v
  | Throw e => handler e
  end.

Section Gemini.
(** The values of the language and the built-in [JSON.parse], which
    returns the parsed value or throws a [SyntaxError]. *)
Variable Value : Type.
Variable JSON_parse : string → completion Value.
(** The array literal [[]]. *)
Variable empty_array : Value.

Definition parseJSONResponse (text : string) (fallback : Value)
  : completion Value :=
  try_catch (JSON_parse (cleaned text)) (fun _ => Return fallback).

(** [result.ocr = parseJSONResponse<OCRResult[]>(ocrText, [])] *)
Definition ocr_of_response (ocrText : string) : completion Value :=
  parseJSONResponse ocrText empty_array.
End Gemini.

(** *** A JSON reader

    An instance of [JSON.parse] to run the parser on: the JSON grammar
    (ECMA-404), with string and number literals kept as written. *)

#[warnings="-register-all"]
Inductive json : Type :=
  | JNull
  | JBool (b : bool)
  | JNumber (literal : string)
  | JString (literal : string)
  | JArray (items : list json)
  | JObject (members : list (string * json)).

Definition is_json_space (c : ascii) : bool :=
  let n := nat_of_ascii c in
  ((n =? 32) || (n =? 9) || (n =? 10) || (n =? 13))%nat.

Fixpoint skip_space (s : string) : string :=
  match s with
  | "" => ""
  | String c s' => if is_json_space c then skip_space s' else s
  end.

Definition is_digit (c : ascii) : bool :=
  let n := nat_of_ascii c in ((48 <=? n) && (n <=? 57))%nat.

Definition is_hex (c : ascii) : bool :=
  let n := nat_of_ascii c in
  (is_digit c || (65 <=? n) && (n <=? 70) || (97 <=? n) && (n <=? 102))%nat.

(** The longest prefix of digits, and what follows. *)
Fixpoint span_digits (s : string) : string * string :=
  match s with
  | "" => ("", "")
  | String c s' =>
      if is_digit c
      then let '(d, r) := span_digits s' in (String c d, r)
      else ("", s)
  end.

(** One digit or more. *)
Definition read_digits (s : string) : option (string * string) :=
  match span_digits s with
  | ("", _) => None
  | (d, r) => Some (d, r)
  end.

Definition read_int (s : string) : option (string * string) :=
  match s with
  | String "0" r => Some ("0", r)
  | _ => read_digits s
  end.

Definition read_frac (s : string) : option (string * string) :=
  match s with
  | String "." r =>
      match read_digits r with
      | Some (d, r') => Some (String "." d, r')
      | None => None
      end
  | _ => Some ("", s)
  end.

Definition read_exp (s : string) : option (string * string) :=
  match s with
  | String e r =>
      if (Ascii.eqb e "e" || Ascii.eqb e "E")%bool then
        let '(sign, r1) :=
          match r with
          | String "+" r1 => ("+", r1)
          | String "-" r1 => ("-", r1)
          | _ => ("", r)
          end in
        match read_digits r1 with
        | Some (d, r') => Some (String e (sign ++ d), r')
        | None => None
        end
      else Some ("", s)
  | "" => Some ("", s)
  end.

Definition read_number (s : string) : option (string * string) :=
  let '(sign, s1) :=
    match s with
    | String "-" r => ("-", r)
    | _ => ("", s)
    end in
  '(i, s2) ← read_int s1;
  '(f, s3) ← read_frac s2;
  '(e, s4) ← read_exp s3;
  Some (sign ++ i ++ f ++ e, s4).

(** The double quote. *)
Definition dquote : ascii := "034"%char.

(** [s] between double quotes. *)
Definition quoted (s : string) : string :=
  String dquote (s ++ String dquote "").

Definition is_escape (c : ascii) : bool :=
  existsb (Ascii.eqb c) (list_ascii_of_string "\/bfnrt")
  || Ascii.eqb c dquote.

(** The characters of a string literal after its opening quote, up to the
    closing one. *)
Fixpoint read_string (s : string) : option (string * string) :=
  match s with
  | "" => None
  | String c s' =>
      if Ascii.eqb c dquote then Some ("", s')
      else if Ascii.eqb c "\"%char then
        match s' with
        | String "u" (String h1 (String h2 (String h3 (String h4 s'')))) =>
            if is_hex h1 && is_hex h2 && is_hex h3 && is_hex h4 then
              match read_string s'' with
              | Some (t, r) =>
                  Some (String c (String "u" (String h1 (String h2
                          (String h3 (String h4 t))))), r)
              | None => None
              end
            else None
        | String e s'' =>
            if is_escape e then
              match read_string s'' with
              | Some (t, r) => Some (String c (String e t), r)
              | None => None
              end
            else None
        | "" => None
        end
      else if (nat_of_ascii c <? 32)%nat then None
      else
        match read_string s' with
        | Some (t, r) => Some (String c t, r)
        | None => None
        end
  end.

Fixpoint string_drop (n : nat) (s : string) : string :=
  match n, s with
  | S n', String _ s' => string_drop n' s'
  | _, _ => s
  end.

(** Values, array elements and object members; [fuel] bounds the nested
    calls. *)
Fixpoint read_value (fuel : nat) (s : string) : option (json * string) :=
  match fuel with
  | O => None
  | S fuel' =>
      match skip_space s with
      | "" => None
      | String c s' as s0 =>
          if Ascii.eqb c "n" then
            if String.prefix "null" s0 then Some (JNull, string_drop 4 s0) else None
          else if Ascii.eqb c "t" then
            if String.prefix "true" s0 then Some (JBool true, string_drop 4 s0) else None
          else if Ascii.eqb c "f" then
            if String.prefix "false" s0 then Some (JBool false, string_drop 5 s0) else None
          else if Ascii.eqb c dquote then
            '(t, r) ← read_string s'; Some (JString t, r)
          else if Ascii.eqb c "[" then
            match skip_space s' with
            | String "]" r => Some (JArray [], r)
            | s1 => '(vs, r) ← read_elements fuel' s1; Some (JArray vs, r)
            end
          else if Ascii.eqb c "{" then
            match skip_space s' with
            | String "}" r => Some (JObject [], r)
            | s1 => '(ms, r) ← read_members fuel' s1; Some (JObject ms, r)
            end
          else
            '(n, r) ← read_number s0; Some (JNumber n, r)
      end
  end
with read_elements (fuel : nat) (s : string) : option (list json * string) :=
  match fuel with
  | O => None
  | S fuel' =>
      '(v, r) ← read_value fuel' s;
      match skip_space r with
      | String "," r' => '(vs, r'') ← read_elements fuel' r'; Some (v :: vs, r'')
      | String "]" r' => Some ([v], r')
      | _ => None
      end
  end
with read_members (fuel : nat) (s : string) : option (list (string * json) * string) :=
  match fuel with
  | O => None
  | S fuel' =>
      match skip_space s with
      | String c s1 =>
          if Ascii.eqb c dquote then
            '(k, r) ← read_string s1;
            match skip_space r with
            | String ":" r1 =>
                '(v, r2) ← read_value fuel' r1;
                match skip_space r2 with
                | String "," r3 =>
                    '(ms, r4) ← read_members fuel' r3; Some ((k, v) :: ms, r4)
                | String "}" r3 => Some ([(k, v)], r3)
                | _ => None
                end
            | _ => None
            end
          else None
      | "" => None
      end
  end.

(** [JSON.parse(text)]: one value, white space around it, nothing else. *)
Definition json_parse (text : string) : completion json :=
  match read_value (2 * String.length text + 2) text with
  | Some (v, r) =>
      match skip_space r with
      | "" => Return v
      | _ => Throw "SyntaxError"
      end
  | None => Throw "SyntaxError"
  end.

(** ** Hexadecimal colours read back *)

Definition hex_value (c : ascii) : option Z :=
  let n := Z.of_nat (nat_of_ascii c) in
  if ((48 <=? n) && (n <=? 57))%Z then Some (n - 48)
  else if ((97 <=? n) && (n <=? 102))%Z then Some (n - 87)
  else if ((65 <=? n) && (n <=? 70))%Z then Some (n - 55)
  else None.

Definition hex_pair (hi lo : ascii) : option Z :=
  h ← hex_value hi; l ← hex_value lo; Some (16 * h + l).

(** Modelled from the spec: [hexToRgb] is named by the round-trip property
    of the specification and is not part of the source.  It reads a colour
    written as [#rrggbb], the form the specification gives to the [hex]
    field of a palette entry: a [#] and three pairs of hexadecimal digits,
    one pair per channel. *)
Definition hexToRgb (s : string) : option rgb :=
  match s with
  | String "#" (String r1 (String r0 (String g1 (String g0
      (String b1 (String b0 "")))))) =>
      r ← hex_pair r1 r0; g ← hex_pair g1 g0; b ← hex_pair b1 b0;
      Some (r, g, b)
  | _ => None
  end.

(** A decimal digit or one of the lowercase letters a to f. *)
Definition is_lower_hex (c : ascii) : bool :=
  let n := nat_of_ascii c in
  (is_digit c || (97 <=? n) && (n <=? 102))%nat.

(** The two-digit lowercase hexadecimal form of a channel. *)
Definition two_hex_digits (x : Z) : string :=
  String (hex_digit (x / 16)) (String (hex_digit (x mod 16)) "").

(** ** The sampler in the words of the specification

    The offsets of the flat array that are multiples of 40, those of them
    whose alpha entry is 128 or more, and the (R,G,B) triple at each. *)

Definition sampled_offsets (pixels : list Z) : list nat :=
  List.filter (fun i => (i mod 40 =? 0)%nat) (seq 0 (length pixels)).

Definition alpha_at (pixels : list Z) (i : nat) : Z := pixels !!! (i + 3)%nat.

Definition triple_at (pixels : list Z) (i : nat) : rgb :=
  (pixels !!! i, pixels !!! (i + 1)%nat, pixels !!! (i + 2)%nat).

Definition sampler_spec (pixels : list Z) : list rgb :=
  map (triple_at pixels)
      (List.filter (fun i => (128 <=? alpha_at pixels i)%Z) (sampled_offsets pixels)).

(** ** Vocabulary of the statements *)

(** [a.percentage >= b.percentage] *)
Definition percentage_ge (a b : ColorInfo) : Prop :=
  num_ge (percentage a) (percentage b) = true.

(** The sum of a list of numbers. *)
Definition num_sum (l : list number) : number :=
  fold_left num_add l (ofZ 0).



(** [v] is the largest value on [channel] minus the smallest one. *)
Definition is_range (channel : nat) (colors : list rgb) (v : Z) : Prop :=
  ∃ hi lo : rgb,
    hi ∈ colors ∧ lo ∈ colors
    ∧ v = (chan channel hi - chan channel lo)%Z
    ∧ ∀ c, c ∈ colors → (chan channel lo <= chan channel c <= chan channel hi)%Z.

(** The call [medianCut(colors, depth)] splits its bucket, and one of the
    spread calls of the split has more arguments than the engine takes:
    [Math.max(...values)] has one argument per sample,
    [Math.max(...ranges)] has three. *)
Definition refused (argument_limit : nat) (colors : list rgb) (depth : Z) : Prop :=
  depth ≠ 0%Z ∧ (1 < length colors)%nat
  ∧ ((argument_limit < length colors)%nat ∨ (argument_limit < 3)%nat).

(** No pixel of the buffer is eligible: every alpha entry is below 128. *)
Definition no_eligible_pixel (pixels : list Z) : Prop :=
  ∀ i a, (i mod 4 = 3)%nat → pixels !! i = Some a → (a < 128)%Z.

(** The relative error allowed to a rounded sum of up to 2^28 equal
    terms: 2^-24. *)
Definition sum_error : Q := 1 # 16777216.

(** The buffer of an image of [n] opaque pixels of one colour. *)
Fixpoint uniform_image (n : nat) (r g b : Z) : list Z :=
  match n with
  | O => []
  | S n' => r :: g :: b :: 255%Z :: uniform_image n' r g b
  end.

(** * The rest of the two modules, and the application

    The functions of the canvas module and of the Gemini module that the
    sections above leave out ([extractMetadata], [convertToBase64],
    [processImageWithCanvas]; [validateApiKey], [fileToBase64],
    [analyzeImageWithGemini]) and their caller, [handleProcess] of the
    application component. *)

(** ** The metadata: [extractMetadata] *)

(** The decimal digit [d]. *)
Definition digit (d : Z) : ascii := ascii_of_nat (48 + Z.to_nat d).

(** The decimal digits of an integer that is not negative, [fuel] digits
    at most. *)
Fixpoint decimal_digits (fuel : nat) (n : Z) : string :=
  match fuel with
  | O => ""
  | S fuel' =>
      if (n <? 10)%Z then String (digit n) ""
      else decimal_digits fuel' (n / 10) ++ String (digit (n mod 10)) ""
  end.

(** The decimal digits of [n]: an integer has no more decimal digits than
    binary ones. *)
Definition decimal (n : Z) : string :=
  decimal_digits (S (Z.to_nat (Z.log2 n))) n.

(** The first [n] characters of [s]. *)
Fixpoint string_take (n : nat) (s : string) : string :=
  match n, s with
  | S n', String c s' => String c (string_take n' s')
  | _, _ => ""
  end.

(** [n] times the digit zero. *)
Fixpoint zeros (n : nat) : string :=
  match n with
  | O => ""
  | S n' => String "0" (zeros n')
  end.

(** [x.toFixed(2)] as the language defines it for a finite [x] below
    10^21: the sign; then, with [n] the integer for which [n / 100] is
    nearest to [|x|] (the larger one on a tie), the digits of [n], padded
    with zeros to three digits, with a point before the last two. *)
Definition toFixed2_string (x : Q) : string :=
  let s := if Qle_bool 0 x then "" else "-" in
  let x := Qabs x in
  let n := Qfloor (x * 100 + (1 # 2)) in
  let m := decimal n in
  let k := String.length m in
  let m := if (k <=? 2)%nat then zeros (3 - k) ++ m else m in
  let k := String.length m in
  s ++ string_take (k - 2) m ++ "." ++ string_drop (k - 2) m.

(** [(a / b).toFixed(2)] for two integers below 2^53: the quotient is the
    rounded exact quotient, an infinity when only [b] is zero, and [NaN]
    when both are. *)
Definition quotient_toFixed2 (a b : Z) : string :=
  if (b =? 0)%Z then
    if (a =? 0)%Z then "NaN" else if (0 <? a)%Z then "Infinity" else "-Infinity"
  else toFixed2_string (binary64 (inject_Z a / inject_Z b)).

(** What the two modules read of a [File]: its [name], its [size] and
    its [type]. *)
Record File : Type := {
  file_name : string;
  file_size : Z;
  file_type : string
}.

(** A decoded image: [img.width], [img.height], and the RGBA buffer a
    canvas of that size holds once the image is drawn on it. *)
Record Image : Type := {
  width : Z;
  height : Z;
  data : list Z
}.

(** The metadata record; [dimensions] is the pair of [width] and
    [height]. *)
Record ImageMetadata : Type := {
  fileName : string;
  fileSize : Z;
  fileType : string;
  dimensions : Z * Z;
  aspectRatio : string
}.

Definition extractMetadata (file : File) (img : Image) : ImageMetadata :=
  let aspectRatio := quotient_toFixed2 (width img) (height img) in
  {| fileName := file_name file;
     fileSize := file_size file;
     fileType := file_type file;
     dimensions := (width img, height img);
     aspectRatio := aspectRatio ++ ":1" |}.

(** ** The API key check of the Gemini module: [validateApiKey] *)

(** The class [[A-Za-z0-9_-]]. *)
Definition is_key_char (c : ascii) : bool :=
  let n := nat_of_ascii c in
  ((65 <=? n) && (n <=? 90) || (97 <=? n) && (n <=? 122)
   || (48 <=? n) && (n <=? 57) || (n =? 95) || (n =? 45))%nat.

(** [/^[A-Za-z0-9_-]+$/.test(s)]: from the start of [s], one character of
    the class or more, then the end of [s]. *)
Fixpoint test_key_chars (s : string) : bool :=
  match s with
  | "" => false
  | String c "" => is_key_char c
  | String c s' => is_key_char c && test_key_chars s'
  end.

Definition validateApiKey (apiKey : string) : bool :=
  (20 <? String.length apiKey)%nat && test_key_chars apiKey.

(** ** Reading the file: [fileToBase64] *)

(** [s.split(',')]: the pieces of [s] between its commas. *)
Fixpoint split_comma (s : string) : list string :=
  match s with
  | "" => [""]
  | String c s' =>
      if Ascii.eqb c ","
      then "" :: split_comma s'
      else match split_comma s' with
           | piece :: pieces => String c piece :: pieces
           | [] => [String c ""]
           end
  end.

(** [result.split(',')[1]]: [None] is [undefined]. *)
Definition data_url_payload (result : string) : option string :=
  split_comma result !! 1%nat.

(** ** Promises

    A thrown value is an [Error] with its message, or some other value
    (the event a [FileReader] reports its failure with, for one).  An
    awaited promise is fulfilled, rejected, or never settled. *)

Inductive thrown : Type :=
  | Error (message : string)
  | NotAnError.

Inductive promise (A : Type) : Type :=
  | Fulfilled (v : A)
  | Rejected (reason : thrown)
  | Pending.
Arguments Fulfilled {A} v.
Arguments Rejected {A} reason.
Arguments Pending {A}.

(** ** The analysis by the model: [analyzeImageWithGemini] *)

(** The five prompts, by the name of their constant; their texts play no
    part in the control flow. *)
Inductive prompt : Type :=
  | ocrPrompt
  | objectPrompt
  | descPrompt
  | uiPrompt
  | designPrompt.

(** The argument of [model.generateContent]: a prompt and the image as
    inline data ([None] is [undefined]) with its MIME type. *)
Record request : Type := {
  request_prompt : prompt;
  inlineData_data : option string;
  inlineData_mimeType : string
}.

(** The options of [analyzeImageWithGemini]; an option left out is
    off. *)
Module GeminiOptions.
Record t : Type := {
  extractOCR : bool;
  detectObjects : bool;
  analyzeUI : bool;
  analyzeDesign : bool
}.
End GeminiOptions.

(** The result object; [None] is a property that was never set. *)
Record GeminiAnalysis (Value : Type) : Type := {
  ocr : option Value;
  objects : option Value;
  description : option string;
  uiElements : option Value;
  designAnalysis : option Value
}.
Arguments ocr {Value} _.
Arguments objects {Value} _.
Arguments description {Value} _.
Arguments uiElements {Value} _.
Arguments designAnalysis {Value} _.

(** A computation that awaits the model: from the requests sent so far
    to the state of its promise and the requests sent by then. *)
Definition session (A : Type) : Type :=
  list request → promise A * list request.

Definition session_ret {A : Type} (v : A) : session A :=
  fun sent => (Fulfilled v, sent).

Definition session_bind {A B : Type} (k : A → session B) (m : session A)
  : session B :=
  fun sent =>
    match m sent with
    | (Fulfilled v, sent') => k v sent'
    | (Rejected reason, sent') => (Rejected reason, sent')
    | (Pending, sent') => (Pending, sent')
    end.

#[export] Instance session_mret : MRet session := @session_ret.
#[export] Instance session_mbind : MBind session := @session_bind.

(** [throw e] *)
Definition throw {A : Type} (e : thrown) : session A :=
  fun sent => (Rejected e, sent).

(** [await p] *)
Definition await {A : Type} (p : promise A) : session A :=
  fun sent => (p, sent).

(** [try { block } catch (error) { handler }] *)
Definition try_session {A : Type} (block : session A)
    (handler : thrown → session A) : session A :=
  fun sent =>
    match block sent with
    | (Rejected error, sent') => handler error sent'
    | settled => settled
    end.

(** A synchronous call inside a [try] block: what it throws is an
    [Error]. *)
Definition call {A : Type} (c : completion A) : session A :=
  match c with
  | Return v => mret v
  | Throw message => throw (Error message)
  end.

Section GeminiService.
Variable Value : Type.
Variable JSON_parse : string → completion Value.
(** The literals [[]] and [{colorHarmony: 'N/A', typography: 'N/A',
    layout: 'N/A'}]. *)
Variable empty_array : Value.
Variable not_available : Value.
(** [reader.readAsDataURL(file)]: the data URL handed to [onload], or
    [None] when [onerror] fires instead. *)
Variable readAsDataURL : File → option string.
(** [(await model.generateContent(request)).response.text()] for the
    request of a given rank, counted from zero. *)
Variable generateContent : nat → request → promise string.

Definition fileToBase64 (file : File) : promise (option string) :=
  match readAsDataURL file with
  | Some result => Fulfilled (data_url_payload result)
  | None => Rejected NotAnError
  end.

(** One request with the image, and the text of the answer. *)
Definition ask (p : prompt) (base64Data : option string) (file : File)
  : session string :=
  fun sent =>
    let r := {| request_prompt := p;
                inlineData_data := base64Data;
                inlineData_mimeType := file_type file |} in
    (generateContent (length sent) r, (sent ++ [r])%list).

Definition analyzeImageWithGemini (file : File) (apiKey : string)
    (options : GeminiOptions.t) : session (GeminiAnalysis Value) :=
  if String.eqb apiKey "" then throw (Error "Gemini API key is required")
  else
    base64Data ← await (fileToBase64 file);
    try_session
      (let result :=
         {| ocr := None; objects := None; description := None;
            uiElements := None; designAnalysis := None |} in
       result ←
         (if GeminiOptions.extractOCR options then
            ocrText ← ask ocrPrompt base64Data file;
            v ← call (parseJSONResponse Value JSON_parse ocrText empty_array);
            mret {| ocr := Some v; objects := objects result;
                    description := description result;
                    uiElements := uiElements result;
                    designAnalysis := designAnalysis result |}
          else mret result);
       result ←
         (if GeminiOptions.detectObjects options then
            objectText ← ask objectPrompt base64Data file;
            v ← call (parseJSONResponse Value JSON_parse objectText empty_array);
            mret {| ocr := ocr result; objects := Some v;
                    description := description result;
                    uiElements := uiElements result;
                    designAnalysis := designAnalysis result |}
          else mret result);
       result ←
         (if GeminiOptions.detectObjects options || GeminiOptions.analyzeDesign options then
            descText ← ask descPrompt base64Data file;
            mret {| ocr := ocr result; objects := objects result;
                    description := Some (trim descText);
                    uiElements := uiElements result;
                    designAnalysis := designAnalysis result |}
          else mret result);
       result ←
         (if GeminiOptions.analyzeUI options then
            uiText ← ask uiPrompt base64Data file;
            v ← call (parseJSONResponse Value JSON_parse uiText empty_array);
            mret {| ocr := ocr result; objects := objects result;
                    description := description result;
                    uiElements := Some v;
                    designAnalysis := designAnalysis result |}
          else mret result);
       result ←
         (if GeminiOptions.analyzeDesign options then
            designText ← ask designPrompt base64Data file;
            v ← call (parseJSONResponse Value JSON_parse designText not_available);
            mret {| ocr := ocr result; objects := objects result;
                    description := description result;
                    uiElements := uiElements result;
                    designAnalysis := Some v |}
          else mret result);
       mret result)
      (fun error =>
         throw (Error ("Failed to analyze image with Gemini: "
                       ++ match error with
                          | Error message => message
                          | NotAnError => "Unknown error"
                          end))).
End GeminiService.

(** ** The canvas pipeline: [processImageWithCanvas] *)

(** The options of [processImageWithCanvas]; an option left out is
    off. *)
Module CanvasOptions.
Record t : Type := {
  extractMetadata : bool;
  extractColors : bool;
  convertBase64 : bool;
  calculateStats : bool
}.
End CanvasOptions.

(** The result object; [colors] holds the [dominantColors] array. *)
Record CanvasResult : Type := {
  metadata : option ImageMetadata;
  colors : option (list ColorInfo);
  base64 : option string;
  statistics : option ImageStats
}.

(** [ctx.getImageData(0, 0, canvas.width, canvas.height)] on the canvas
    the image was drawn on: the buffer, or [None] for the exception the
    call throws when the width or the height is zero. *)
Definition getImageData (img : Image) : option (list Z) :=
  if ((width img =? 0) || (height img =? 0))%Z then None else Some (data img).

Section Canvas.
(** The number of arguments the engine takes in a call. *)
Variable argument_limit : nat.
(** Whether [canvas.getContext('2d')] returns a context. *)
Variable getContext : bool.
(** The image the browser decodes from the file, or [None] when
    [img.onerror] fires instead of [img.onload]. *)
Variable decode : File → option Image.
(** [canvas.toDataURL('image/png')] with the image drawn. *)
Variable toDataURL : Image → string.

Definition convertToBase64 (img : Image) : string := toDataURL img.

(** The [img.onload] handler up to [resolve(result)]: [None] when an
    exception ends the handler before (that of [getImageData] on an empty
    canvas, the [RangeError] of [medianCut]), which leaves the promise
    unsettled. *)
Definition onload (file : File) (img : Image) (options : CanvasOptions.t)
  : option CanvasResult :=
  metadata ←
    (if CanvasOptions.extractMetadata options
     then Some (Some (extractMetadata file img)) else Some None);
  colors ←
    (if CanvasOptions.extractColors options
     then pixels ← getImageData img;
          palette ← extractColorPalette_default argument_limit pixels;
          match palette with
          | Returns palette => Some (Some palette)
          | RangeError => None
          end
     else Some None);
  base64 ←
    (if CanvasOptions.convertBase64 options
     then Some (Some (convertToBase64 img)) else Some None);
  statistics ←
    (if CanvasOptions.calculateStats options
     then pixels ← getImageData img;
          stats ← calculateImageStats pixels;
          Some (Some stats)
     else Some None);
  Some {| metadata := metadata; colors := colors; base64 := base64;
          statistics := statistics |}.

Definition processImageWithCanvas (file : File) (options : CanvasOptions.t)
  : promise CanvasResult :=
  if negb getContext then Rejected (Error "Could not get canvas context")
  else
    match decode file with
    | None => Rejected (Error "Failed to load image")
    | Some img =>
        match onload file img options with
        | Some result => Fulfilled result
        | None => Pending
        end
    end.
End Canvas.

(** ** The application: [handleProcess] *)

(** The toggles of the user. *)
Module ProcessingOptions.
Record t : Type := {
  basicInfo : bool;
  colors : bool;
  base64 : bool;
  statistics : bool;
  aiOcr : bool;
  aiObjects : bool;
  aiUI : bool;
  aiDesign : bool
}.
End ProcessingOptions.

(** The final result; [ai] is [None] until the model has answered. *)
Record ImageAnalysisResult (Value : Type) : Type := {
  timestamp : string;
  canvas : CanvasResult;
  ai : option (GeminiAnalysis Value)
}.
Arguments timestamp {Value} _.
Arguments canvas {Value} _.
Arguments ai {Value} _.

Module App.
(** The state of the component. *)
Record state (Value : Type) : Type := {
  selectedFile : option File;
  imageUrl : option string;
  apiKey : string;
  isProcessing : bool;
  result : option (ImageAnalysisResult Value);
  error : option string;
  options : ProcessingOptions.t
}.
Arguments selectedFile {Value} _.
Arguments imageUrl {Value} _.
Arguments apiKey {Value} _.
Arguments isProcessing {Value} _.
Arguments result {Value} _.
Arguments error {Value} _.
Arguments options {Value} _.

Definition setIsProcessing {Value : Type} (b : bool) (s : state Value) : state Value :=
  {| selectedFile := selectedFile s; imageUrl := imageUrl s; apiKey := apiKey s;
     isProcessing := b; result := result s; error := error s;
     options := options s |}.

Definition setError {Value : Type} (e : option string) (s : state Value) : state Value :=
  {| selectedFile := selectedFile s; imageUrl := imageUrl s; apiKey := apiKey s;
     isProcessing := isProcessing s; result := result s; error := e;
     options := options s |}.

Definition setResult {Value : Type} (r : option (ImageAnalysisResult Value))
    (s : state Value) : state Value :=
  {| selectedFile := selectedFile s; imageUrl := imageUrl s; apiKey := apiKey s;
     isProcessing := isProcessing s; result := r; error := error s;
     options := options s |}.

(** [const canvasOptions = {...}] *)
Definition canvasOptions (options : ProcessingOptions.t) : CanvasOptions.t :=
  {| CanvasOptions.extractMetadata := ProcessingOptions.basicInfo options;
     CanvasOptions.extractColors := ProcessingOptions.colors options;
     CanvasOptions.convertBase64 := ProcessingOptions.base64 options;
     CanvasOptions.calculateStats := ProcessingOptions.statistics options |}.

(** The options object handed to [analyzeImageWithGemini]. *)
Definition geminiOptions (options : ProcessingOptions.t) : GeminiOptions.t :=
  {| GeminiOptions.extractOCR := ProcessingOptions.aiOcr options;
     GeminiOptions.detectObjects := ProcessingOptions.aiObjects options;
     GeminiOptions.analyzeUI := ProcessingOptions.aiUI options;
     GeminiOptions.analyzeDesign := ProcessingOptions.aiDesign options |}.

(** [options.aiOcr || options.aiObjects || options.aiUI || options.aiDesign] *)
Definition hasAiOptions (options : ProcessingOptions.t) : bool :=
  ProcessingOptions.aiOcr options || ProcessingOptions.aiObjects options
  || ProcessingOptions.aiUI options || ProcessingOptions.aiDesign options.

Section HandleProcess.
Variable Value : Type.
Variable JSON_parse : string → completion Value.
Variable empty_array : Value.
Variable not_available : Value.
Variable readAsDataURL : File → option string.
Variable generateContent : nat → request → promise string.
Variable argument_limit : nat.
Variable getContext : bool.
Variable decode : File → option Image.
Variable toDataURL : Image → string.
(** [new Date().toISOString()] *)
Variable now : string.

(** The state once [handleProcess] has run as far as it ever will, and
    the requests sent to the model.  An awaited promise that never
    settles leaves the handler where it awaits. *)
Definition handleProcess (s : state Value) : state Value * list request :=
  match selectedFile s with
  | None => (s, [])
  | Some selectedFile =>
      let s := setError None (setIsProcessing true s) in
      match processImageWithCanvas argument_limit getContext decode toDataURL
              selectedFile (canvasOptions (options s)) with
      | Pending => (s, [])
      | Rejected err =>
          (* catch (err), then finally *)
          let message :=
            match err with
            | Error message => "Processing failed: " ++ message
            | NotAnError => "Processing failed with unknown error"
            end in
          (setIsProcessing false (setError (Some message) s), [])
      | Fulfilled canvasResult =>
          let analysisResult :=
            {| timestamp := now; canvas := canvasResult; ai := None |} in
          if negb (String.eqb (apiKey s) "") && hasAiOptions (options s) then
            match analyzeImageWithGemini Value JSON_parse empty_array
                    not_available readAsDataURL generateContent selectedFile
                    (apiKey s) (geminiOptions (options s)) [] with
            | (Pending, sent) => (s, sent)
            | (Fulfilled geminiResult, sent) =>
                let analysisResult :=
                  {| timestamp := now; canvas := canvasResult;
                     ai := Some geminiResult |} in
                (setIsProcessing false (setResult (Some analysisResult) s), sent)
            | (Rejected aiError, sent) =>
                (* the inner catch, then setResult, then finally *)
                let message :=
                  match aiError with
                  | Error message => "AI Analysis failed: " ++ message
                  | NotAnError => "AI Analysis failed with unknown error"
                  end in
                (setIsProcessing false
                   (setResult (Some analysisResult) (setError (Some message) s)),
                 sent)
            end
          else (setIsProcessing false (setResult (Some analysisResult) s), [])
      end
  end.
End HandleProcess.
End App.

(** ** Vocabulary of the further statements *)

(** The colour whose three channels are the integers of [v]. *)
Definition of_rgb (v : rgb) : color := (ofZ v.1.1, ofZ v.1.2, ofZ v.2).

(** Every channel of [c] lies between the same channel of [lo] and of
    [hi]. *)
Definition between (lo hi c : rgb) : Prop :=
  ∀ k : nat, chan k lo <= chan k c <= chan k hi.

(** A channel value of a canvas: an integer from 0 to 255. *)
Definition is_byte (v : Z) : Prop := 0 <= v <= 255.

(** The square of the distance between two integer colours. *)
Definition square_distance (a b : rgb) : Z :=
  (a.1.1 - b.1.1) * (a.1.1 - b.1.1)
  + (a.1.2 - b.1.2) * (a.1.2 - b.1.2)
  + (a.2 - b.2) * (a.2 - b.2).

(** The eligible pixels of a buffer, in buffer order: the (R,G,B) of
    every pixel whose alpha is 128 or more. *)
Fixpoint opaque_pixels (pixels : list Z) : list rgb :=
  match pixels with
  | r :: g :: b :: a :: rest =>
      if (a <? 128)%Z then opaque_pixels rest else (r, g, b) :: opaque_pixels rest
  | _ => []
  end.

(** No character of [s] is [c]. *)
Definition without (c : ascii) (s : string) : Prop :=
  Forall (fun d => d ≠ c) (list_ascii_of_string s).

(** Every character of [s] is white space. *)
Definition all_white (s : string) : Prop :=
  Forall (fun c => is_white c = true) (list_ascii_of_string s).

(** The back quote. *)
Definition backquote : ascii := "`"%char.

(** The prompts the options call for, in the order of the source. *)
Definition prompts_for (options : GeminiOptions.t) : list prompt :=
  ((if GeminiOptions.extractOCR options then [ocrPrompt] else [])
   ++ (if GeminiOptions.detectObjects options then [objectPrompt] else [])
   ++ (if GeminiOptions.detectObjects options || GeminiOptions.analyzeDesign options
       then [descPrompt] else [])
   ++ (if GeminiOptions.analyzeUI options then [uiPrompt] else [])
   ++ (if GeminiOptions.analyzeDesign options then [designPrompt] else []))%list.

(** The requests these prompts make for a file read as [base64Data]. *)
Definition requests_for (file : File) (base64Data : option string)
    (options : GeminiOptions.t) : list request :=
  map (fun p => {| request_prompt := p;
                   inlineData_data := base64Data;
                   inlineData_mimeType := file_type file |})
      (prompts_for options).

(** The message the [catch] clause of [analyzeImageWithGemini] reads off
    what was thrown. *)
Definition message_of (reason : thrown) : string :=
  match reason with
  | Error message => message
  | NotAnError => "Unknown error"
  end.

(** ** An example run

    An engine, a file, the two-pixel image it decodes to (the second
    pixel is transparent), a large image, two models, and a state of the
    application with two options of the canvas and two options of the
    model on. *)

(** The argument limit of JavaScriptCore. *)
Definition example_limit : nat := Z.to_nat 65536.

Definition example_file : File :=
  {| file_name := "example.png"; file_size := 70; file_type := "image/png" |}.

Definition example_image : Image :=
  {| width := 2; height := 1;
     data := [10; 20; 30; 255; 200; 100; 50; 127]%Z |}.

(** A red image of 1920 by 1080 pixels. *)
Definition example_large_image : Image :=
  {| width := 1920; height := 1080;
     data := uniform_image (Z.to_nat (1920 * 1080)) 255 0 0 |}.

(** The data URL the reader returns for the file. *)
Definition example_url : string := "data:image/png;base64,iVBORw0KGgo=".

(** [{colorHarmony: 'N/A', typography: 'N/A', layout: 'N/A'}] *)
Definition example_not_available : json :=
  JObject [("colorHarmony", JString "N/A"); ("typography", JString "N/A");
           ("layout", JString "N/A")].

(** A model that answers every request with text that is not JSON. *)
Definition example_answers (i : nat) (r : request) : promise string :=
  Fulfilled "I cannot read this image.".

(** A model that rejects the second request. *)
Definition example_quota (i : nat) (r : request) : promise string :=
  if (i =? 1)%nat then Rejected (Error "quota exceeded")
  else Fulfilled "I cannot read this image.".

Definition example_state : App.state json :=
  {| App.selectedFile := Some example_file;
     App.imageUrl := Some "blob:example";
     App.apiKey := "example-key";
     App.isProcessing := false;
     App.result := None;
     App.error := None;
     App.options :=
       {| ProcessingOptions.basicInfo := true;
          ProcessingOptions.colors := true;
          ProcessingOptions.base64 := false;
          ProcessingOptions.statistics := false;
          ProcessingOptions.aiOcr := true;
          ProcessingOptions.aiObjects := true;
          ProcessingOptions.aiUI := false;
          ProcessingOptions.aiDesign := false |} |}.

(** The same state before a key is typed. *)
Definition example_state_without_key : App.state json :=
  {| App.selectedFile := App.selectedFile example_state;
     App.imageUrl := App.imageUrl example_state;
     App.apiKey := "";
     App.isProcessing := false;
     App.result := None;
     App.error := None;
     App.options := App.options example_state |}.

(** [handleProcess] in the example: the example engine, a 2D context,
    the example image and the given answers of the model. *)
Definition example_run (answers : nat → request → promise string)
    (s : App.state json) : App.state json * list request :=
  App.handleProcess json json_parse (JArray []) example_not_available
    (fun _ => Some example_url) answers example_limit true
    (fun _ => Some example_image) (fun _ => example_url)
    "2025-12-18T14:30:00.000Z" s.

(** * Properties *)

Local Open Scope list_scope.
Local Open Scope Z_scope.

(** ** Rounding to binary64 *)

(** *** Powers of two *)

Lemma pow2_pos (k : Z) : (0 < 2 ^ k)%Q.
Proof. apply Qpower_0_lt. reflexivity. Qed.

Lemma pow2_add (a b : Z) : (2 ^ (a + b) == 2 ^ a * 2 ^ b)%Q.
Proof. apply Qpower_plus. discriminate. Qed.

Lemma pow2_le (a b : Z) : a <= b -> (2 ^ a <= 2 ^ b)%Q.
Proof. intros H. apply Qpower_le_compat_l; [exact H|discriminate]. Qed.

Lemma pow2_lt (a b : Z) : a < b -> (2 ^ a < 2 ^ b)%Q.
Proof. intros H. apply Qpower_lt_compat_l; [exact H|reflexivity]. Qed.

Lemma pow2_lt_inv (a b : Z) : (2 ^ a < 2 ^ b)%Q -> a < b.
Proof. intros H. eapply Qpower_lt_compat_l_inv; [exact H|reflexivity]. Qed.

Lemma pow2_Z (k : Z) : 0 <= k -> (inject_Z (2 ^ k) == 2 ^ k)%Q.
Proof. intros H. now rewrite Zpower_Qpower. Qed.

Lemma pow2_cancel (a : Z) : (2 ^ a * 2 ^ (- a) == 1)%Q.
Proof. rewrite <- pow2_add. now replace (a + - a) with 0 by lia. Qed.

Lemma pow2_split (a b : Z) : (2 ^ b == 2 ^ a * 2 ^ (b - a))%Q.
Proof. rewrite <- pow2_add. now replace (a + (b - a)) with b by lia. Qed.

(** *** The binade of a positive rational *)

Lemma ilog2_spec (a : Q) :
  (0 < a)%Q -> (2 ^ ilog2 a <= a)%Q /\ (a < 2 ^ (ilog2 a + 1))%Q.
Proof.
  intros Ha. destruct a as [p q].
  assert (0 < p) as Hp by (unfold Qlt in Ha; simpl in Ha; lia).
  unfold ilog2. cbn [Qnum Qden].
  set (lp := Z.log2 p). set (lq := Z.log2 (Z.pos q)).
  destruct (Z.log2_spec p Hp) as [Hp1 Hp2].
  destruct (Z.log2_spec (Z.pos q) eq_refl) as [Hq1 Hq2].
  fold lp in Hp1, Hp2. fold lq in Hq1, Hq2.
  assert (0 <= lp) as Hlp by apply Z.log2_nonneg.
  assert (0 <= lq) as Hlq by apply Z.log2_nonneg.
  assert (inject_Z (2 ^ lp) <= inject_Z p)%Q as Hp1' by now rewrite <- Zle_Qle.
  assert (inject_Z p < inject_Z (2 ^ Z.succ lp))%Q as Hp2' by now rewrite <- Zlt_Qlt.
  assert (inject_Z (2 ^ lq) <= inject_Z (Z.pos q))%Q as Hq1' by now rewrite <- Zle_Qle.
  assert (inject_Z (Z.pos q) < inject_Z (2 ^ Z.succ lq))%Q as Hq2' by now rewrite <- Zlt_Qlt.
  rewrite pow2_Z in Hp1', Hp2', Hq1', Hq2' by lia.
  assert (0 < inject_Z (Z.pos q))%Q as Hqpos by reflexivity.
  assert (p # q == inject_Z p / inject_Z (Z.pos q))%Q as Hpq by apply Qmake_Qdiv.
  (* a is strictly between 2^(lp-lq-1) and 2^(lp-lq+1) *)
  assert (2 ^ (lp - lq - 1) <= p # q)%Q as Hlow.
  { rewrite Hpq. apply Qle_shift_div_l; [exact Hqpos|].
    apply Qle_trans with (2 ^ (lp - lq - 1) * 2 ^ Z.succ lq)%Q.
    - apply Qmult_le_l; [apply pow2_pos|]. now apply Qlt_le_weak.
    - rewrite <- pow2_add. replace (lp - lq - 1 + Z.succ lq) with lp by lia.
      exact Hp1'. }
  assert (p # q < 2 ^ (lp - lq + 1))%Q as Hhigh.
  { rewrite Hpq. apply Qlt_shift_div_r; [exact Hqpos|].
    apply Qlt_le_trans with (2 ^ Z.succ lp)%Q; [exact Hp2'|].
    apply Qle_trans with (2 ^ (lp - lq + 1) * 2 ^ lq)%Q.
    - rewrite <- pow2_add. replace (lp - lq + 1 + lq) with (Z.succ lp) by lia.
      apply Qle_refl.
    - apply Qmult_le_l; [apply pow2_pos|]. exact Hq1'. }
  destruct (Qle_bool (2 ^ (lp - lq)) (p # q)) eqn:Hcmp.
  - apply Qle_bool_iff in Hcmp. split; [exact Hcmp|exact Hhigh].
  - split; [exact Hlow|].
    replace (lp - lq - 1 + 1) with (lp - lq) by lia.
    apply Qnot_le_lt. intros H. apply Qle_bool_iff in H. congruence.
Qed.

(** The binade is determined by the value. *)
Lemma ilog2_unique (a : Q) (e : Z) :
  (2 ^ e <= a)%Q -> (a < 2 ^ (e + 1))%Q -> ilog2 a = e.
Proof.
  intros H1 H2.
  assert (0 < a)%Q as Ha by (eapply Qlt_le_trans; [apply pow2_pos|exact H1]).
  destruct (ilog2_spec a Ha) as [H3 H4].
  assert (ilog2 a < e + 1).
  { apply pow2_lt_inv. eapply Qle_lt_trans; [exact H3|exact H2]. }
  assert (e < ilog2 a + 1).
  { apply pow2_lt_inv. eapply Qle_lt_trans; [exact H1|exact H4]. }
  lia.
Qed.

Lemma ilog2_mono (a b : Q) : (0 < a)%Q -> (a <= b)%Q -> ilog2 a <= ilog2 b.
Proof.
  intros Ha Hab.
  assert (0 < b)%Q as Hb by (eapply Qlt_le_trans; eauto).
  destruct (ilog2_spec a Ha) as [H1 _]. destruct (ilog2_spec b Hb) as [_ H2].
  assert (ilog2 a < ilog2 b + 1); [|lia].
  apply pow2_lt_inv. eapply Qle_lt_trans; [exact H1|].
  eapply Qle_lt_trans; [exact Hab|exact H2].
Qed.

(** *** Rounding to an integer *)

Lemma round_half_even_error (x : Q) :
  (x - (1 # 2) <= inject_Z (round_half_even x) <= x + (1 # 2))%Q.
Proof.
  unfold round_half_even.
  pose proof (Qfloor_le x) as Hlo. pose proof (Qlt_floor x) as Hhi.
  rewrite inject_Z_plus in Hhi. change (inject_Z 1) with 1%Q in Hhi.
  destruct (Qcompare_spec (x - inject_Z (Qfloor x)) (1 # 2)) as [Heq|Hlt|Hgt].
  - destruct (Z.even (Qfloor x)).
    + split; lra.
    + rewrite inject_Z_plus. change (inject_Z 1) with 1%Q. split; lra.
  - split; lra.
  - rewrite inject_Z_plus. change (inject_Z 1) with 1%Q. split; lra.
Qed.

Lemma round_half_even_Z (z : Z) : round_half_even (inject_Z z) = z.
Proof.
  unfold round_half_even. rewrite Qfloor_Z.
  destruct (Qcompare_spec (inject_Z z - inject_Z z) (1 # 2)) as [H|H|H];
    [exfalso; lra | reflexivity | exfalso; lra].
Qed.

Lemma round_half_even_bounds (x : Q) :
  Qfloor x <= round_half_even x <= Qfloor x + 1.
Proof.
  unfold round_half_even.
  destruct (_ ?= _)%Q; [destruct (Z.even _)| |]; lia.
Qed.

Lemma round_half_even_mono (x y : Q) :
  (x <= y)%Q -> round_half_even x <= round_half_even y.
Proof.
  intros Hxy. pose proof (Qfloor_resp_le x y Hxy) as Hf.
  destruct (Z.eq_dec (Qfloor x) (Qfloor y)) as [Heq|Hne].
  - unfold round_half_even. rewrite <- Heq.
    destruct (Qcompare_spec (x - inject_Z (Qfloor x)) (1 # 2)) as [H1|H1|H1];
    destruct (Qcompare_spec (y - inject_Z (Qfloor x)) (1 # 2)) as [H2|H2|H2];
      try destruct (Z.even (Qfloor x)); try lia; exfalso; lra.
  - pose proof (round_half_even_bounds x). pose proof (round_half_even_bounds y). lia.
Qed.

(** *** Rounding a positive rational to 53 bits *)

Lemma scaled_back (a : Q) (e : Z) : (a * 2 ^ (52 - e) * 2 ^ (e - 52) == a)%Q.
Proof.
  rewrite <- Qmult_assoc, <- pow2_add.
  replace (52 - e + (e - 52)) with 0 by lia. change (2 ^ 0)%Q with 1%Q. ring.
Qed.

Lemma scaled_range (a : Q) :
  (0 < a)%Q ->
  (inject_Z (2 ^ 52) <= a * 2 ^ (52 - ilog2 a))%Q
  /\ (a * 2 ^ (52 - ilog2 a) <= inject_Z (2 ^ 53))%Q.
Proof.
  intros Ha. destruct (ilog2_spec a Ha) as [H1 H2].
  rewrite !pow2_Z by lia. split.
  - rewrite (pow2_split (ilog2 a) 52).
    apply Qmult_le_compat_r; [exact H1|]. apply Qlt_le_weak, pow2_pos.
  - rewrite (pow2_split (ilog2 a + 1) 53).
    replace (53 - (ilog2 a + 1)) with (52 - ilog2 a) by lia.
    apply Qmult_le_compat_r; [now apply Qlt_le_weak|]. apply Qlt_le_weak, pow2_pos.
Qed.

Lemma significand_range (a : Q) :
  (0 < a)%Q ->
  2 ^ 52 <= round_half_even (a * 2 ^ (52 - ilog2 a)) <= 2 ^ 53.
Proof.
  intros Ha. destruct (scaled_range a Ha) as [H1 H2].
  apply round_half_even_mono in H1, H2.
  rewrite round_half_even_Z in H1, H2. lia.
Qed.

(** The result stays in the binade of the argument. *)
Lemma round_pos_binade (a : Q) :
  (0 < a)%Q ->
  (2 ^ ilog2 a <= round_pos a)%Q /\ (round_pos a <= 2 ^ (ilog2 a + 1))%Q.
Proof.
  intros Ha. destruct (significand_range a Ha) as [H1 H2].
  unfold round_pos. set (m := round_half_even _) in *.
  rewrite Zle_Qle in H1, H2. rewrite !pow2_Z in H1, H2 by lia.
  split.
  - rewrite (pow2_split 52 (ilog2 a)).
    apply Qmult_le_compat_r; [exact H1|]. apply Qlt_le_weak, pow2_pos.
  - rewrite (pow2_split 53 (ilog2 a + 1)).
    replace (ilog2 a + 1 - 53) with (ilog2 a - 52) by lia.
    apply Qmult_le_compat_r; [exact H2|]. apply Qlt_le_weak, pow2_pos.
Qed.

Lemma round_pos_pos (a : Q) : (0 < a)%Q -> (0 < round_pos a)%Q.
Proof.
  intros Ha. eapply Qlt_le_trans; [apply (pow2_pos (ilog2 a))|].
  now apply round_pos_binade.
Qed.

(** The relative error is at most 2^-53. *)
Lemma round_pos_error (a : Q) :
  (0 < a)%Q ->
  (a * (1 - unit_roundoff) <= round_pos a)%Q /\ (round_pos a <= a * (1 + unit_roundoff))%Q.
Proof.
  intros Ha. destruct (ilog2_spec a Ha) as [Hlo _].
  unfold round_pos. set (e := ilog2 a) in *.
  pose proof (round_half_even_error (a * 2 ^ (52 - e))) as [H1 H2].
  set (m := inject_Z (round_half_even (a * 2 ^ (52 - e)))) in *.
  pose proof (pow2_pos (e - 52)) as HP.
  assert (2 ^ (e - 52) <= a * (1 # 4503599627370496))%Q as Hulp.
  { rewrite (pow2_split e (e - 52)). replace (e - 52 - e) with (-52) by lia.
    apply Qmult_le_compat_r; [exact Hlo|]. discriminate. }
  pose proof (scaled_back a e) as Hback.
  apply (Qmult_le_compat_r _ _ (2 ^ (e - 52))) in H1; [|now apply Qlt_le_weak].
  apply (Qmult_le_compat_r _ _ (2 ^ (e - 52))) in H2; [|now apply Qlt_le_weak].
  set (P := (2 ^ (e - 52))%Q) in *. set (S := (a * 2 ^ (52 - e))%Q) in *.
  assert ((S - (1 # 2)) * P == a - (1 # 2) * P)%Q as E1 by (rewrite <- Hback; ring).
  assert ((S + (1 # 2)) * P == a + (1 # 2) * P)%Q as E2 by (rewrite <- Hback; ring).
  rewrite E1 in H1. rewrite E2 in H2. unfold unit_roundoff.
  generalize dependent (m * P)%Q. intros mP H1 H2. split; lra.
Qed.

Lemma round_pos_mono (a b : Q) :
  (0 < a)%Q -> (a <= b)%Q -> (round_pos a <= round_pos b)%Q.
Proof.
  intros Ha Hab.
  assert (0 < b)%Q as Hb by (eapply Qlt_le_trans; eauto).
  pose proof (ilog2_mono a b Ha Hab) as He.
  destruct (Z.eq_dec (ilog2 a) (ilog2 b)) as [Heq|Hne].
  - unfold round_pos. rewrite Heq.
    apply Qmult_le_compat_r; [|apply Qlt_le_weak, pow2_pos].
    rewrite <- Zle_Qle. apply round_half_even_mono.
    apply Qmult_le_compat_r; [exact Hab|]. apply Qlt_le_weak, pow2_pos.
  - destruct (round_pos_binade a Ha) as [_ H1].
    destruct (round_pos_binade b Hb) as [H2 _].
    eapply Qle_trans; [exact H1|]. eapply Qle_trans; [|exact H2].
    apply pow2_le. lia.
Qed.

Lemma round_pos_comp (a b : Q) :
  (0 < a)%Q -> (a == b)%Q -> (round_pos a == round_pos b)%Q.
Proof.
  intros Ha Hab. assert (0 < b)%Q as Hb by now rewrite <- Hab.
  apply Qle_antisym; apply round_pos_mono; try assumption; rewrite Hab; apply Qle_refl.
Qed.

(** A value that already has a 53-bit significand is not changed. *)
Lemma round_pos_exact (a : Q) (k : Z) :
  (0 < a)%Q -> (a * 2 ^ (52 - ilog2 a) == inject_Z k)%Q -> (round_pos a == a)%Q.
Proof.
  intros Ha Hk. unfold round_pos.
  assert (round_half_even (a * 2 ^ (52 - ilog2 a)) = k) as ->.
  { apply Z.le_antisymm.
    - rewrite <- (round_half_even_Z k). apply round_half_even_mono.
      rewrite Hk. apply Qle_refl.
    - rewrite <- (round_half_even_Z k) at 1. apply round_half_even_mono.
      rewrite Hk. apply Qle_refl. }
  rewrite <- Hk. apply scaled_back.
Qed.

Lemma ilog2_Z (z : Z) : 0 < z -> ilog2 (inject_Z z) = Z.log2 z.
Proof.
  intros Hz. destruct (Z.log2_spec z Hz) as [H1 H2].
  apply ilog2_unique.
  - rewrite <- pow2_Z by apply Z.log2_nonneg. now rewrite <- Zle_Qle.
  - rewrite <- pow2_Z by (pose proof (Z.log2_nonneg z); lia).
    rewrite <- Zlt_Qlt. now replace (Z.log2 z + 1) with (Z.succ (Z.log2 z)) by lia.
Qed.

Lemma round_pos_Z (z : Z) :
  0 < z < 2 ^ 53 -> (round_pos (inject_Z z) == inject_Z z)%Q.
Proof.
  intros [Hz Hlt].
  assert (0 < inject_Z z)%Q as Hq by (change 0%Q with (inject_Z 0); now rewrite <- Zlt_Qlt).
  assert (Z.log2 z < 53) as Hlog by (apply Z.log2_lt_pow2; lia).
  pose proof (Z.log2_nonneg z) as Hnn.
  apply (round_pos_exact _ (z * 2 ^ (52 - Z.log2 z))); [exact Hq|].
  rewrite ilog2_Z by exact Hz.
  rewrite inject_Z_mult, pow2_Z by lia. reflexivity.
Qed.

(** *** [binary64] *)

Lemma binary64_comp (x y : Q) : (x == y)%Q -> binary64 x = binary64 y.
Proof. intros H. unfold binary64. now rewrite (Qred_complete x y H). Qed.

Lemma Qnum_sign (x : Q) :
  match Qnum x with
  | 0 => (x == 0)%Q
  | Z.pos _ => (0 < x)%Q
  | Z.neg _ => (x < 0)%Q
  end.
Proof. destruct x as [[|p|p] q]; unfold Qeq, Qlt; simpl; lia. Qed.

Lemma binary64_zero (x : Q) : (x == 0)%Q -> binary64 x = 0%Q.
Proof. intros H. now rewrite (binary64_comp x 0 H). Qed.

Lemma binary64_pos (x : Q) : (0 < x)%Q -> (binary64 x == round_pos x)%Q.
Proof.
  intros Hx. unfold binary64. pose proof (Qred_correct x) as Hr.
  pose proof (Qnum_sign (Qred x)) as Hs.
  destruct (Qnum (Qred x)); rewrite Hr in Hs.
  - exfalso. lra.
  - rewrite Qred_correct. apply round_pos_comp; [now rewrite Hr|exact Hr].
  - exfalso. lra.
Qed.

Lemma binary64_neg (x : Q) : (x < 0)%Q -> (binary64 x == - round_pos (- x))%Q.
Proof.
  intros Hx. unfold binary64. pose proof (Qred_correct x) as Hr.
  pose proof (Qnum_sign (Qred x)) as Hs.
  destruct (Qnum (Qred x)); rewrite Hr in Hs.
  - exfalso. lra.
  - exfalso. lra.
  - rewrite Qred_correct. apply Qopp_comp.
    apply round_pos_comp; [rewrite Hr; lra | now rewrite Hr].
Qed.

Lemma binary64_opp (x : Q) : (binary64 (- x) == - binary64 x)%Q.
Proof.
  destruct (Q_dec x 0) as [[Hx|Hx]|Hx].
  - rewrite (binary64_neg x Hx), binary64_pos by lra. ring.
  - rewrite (binary64_pos x Hx), binary64_neg by lra.
    apply Qopp_comp, round_pos_comp; [lra | ring].
  - rewrite (binary64_zero x Hx), binary64_zero; [reflexivity | rewrite Hx; reflexivity].
Qed.

(** The sign is kept. *)
Lemma binary64_sign_pos (x : Q) : (0 < x)%Q -> (0 < binary64 x)%Q.
Proof. intros Hx. rewrite binary64_pos by exact Hx. now apply round_pos_pos. Qed.

Lemma binary64_sign_neg (x : Q) : (x < 0)%Q -> (binary64 x < 0)%Q.
Proof.
  intros Hx. rewrite binary64_neg by exact Hx.
  assert (0 < round_pos (- x))%Q by (apply round_pos_pos; lra). lra.
Qed.

Lemma binary64_nonneg (x : Q) : (0 <= x)%Q -> (0 <= binary64 x)%Q.
Proof.
  intros Hx. destruct (Qle_lt_or_eq _ _ Hx) as [H|H].
  - now apply Qlt_le_weak, binary64_sign_pos.
  - rewrite binary64_zero; [apply Qle_refl | now symmetry].
Qed.

Lemma binary64_le_0 (x : Q) : (binary64 x <= 0)%Q <-> (x <= 0)%Q.
Proof.
  split; intros H.
  - apply Qnot_lt_le. intros Hx. apply binary64_sign_pos in Hx. lra.
  - destruct (Qle_lt_or_eq _ _ H) as [Hx|Hx].
    + now apply Qlt_le_weak, binary64_sign_neg.
    + rewrite binary64_zero by exact Hx. apply Qle_refl.
Qed.

Lemma binary64_mono (x y : Q) : (x <= y)%Q -> (binary64 x <= binary64 y)%Q.
Proof.
  intros Hxy.
  destruct (Q_dec x 0) as [[Hx|Hx]|Hx], (Q_dec y 0) as [[Hy|Hy]|Hy];
    try (exfalso; lra).
  - rewrite (binary64_neg x Hx), (binary64_neg y Hy).
    apply Qopp_le_compat. apply round_pos_mono; lra.
  - apply Qlt_le_weak. eapply Qlt_trans;
      [now apply binary64_sign_neg | now apply binary64_sign_pos].
  - rewrite (binary64_zero y Hy). now apply Qlt_le_weak, binary64_sign_neg.
  - rewrite (binary64_pos x Hx), (binary64_pos y Hy). now apply round_pos_mono.
  - rewrite (binary64_zero x Hx). now apply Qlt_le_weak, binary64_sign_pos.
  - rewrite (binary64_zero x Hx), (binary64_zero y Hy). apply Qle_refl.
Qed.

(** The relative error is at most 2^-53. *)
Lemma binary64_error_nonneg (x : Q) :
  (0 <= x)%Q ->
  (x * (1 - unit_roundoff) <= binary64 x)%Q /\ (binary64 x <= x * (1 + unit_roundoff))%Q.
Proof.
  intros Hx. destruct (Qle_lt_or_eq _ _ Hx) as [H|H].
  - rewrite (binary64_pos x H). now apply round_pos_error.
  - rewrite binary64_zero by now symmetry. rewrite <- H. split; lra.
Qed.

Lemma binary64_error (x : Q) :
  (Qabs (binary64 x - x) <= unit_roundoff * Qabs x)%Q.
Proof.
  destruct (Qlt_le_dec x 0) as [Hx|Hx].
  - rewrite (Qabs_neg x) by lra.
    pose proof (binary64_opp x) as Ho.
    destruct (binary64_error_nonneg (- x)) as [H1 H2]; [lra|].
    rewrite Ho in H1, H2. apply Qabs_Qle_condition. unfold unit_roundoff in *.
    generalize dependent (binary64 x). intros; split; lra.
  - rewrite (Qabs_pos x) by exact Hx.
    destruct (binary64_error_nonneg x Hx) as [H1 H2].
    apply Qabs_Qle_condition. unfold unit_roundoff in *. split; lra.
Qed.

(** Integers below 2^53 are doubles. *)
Lemma binary64_Z (z : Z) : Z.abs z < 2 ^ 53 -> binary64 (inject_Z z) = inject_Z z.
Proof.
  intros Hz.
  assert (binary64 (inject_Z z) == inject_Z z)%Q as Heq.
  { destruct (Z.lt_trichotomy z 0) as [Hneg|[->|Hpos]].
    - rewrite binary64_neg by (change 0%Q with (inject_Z 0); now rewrite <- Zlt_Qlt).
      rewrite <- inject_Z_opp, round_pos_Z by lia.
      rewrite inject_Z_opp. ring.
    - reflexivity.
    - rewrite binary64_pos by (change 0%Q with (inject_Z 0); now rewrite <- Zlt_Qlt).
      apply round_pos_Z. lia. }
  assert (binary64 (inject_Z z) = Qred (binary64 (inject_Z z))) as Hred.
  { unfold binary64. destruct (Qnum (Qred (inject_Z z)));
      [reflexivity | now rewrite Qred_involutive | now rewrite Qred_involutive]. }
  rewrite Hred, (Qred_complete _ _ Heq).
  apply Qred_identity. simpl. apply Z.gcd_1_r.
Qed.
(** ** The sort *)


Section ArraySortFacts.
Context {A : Type}.
Variable compareFn : A → A → number.

Lemma sort_insert_Permutation (x : A) (l : list A) :
  sort_insert compareFn x l ≡ₚ x :: l.
Proof.
  induction l as [|y l IH]; simpl; [done|].
  destruct (keeps_order compareFn x y); [done|].
  rewrite IH. apply Permutation_swap.
Qed.

Lemma Array_sort_Permutation (l : list A) : Array_sort compareFn l ≡ₚ l.
Proof.
  induction l as [|x l IH]; simpl; [done|].
  by rewrite sort_insert_Permutation, IH.
Qed.

Lemma Array_sort_length (l : list A) :
  length (Array_sort compareFn l) = length l.
Proof. apply Permutation_length, Array_sort_Permutation. Qed.

(** A comparator that orders any two elements one way or the other. *)
Hypothesis compareFn_total :
  ∀ a b, keeps_order compareFn a b = false → keeps_order compareFn b a = true.

Lemma sort_insert_Sorted (x : A) (l : list A) :
  Sorted (fun a b => keeps_order compareFn a b = true) l →
  Sorted (fun a b => keeps_order compareFn a b = true) (sort_insert compareFn x l).
Proof.
  induction 1 as [|y l Hl IH Hhd]; simpl.
  - by repeat constructor.
  - destruct (keeps_order compareFn x y) eqn:Hxy.
    + by repeat constructor.
    + constructor; [done|].
      destruct Hhd as [|z l Hyz]; simpl.
      * constructor. by apply compareFn_total.
      * destruct (keeps_order compareFn x z); constructor;
          [by apply compareFn_total | done].
Qed.

Lemma Array_sort_Sorted (l : list A) :
  Sorted (fun a b => keeps_order compareFn a b = true) (Array_sort compareFn l).
Proof.
  induction l as [|x l IH]; simpl; [constructor|].
  by apply sort_insert_Sorted.
Qed.
End ArraySortFacts.

(** *** Sorting by an integer key: [(a, b) => key(a) - key(b)] *)

Section SortByKey.
Context {A : Type}.
Variable key : A → Z.





End SortByKey.

(** ** The quantiser *)

(** *** Spread calls *)

Lemma fold_left_max_spec (vs : list Z) (v : Z) :
  fold_left Z.max vs v ∈ v :: vs ∧ Forall (fun x => x <= fold_left Z.max vs v) (v :: vs).
Proof.
  revert v. induction vs as [|w vs IH]; intros v; simpl.
  - split; [by apply elem_of_cons; left|]. repeat constructor. lia.
  - destruct (IH (Z.max v w)) as [Hin Hall]. split.
    + rewrite !elem_of_cons. apply elem_of_cons in Hin as [->|Hin]; [|auto].
      destruct (Z.max_spec v w) as [[_ ->]|[_ ->]]; auto.
    + apply Forall_cons in Hall as [Hm Hall].
      repeat constructor; [lia|lia|done].
Qed.

Lemma fold_left_min_spec (vs : list Z) (v : Z) :
  fold_left Z.min vs v ∈ v :: vs ∧ Forall (fun x => fold_left Z.min vs v <= x) (v :: vs).
Proof.
  revert v. induction vs as [|w vs IH]; intros v; simpl.
  - split; [by apply elem_of_cons; left|]. repeat constructor. lia.
  - destruct (IH (Z.min v w)) as [Hin Hall]. split.
    + rewrite !elem_of_cons. apply elem_of_cons in Hin as [->|Hin]; [|auto].
      destruct (Z.min_spec v w) as [[_ ->]|[_ ->]]; auto.
    + apply Forall_cons in Hall as [Hm Hall].
      repeat constructor; [lia|lia|done].
Qed.

(** Within the argument limit the call returns the largest value. *)
Lemma Math_max_returns (argument_limit : nat) (values : list Z) :
  (length values ≤ argument_limit)%nat →
  ∃ m : Z,
    Math_max argument_limit values = Returns m
    ∧ (values ≠ [] → m ∈ values ∧ Forall (fun x => x <= m) values).
Proof.
  intros Hlen. unfold Math_max.
  replace (length values <=? argument_limit)%nat with true
    by (symmetry; by apply Nat.leb_le).
  eexists. split; [done|]. destruct values; [done|]. intros _.
  apply fold_left_max_spec.
Qed.

Lemma Math_min_returns (argument_limit : nat) (values : list Z) :
  (length values ≤ argument_limit)%nat →
  ∃ m : Z,
    Math_min argument_limit values = Returns m
    ∧ (values ≠ [] → m ∈ values ∧ Forall (fun x => m <= x) values).
Proof.
  intros Hlen. unfold Math_min.
  replace (length values <=? argument_limit)%nat with true
    by (symmetry; by apply Nat.leb_le).
  eexists. split; [done|]. destruct values; [done|]. intros _.
  apply fold_left_min_spec.
Qed.

(** Past the limit it throws. *)
Lemma Math_max_throws (argument_limit : nat) (values : list Z) :
  (argument_limit < length values)%nat →
  Math_max argument_limit values = RangeError.
Proof.
  intros Hlen. unfold Math_max.
  by replace (length values <=? argument_limit)%nat with false
    by (symmetry; by apply Nat.leb_gt).
Qed.

(** The range the source computes is the largest value minus the
    smallest. *)
Lemma channel_range_returns (argument_limit : nat) (colors : list rgb) (channel : nat) :
  (length colors ≤ argument_limit)%nat →
  ∃ v : Z,
    channel_range argument_limit colors channel = Returns v
    ∧ (colors ≠ [] → is_range channel colors v).
Proof.
  intros Hlen. unfold channel_range. cbv zeta.
  destruct (Math_max_returns argument_limit (map (chan channel) colors))
    as (hi & -> & Hhi); [by rewrite length_map|].
  destruct (Math_min_returns argument_limit (map (chan channel) colors))
    as (lo & -> & Hlo); [by rewrite length_map|].
  eexists. split; [done|]. intros Hne.
  assert (map (chan channel) colors ≠ []) as Hne' by by destruct colors.
  destruct (Hhi Hne') as [Hmax Hle]. destruct (Hlo Hne') as [Hmin Hge].
  apply list_elem_of_fmap in Hmax as (chi & Hchi & Hhi_in).
  apply list_elem_of_fmap in Hmin as (clo & Hclo & Hlo_in).
  exists chi, clo. repeat split; [done|done|congruence| |].
  - rewrite <- Hclo. rewrite Forall_forall in Hge. apply Hge.
    apply list_elem_of_fmap. eauto.
  - rewrite <- Hchi. rewrite Forall_forall in Hle. apply Hle.
    apply list_elem_of_fmap. eauto.
Qed.

Lemma channel_range_throws (argument_limit : nat) (colors : list rgb) (channel : nat) :
  (argument_limit < length colors)%nat →
  channel_range argument_limit colors channel = RangeError.
Proof.
  intros Hlen. unfold channel_range. cbv zeta.
  rewrite Math_max_throws by (by rewrite length_map). reflexivity.
Qed.

Lemma indexOf_spec (l : list Z) (m : Z) :
  m ∈ l →
  l !! indexOf l m = Some m ∧ ∀ j v, (j < indexOf l m)%nat → l !! j = Some v → v ≠ m.
Proof.
  induction l as [|w l IH]; [by intros ?%elem_of_nil|].
  intros Hin. simpl. destruct (w =? m) eqn:Hw.
  - apply Z.eqb_eq in Hw as ->. split; [done|]. intros; lia.
  - apply Z.eqb_neq in Hw.
    apply elem_of_cons in Hin as [->|Hin]; [done|].
    destruct (IH Hin) as [Hat Hbefore]. split; [done|].
    intros [|j] v Hj; simpl; [congruence|]. apply Hbefore. lia.
Qed.

(** The split axis: the first channel of largest range. *)
Lemma maxChannel_returns (argument_limit : nat) (colors : list rgb) :
  (3 ≤ argument_limit)%nat → (length colors ≤ argument_limit)%nat →
  ∃ (axis : nat) (range : nat → Z),
    maxChannel argument_limit colors = Returns axis
    ∧ (∀ k, (k < 3)%nat → channel_range argument_limit colors k = Returns (range k))
    ∧ (axis < 3)%nat
    ∧ (∀ k, (k < 3)%nat → range k <= range axis)
    ∧ (∀ k, (k < axis)%nat → range k < range axis).
Proof.
  intros H3 Hlen.
  destruct (channel_range_returns argument_limit colors 0 Hlen) as (r0 & H0 & _).
  destruct (channel_range_returns argument_limit colors 1 Hlen) as (r1 & H1 & _).
  destruct (channel_range_returns argument_limit colors 2 Hlen) as (r2 & H2 & _).
  set (range := fun k : nat => match k with O => r0 | S O => r1 | _ => r2 end).
  assert (ranges argument_limit colors = Returns [r0; r1; r2]) as Hranges.
  { unfold ranges. cbn [mapM]. by rewrite H0, H1, H2. }
  destruct (Math_max_returns argument_limit [r0; r1; r2]) as (m & Hm & Hspec);
    [simpl; lia|].
  destruct Hspec as [Hin Hle]; [done|].
  destruct (indexOf_spec _ _ Hin) as [Hat Hbefore].
  exists (indexOf [r0; r1; r2] m), range.
  assert (∀ k, (k < 3)%nat → [r0; r1; r2] !! k = Some (range k)) as Hlookup.
  { intros k Hk. by destruct k as [|[|[|k]]]; [| | |lia]. }
  assert (indexOf [r0; r1; r2] m < 3)%nat as Haxis.
  { apply lookup_lt_Some in Hat. by simpl in Hat. }
  rewrite Hlookup in Hat by done. apply (inj Some) in Hat.
  rewrite Forall_forall in Hle.
  assert (∀ k, (k < 3)%nat → range k <= m) as Hall.
  { intros k Hk. apply Hle, list_elem_of_lookup. exists k. by apply Hlookup. }
  split; [|split; [|split; [done|split]]].
  - unfold maxChannel. rewrite Hranges. cbn [mbind outcome_mbind].
    by rewrite Hm.
  - intros k Hk. by destruct k as [|[|[|k]]]; [| | |lia].
  - intros k Hk. rewrite Hat. by apply Hall.
  - intros k Hk. rewrite Hat.
    assert (range k ≠ m).
    { apply (Hbefore k); [done|]. apply Hlookup. lia. }
    specialize (Hall k). lia.
Qed.

Lemma maxChannel_throws (argument_limit : nat) (colors : list rgb) :
  (argument_limit < length colors)%nat ∨ (argument_limit < 3)%nat →
  maxChannel argument_limit colors = RangeError.
Proof.
  intros Hover. unfold maxChannel, ranges. cbn [mapM].
  destruct (Nat.le_gt_cases (length colors) argument_limit) as [Hlen|Hlen].
  - destruct Hover as [?|H3]; [lia|].
    destruct (channel_range_returns argument_limit colors 0 Hlen) as (r0 & -> & _).
    destruct (channel_range_returns argument_limit colors 1 Hlen) as (r1 & -> & _).
    destruct (channel_range_returns argument_limit colors 2 Hlen) as (r2 & -> & _).
    cbn [mbind outcome_mbind mret outcome_mret].
    rewrite Math_max_throws by (simpl; lia). reflexivity.
  - rewrite (channel_range_throws _ _ 0) by done. reflexivity.
Qed.

(** *** The recursion *)

Lemma sort_by_channel_length (channel : nat) (colors : list rgb) :
  length (sort_by_channel channel colors) = length colors.
Proof. apply Array_sort_length. Qed.

Lemma mid_sorted (channel : nat) (colors : list rgb) :
  mid (sort_by_channel channel colors) = (length colors / 2)%nat.
Proof. unfold mid. by rewrite sort_by_channel_length. Qed.

Lemma left_half_length (channel : nat) (colors : list rgb) :
  length (take (length colors / 2) (sort_by_channel channel colors))
  = (length colors / 2)%nat.
Proof.
  rewrite length_take, sort_by_channel_length.
  pose proof (Nat.Div0.div_le_upper_bound (length colors) 2 (length colors)).
  lia.
Qed.

Lemma right_half_length (channel : nat) (colors : list rgb) :
  length (drop (length colors / 2) (sort_by_channel channel colors))
  = (length colors - length colors / 2)%nat.
Proof. by rewrite length_drop, sort_by_channel_length. Qed.

Lemma halves_shorter (colors : list rgb) (depth : Z) :
  is_leaf colors depth = false →
  (0 < length colors / 2 < length colors)%nat
  ∧ (0 < length colors - length colors / 2 < length colors)%nat.
Proof.
  unfold is_leaf. rewrite orb_false_iff, Nat.leb_gt. intros [_ Hn].
  pose proof (Nat.div_mod_eq (length colors) 2).
  pose proof (Nat.mod_upper_bound (length colors) 2). lia.
Qed.

Lemma medianCut_fuel_S (argument_limit fuel : nat) (colors : list rgb) (depth : Z) :
  medianCut_fuel argument_limit (S fuel) colors depth =
  if is_leaf colors depth then Some (Returns [average colors])
  else
    match maxChannel argument_limit colors with
    | RangeError => Some RangeError
    | Returns axis =>
        let sorted := sort_by_channel axis colors in
        match medianCut_fuel argument_limit fuel
                (take (length colors / 2) sorted) (depth - 1) with
        | Some (Returns l) =>
            match medianCut_fuel argument_limit fuel
                    (drop (length colors / 2) sorted) (depth - 1) with
            | Some (Returns r) => Some (Returns (l ++ r))
            | stopped => stopped
            end
        | stopped => stopped
        end
    end.
Proof.
  cbn [medianCut_fuel]. destruct (is_leaf colors depth); [done|].
  destruct (maxChannel argument_limit colors) as [axis|]; [|done].
  cbv zeta. by rewrite mid_sorted.
Qed.

Lemma medianCut_fuel_mono (argument_limit fuel fuel' : nat) (colors : list rgb)
    (depth : Z) (result : outcome (list color)) :
  medianCut_fuel argument_limit fuel colors depth = Some result →
  (fuel ≤ fuel')%nat →
  medianCut_fuel argument_limit fuel' colors depth = Some result.
Proof.
  revert fuel' colors depth result.
  induction fuel as [|fuel IH]; intros fuel' colors depth result; [done|].
  intros Hrun Hle. destruct fuel' as [|fuel']; [lia|].
  rewrite medianCut_fuel_S in *. destruct (is_leaf colors depth); [done|].
  destruct (maxChannel argument_limit colors) as [axis|]; [|done].
  cbv zeta in *.
  destruct (medianCut_fuel argument_limit fuel (take _ _) (depth - 1))
    as [[l|]|] eqn:Hl; [| |done].
  - rewrite (IH fuel' _ _ _ Hl) by lia.
    destruct (medianCut_fuel argument_limit fuel (drop _ _) (depth - 1))
      as [[r|]|] eqn:Hr; [| |done].
    + by rewrite (IH fuel' _ _ _ Hr) by lia.
    + by rewrite (IH fuel' _ _ _ Hr) by lia.
  - by rewrite (IH fuel' _ _ _ Hl) by lia.
Qed.

(** Whatever the depth, one nested call per sample is enough. *)
Lemma medianCut_fuel_by_length (argument_limit fuel : nat) (colors : list rgb)
    (depth : Z) :
  (length colors < fuel)%nat →
  is_Some (medianCut_fuel argument_limit fuel colors depth).
Proof.
  revert colors depth.
  induction fuel as [|fuel IH]; intros colors depth Hlt; [lia|].
  rewrite medianCut_fuel_S. destruct (is_leaf colors depth) eqn:Hleaf; [by eexists|].
  destruct (maxChannel argument_limit colors) as [axis|]; [|by eexists].
  cbv zeta. destruct (halves_shorter _ _ Hleaf) as [Hl Hr].
  destruct (IH (take (length colors / 2) (sort_by_channel axis colors)) (depth - 1))
    as [l ->]; [rewrite left_half_length; lia|].
  destruct l as [l|]; [|by eexists].
  destruct (IH (drop (length colors / 2) (sort_by_channel axis colors)) (depth - 1))
    as [r ->]; [rewrite right_half_length; lia|].
  destruct r; by eexists.
Qed.


Lemma medianCut_fuel_medianCut (argument_limit fuel : nat) (colors : list rgb)
    (depth : Z) (result : outcome (list color)) :
  medianCut_fuel argument_limit fuel colors depth = Some result →
  medianCut argument_limit colors depth = result.
Proof.
  intros Hrun. unfold medianCut.
  destruct (medianCut_fuel_by_length argument_limit (S (length colors)) colors depth)
    as [p Hp]; [lia|].
  rewrite Hp. simpl.
  destruct (Nat.le_ge_cases fuel (S (length colors))) as [Hle|Hle].
  - rewrite (medianCut_fuel_mono _ _ _ _ _ _ Hrun Hle) in Hp. congruence.
  - rewrite (medianCut_fuel_mono _ _ _ _ _ _ Hp Hle) in Hrun. congruence.
Qed.

(** The body of [medianCut], as the source has it. *)
Lemma medianCut_unfold (argument_limit : nat) (colors : list rgb) (depth : Z) :
  medianCut argument_limit colors depth =
  if is_leaf colors depth then Returns [average colors]
  else
    axis ← maxChannel argument_limit colors;
    let sorted := sort_by_channel axis colors in
    l ← medianCut argument_limit (take (length colors / 2) sorted) (depth - 1);
    r ← medianCut argument_limit (drop (length colors / 2) sorted) (depth - 1);
    mret (l ++ r).
Proof.
  destruct (medianCut_fuel_by_length argument_limit (S (length colors)) colors depth)
    as [p Hp]; [lia|].
  rewrite (medianCut_fuel_medianCut _ _ _ _ _ Hp).
  rewrite medianCut_fuel_S in Hp. destruct (is_leaf colors depth); [by injection Hp|].
  destruct (maxChannel argument_limit colors) as [axis|]; [|by injection Hp].
  cbn [mbind outcome_mbind]. cbv zeta in *.
  destruct (medianCut_fuel _ _ (take _ _) _) as [[l|]|] eqn:Hl; [| |done].
  - rewrite (medianCut_fuel_medianCut _ _ _ _ _ Hl). cbn [mbind outcome_mbind].
    destruct (medianCut_fuel _ _ (drop _ _) _) as [[r|]|] eqn:Hr; [| |done].
    + rewrite (medianCut_fuel_medianCut _ _ _ _ _ Hr). by injection Hp.
    + rewrite (medianCut_fuel_medianCut _ _ _ _ _ Hr). by injection Hp.
  - rewrite (medianCut_fuel_medianCut _ _ _ _ _ Hl). by injection Hp.
Qed.

Lemma is_leaf_false (colors : list rgb) (depth : Z) :
  is_leaf colors depth = false ↔ depth ≠ 0 ∧ (1 < length colors)%nat.
Proof.
  unfold is_leaf. by rewrite orb_false_iff, Z.eqb_neq, Nat.leb_gt.
Qed.

(** A call whose spread calls the engine accepts returns a palette. *)
Lemma medianCut_returns (argument_limit : nat) (colors : list rgb) (depth : Z) :
  (3 ≤ argument_limit)%nat → (length colors ≤ argument_limit)%nat →
  ∃ palette : list color, medianCut argument_limit colors depth = Returns palette.
Proof.
  intros H3.
  assert (∀ (n : nat) (colors : list rgb) (depth : Z),
    (length colors ≤ n)%nat → (length colors ≤ argument_limit)%nat →
    ∃ palette : list color, medianCut argument_limit colors depth = Returns palette)
    as Hgen.
  { clear colors depth. induction n as [|n IH]; intros colors depth Hn Hlen.
    - rewrite medianCut_unfold. unfold is_leaf.
      replace (length colors <=? 1)%nat with true by (symmetry; apply Nat.leb_le; lia).
      rewrite orb_true_r. by eexists.
    - rewrite medianCut_unfold. destruct (is_leaf colors depth) eqn:Hleaf; [by eexists|].
      destruct (halves_shorter _ _ Hleaf) as [Hl Hr].
      destruct (maxChannel_returns argument_limit colors H3 Hlen)
        as (axis & range & -> & _).
      cbn [mbind outcome_mbind]. cbv zeta.
      destruct (IH (take (length colors / 2) (sort_by_channel axis colors)) (depth - 1))
        as [l ->]; [rewrite left_half_length; lia..|].
      destruct (IH (drop (length colors / 2) (sort_by_channel axis colors)) (depth - 1))
        as [r ->]; [rewrite right_half_length; lia..|].
      by eexists. }
  by apply (Hgen (length colors)).
Qed.

(** [medianCut] throws exactly when its first split is refused: the halves
    are smaller than the bucket. *)
Lemma medianCut_throws_iff (argument_limit : nat) (colors : list rgb) (depth : Z) :
  medianCut argument_limit colors depth = RangeError
  ↔ refused argument_limit colors depth.
Proof.
  unfold refused. rewrite medianCut_unfold.
  destruct (is_leaf colors depth) eqn:Hleaf.
  - split; [done|]. intros (Hd & Hn & _).
    assert (is_leaf colors depth = false) by (by apply is_leaf_false). congruence.
  - pose proof Hleaf as [Hd Hn]%is_leaf_false.
    destruct (Nat.le_gt_cases 3 argument_limit) as [H3|H3];
      [destruct (Nat.le_gt_cases (length colors) argument_limit) as [Hlen|Hlen]|].
    + destruct (halves_shorter _ _ Hleaf) as [Hl Hr].
      destruct (maxChannel_returns argument_limit colors H3 Hlen)
        as (axis & range & -> & _).
      cbn [mbind outcome_mbind]. cbv zeta.
      destruct (medianCut_returns argument_limit
                  (take (length colors / 2) (sort_by_channel axis colors)) (depth - 1))
        as [l ->]; [done|rewrite left_half_length; lia|].
      destruct (medianCut_returns argument_limit
                  (drop (length colors / 2) (sort_by_channel axis colors)) (depth - 1))
        as [r ->]; [done|rewrite right_half_length; lia|].
      split; [done|]. intros (_ & _ & [?|?]); lia.
    + rewrite maxChannel_throws by (by left). split; [|done].
      intros _. split; [done|]. split; [done|]. by left.
    + rewrite maxChannel_throws by (by right). split; [|done].
      intros _. split; [done|]. split; [done|]. by right.
Qed.

(** What a call returns or throws. *)
Lemma medianCut_outcome (argument_limit : nat) (colors : list rgb) (depth : Z) :
  (∃ palette, medianCut argument_limit colors depth = Returns palette)
  ∨ medianCut argument_limit colors depth = RangeError
    ∧ refused argument_limit colors depth.
Proof.
  destruct (medianCut argument_limit colors depth) as [palette|] eqn:Hrun.
  - left. by eexists.
  - right. split; [done|]. by apply medianCut_throws_iff.
Qed.

Lemma medianCut_length (argument_limit depth : nat) (colors : list rgb)
    (palette : list color) :
  medianCut argument_limit colors (Z.of_nat depth) = Returns palette →
  length palette = ((1 `max` length colors) `min` 2 ^ depth)%nat.
Proof.
  revert colors palette. induction depth as [|depth IH]; intros colors palette.
  - rewrite medianCut_unfold. simpl. intros [= <-]. simpl. lia.
  - rewrite medianCut_unfold.
    destruct (is_leaf colors (Z.of_nat (S depth))) eqn:Hleaf.
    + intros [= <-].
      unfold is_leaf in Hleaf. apply orb_true_iff in Hleaf as [H0|Hn];
        [apply Z.eqb_eq in H0; lia|].
      apply Nat.leb_le in Hn. simpl length.
      pose proof (Nat.pow_nonzero 2 (S depth)). lia.
    + destruct (maxChannel argument_limit colors) as [axis|]; [|done].
      cbn [mbind outcome_mbind]. cbv zeta.
      replace (Z.of_nat (S depth) - 1) with (Z.of_nat depth) by lia.
      destruct (medianCut _ (take _ _) _) as [l|] eqn:Hl; [|done].
      destruct (medianCut _ (drop _ _) _) as [r|] eqn:Hr; [|done].
      cbn [mbind outcome_mbind mret outcome_mret]. intros [= <-].
      rewrite length_app, (IH _ _ Hl), (IH _ _ Hr), left_half_length, right_half_length.
      apply is_leaf_false in Hleaf as [_ Hn].
      pose proof (Nat.div_mod_eq (length colors) 2).
      pose proof (Nat.mod_upper_bound (length colors) 2).
      rewrite Nat.pow_succ_r'. lia.
Qed.

(** Whatever the depth, there are no more colours than samples (and one
    colour for no sample), and one colour at least. *)
Lemma medianCut_small (argument_limit : nat) (colors : list rgb) (depth : Z)
    (palette : list color) :
  medianCut argument_limit colors depth = Returns palette →
  (1 ≤ length palette ≤ 1 `max` length colors)%nat.
Proof.
  assert (∀ (k : nat) (colors : list rgb) (depth : Z) (palette : list color),
            (length colors ≤ k)%nat →
            medianCut argument_limit colors depth = Returns palette →
            (1 ≤ length palette ≤ 1 `max` length colors)%nat) as Hgen.
  { clear. induction k as [|k IH]; intros colors depth palette Hk.
    - rewrite medianCut_unfold. unfold is_leaf.
      replace (length colors <=? 1)%nat with true by (symmetry; apply Nat.leb_le; lia).
      rewrite orb_true_r. intros [= <-]. simpl. lia.
    - rewrite medianCut_unfold. destruct (is_leaf colors depth) eqn:Hleaf.
      + intros [= <-]. simpl. lia.
      + destruct (halves_shorter _ _ Hleaf) as [Hl Hr].
        destruct (maxChannel argument_limit colors) as [axis|]; [|done].
        cbn [mbind outcome_mbind]. cbv zeta.
        destruct (medianCut _ (take _ _) _) as [l|] eqn:Hrunl; [|done].
        destruct (medianCut _ (drop _ _) _) as [r|] eqn:Hrunr; [|done].
        cbn [mbind outcome_mbind mret outcome_mret]. intros [= <-]. rewrite length_app.
        apply IH in Hrunl; [|rewrite left_half_length; lia].
        apply IH in Hrunr; [|rewrite right_half_length; lia].
        rewrite left_half_length in Hrunl. rewrite right_half_length in Hrunr.
        lia. }
  by apply (Hgen (length colors)).
Qed.


(** C1 (as amended): on an engine that takes three arguments or more, for
    every non-empty sample sequence of [n] samples and every recursion
    depth [d] handed to the median-cut routine: when the engine takes [n]
    arguments (or [d] is 0), the output has exactly [min n (2^d)] colours,
    that is [2^d] colours when there are at least [2^d] samples and one
    colour per sample when there are fewer; when [n] is past the argument
    limit and [d] is not 0, the routine throws and there is no output. *)
Theorem medianCut_palette_size (argument_limit : nat) (colors : list rgb)
    (depth : nat) :
  (1 ≤ length colors)%nat → (3 ≤ argument_limit)%nat →
  ((length colors ≤ argument_limit)%nat ∨ depth = 0%nat →
   ∃ palette : list color,
     medianCut argument_limit colors (Z.of_nat depth) = Returns palette
     ∧ length palette = (length colors `min` 2 ^ depth)%nat)
  ∧ ((argument_limit < length colors)%nat → (1 ≤ depth)%nat →
     medianCut argument_limit colors (Z.of_nat depth) = RangeError).
Proof.
  intros Hn H3. split.
  - intros Hfits.
    destruct (medianCut_outcome argument_limit colors (Z.of_nat depth))
      as [[palette Hp]|[_ (Hd & _ & Hover)]].
    + exists palette. split; [done|]. rewrite (medianCut_length _ _ _ _ Hp). lia.
    + lia.
  - intros Hover Hd. apply medianCut_throws_iff. split; [lia|]. split; [lia|].
    by left.
Qed.

(** Three samples at depth 3, on the example engine: three colours. *)
Lemma medianCut_palette_size_witness :
  ∃ palette : list color,
    medianCut example_limit [(0, 5, 0); (10, 0, 0); (3, 50, 2)] (Z.of_nat 3)
    = Returns palette
    ∧ length palette = 3%nat.
Proof.
  apply (medianCut_palette_size example_limit [(0, 5, 0); (10, 0, 0); (3, 50, 2)] 3);
    [simpl; lia | unfold example_limit; lia | left; unfold example_limit; simpl; lia].
Defined.

(** C1, as stated, fails: one opaque pixel gives one sample, and the
    palette computed for the default target count 8 has one entry, not
    eight. *)
Lemma palette_size_counterexample :
  sampler [10; 20; 30; 255] = Some [(10, 20, 30)]
  ∧ medianCut example_limit [(10, 20, 30)] 8 = Returns [(ofZ 10, ofZ 20, ofZ 30)]
  ∧ extractColorPalette example_limit [10; 20; 30; 255] 8
    = Some (Returns [ {| hex := "#0a141e"; rgb_r := ofZ 10; rgb_g := ofZ 20;
                         rgb_b := ofZ 30; percentage := ofZ 100 |} ]).
Proof. split; [reflexivity|]. split; vm_compute; reflexivity. Qed.

(** With 256 samples or more, the depth 8 that [extractColorPalette] hands
    to [medianCut] for its default [numColors = 8] yields 256 colours. *)
Remark medianCut_depth_8 (argument_limit : nat) (colors : list rgb)
    (palette : list color) :
  (256 ≤ length colors)%nat →
  medianCut argument_limit colors 8 = Returns palette →
  length palette = 256%nat.
Proof.
  intros Hn Hp. change 8 with (Z.of_nat 8) in Hp.
  rewrite (medianCut_length _ _ _ _ Hp).
  change (2 ^ 8)%nat with 256%nat. lia.
Qed.



(** ** The loops over the buffer *)

Lemma visible_pixels_loop_S {St : Type} (fuel stride : nat) (pixels : list Z)
    (i : nat) (body : St → Z → Z → Z → St) (s : St) :
  visible_pixels_loop (S fuel) stride pixels i body s =
  if (i <? length pixels)%nat then
    match pixels !! i, pixels !! (i + 1)%nat,
          pixels !! (i + 2)%nat, pixels !! (i + 3)%nat with
    | Some r, Some g, Some b, Some a =>
        if a <? 128
        then visible_pixels_loop fuel stride pixels (i + stride) body s
        else visible_pixels_loop fuel stride pixels (i + stride) body (body s r g b)
    | _, _, _, _ => None
    end
  else Some s.
Proof. reflexivity. Qed.

(** In a buffer of whole pixels, the four reads of an iteration that
    starts on a pixel boundary are inside the buffer. *)
Lemma pixel_reads (pixels : list Z) (i : nat) :
  (length pixels mod 4 = 0)%nat → (i mod 4 = 0)%nat → (i < length pixels)%nat →
  pixels !! i = Some (pixels !!! i)
  ∧ pixels !! (i + 1)%nat = Some (pixels !!! (i + 1)%nat)
  ∧ pixels !! (i + 2)%nat = Some (pixels !!! (i + 2)%nat)
  ∧ pixels !! (i + 3)%nat = Some (pixels !!! (i + 3)%nat).
Proof.
  intros HL Hi Hlt.
  pose proof (Nat.div_mod_eq (length pixels) 4).
  pose proof (Nat.div_mod_eq i 4).
  repeat split; apply list_lookup_lookup_total_lt; lia.
Qed.

Lemma filter_none {A : Type} (f : A → bool) (l : list A) :
  (∀ x, In x l → f x = false) → List.filter f l = [].
Proof.
  induction l as [|x l IH]; [done|]. intros Hall. simpl.
  rewrite (Hall x) by (by left). apply IH. intros y Hy. apply Hall. by right.
Qed.

(** The multiples of 40 among the offsets from [i] on, when [i] is one. *)
Lemma offsets_from (i n : nat) :
  (i mod 40 = 0)%nat →
  List.filter (fun j => (j mod 40 =? 0)%nat) (seq i (S n))
  = i :: List.filter (fun j => (j mod 40 =? 0)%nat) (seq (i + 40) (n - 39)).
Proof.
  intros Hi. cbn [seq List.filter].
  replace (i mod 40 =? 0)%nat with true by (symmetry; by apply Nat.eqb_eq).
  f_equal.
  destruct (Nat.le_gt_cases n 39) as [Hn|Hn].
  - replace (n - 39)%nat with 0%nat by lia. cbn [seq List.filter].
    apply filter_none. intros j [Hj1 Hj2]%in_seq. apply Nat.eqb_neq.
    pose proof (Nat.div_mod_eq i 40). pose proof (Nat.div_mod_eq j 40). lia.
  - replace n with (39 + (n - 39))%nat at 1 by lia.
    rewrite seq_app, List.filter_app.
    rewrite (filter_none _ (seq (S i) 39)).
    + cbn [app]. do 2 f_equal. lia.
    + intros j [Hj1 Hj2]%in_seq. apply Nat.eqb_neq.
      pose proof (Nat.div_mod_eq i 40). pose proof (Nat.div_mod_eq j 40). lia.
Qed.

(** The sampling loop, started at a multiple of 40, appends the samples
    the specification names from there on. *)
Lemma sampler_loop_spec (pixels : list Z) (fuel i : nat) (sampledColors : list rgb) :
  (length pixels mod 4 = 0)%nat →
  (i mod 40 = 0)%nat →
  (length pixels - i < fuel)%nat →
  visible_pixels_loop fuel 40 pixels i
    (fun sampledColors r g b => sampledColors ++ [(r, g, b)]) sampledColors
  = Some (sampledColors
          ++ map (triple_at pixels)
               (List.filter (fun j => 128 <=? alpha_at pixels j)
                  (List.filter (fun j => (j mod 40 =? 0)%nat)
                     (seq i (length pixels - i))))).
Proof.
  intros HL. revert i sampledColors.
  induction fuel as [|fuel IH]; intros i sampledColors Hi Hfuel; [lia|].
  rewrite visible_pixels_loop_S.
  destruct (i <? length pixels)%nat eqn:Hlt.
  - apply Nat.ltb_lt in Hlt.
    destruct (pixel_reads pixels i) as (-> & -> & -> & ->); [done| |done|].
    { pose proof (Nat.div_mod_eq i 40) as Hq.
      replace i with (10 * (i / 40) * 4)%nat by lia. apply Nat.Div0.mod_mul. }
    replace (length pixels - i)%nat with (S (length pixels - i - 1)) by lia.
    rewrite offsets_from by done.
    replace (length pixels - i - 1 - 39)%nat
      with (length pixels - (i + 40))%nat by lia.
    cbn [List.filter]. unfold alpha_at at 1.
    destruct (pixels !!! (i + 3)%nat <? 128) eqn:Ha.
    + replace (128 <=? pixels !!! (i + 3)%nat) with false by lia.
      apply IH; [|lia].
      rewrite <- Nat.Div0.add_mod_idemp_l, Hi. done.
    + replace (128 <=? pixels !!! (i + 3)%nat) with true by lia.
      rewrite IH; [|rewrite <- Nat.Div0.add_mod_idemp_l, Hi; done|lia].
      by rewrite <- app_assoc.
  - apply Nat.ltb_ge in Hlt.
    replace (length pixels - i)%nat with 0%nat by lia. simpl.
    by rewrite app_nil_r.
Qed.

(** On the buffer of a [W] by [H] image the sampling loop runs to its end
    and returns these samples. *)
Lemma sampler_on_image (pixels : list Z) (W H : nat) :
  length pixels = (4 * W * H)%nat →
  sampler pixels = Some (sampler_spec pixels).
Proof.
  intros HL.
  unfold sampler, for_visible_pixels, sampler_spec, sampled_offsets.
  rewrite sampler_loop_spec.
  - by rewrite Nat.sub_0_r.
  - rewrite HL, <- Nat.mul_assoc, Nat.mul_comm. apply Nat.Div0.mod_mul.
  - done.
  - lia.
Qed.

(** C4: for every RGBA pixel buffer of length [4 * W * H], the sampler
    returns exactly the (R,G,B) triples at the offsets of the flat array
    that are multiples of 40 and whose alpha entry is at least 128, in
    buffer order; the empty buffer yields the empty sample sequence. *)
Theorem sampler_correct (pixels : list Z) (W H : nat) :
  length pixels = (4 * W * H)%nat →
  sampler pixels = Some (sampler_spec pixels)
  ∧ sampler [] = Some [].
Proof.
  intros HL. split; [|reflexivity]. by apply (sampler_on_image pixels W H).
Qed.

(** A row of eleven pixels, the first one opaque and the eleventh one
    half transparent: one sample. *)
Lemma sampler_correct_witness :
  let pixels := [1; 2; 3; 255] ++ concat (replicate 9 [9; 9; 9; 255]) ++ [4; 5; 6; 127] in
  length pixels = (4 * 11 * 1)%nat
  ∧ sampler pixels = Some [(1, 2, 3)].
Proof.
  split; [reflexivity|].
  apply (sampler_correct
           ([1; 2; 3; 255] ++ concat (replicate 9 [9; 9; 9; 255]) ++ [4; 5; 6; 127])
           11 1).
  reflexivity.
Defined.

(** A loop over a buffer without eligible pixel leaves its state as it
    was. *)
Lemma visible_pixels_loop_skips {St : Type} (pixels : list Z) (stride fuel i : nat)
    (body : St → Z → Z → Z → St) (s : St) :
  (length pixels mod 4 = 0)%nat →
  no_eligible_pixel pixels →
  (0 < stride)%nat → (stride mod 4 = 0)%nat →
  (i mod 4 = 0)%nat →
  (length pixels - i < fuel)%nat →
  visible_pixels_loop fuel stride pixels i body s = Some s.
Proof.
  intros HL Hnone Hpos Hstride. revert i.
  induction fuel as [|fuel IH]; intros i Hi Hfuel; [lia|].
  rewrite visible_pixels_loop_S.
  destruct (i <? length pixels)%nat eqn:Hlt; [|done].
  apply Nat.ltb_lt in Hlt.
  destruct (pixel_reads pixels i) as (-> & -> & -> & Ha); [done..|].
  rewrite Ha.
  replace (pixels !!! (i + 3)%nat <? 128) with true.
  - apply IH; [|lia].
    rewrite <- Nat.Div0.add_mod_idemp_l, <- Nat.Div0.add_mod_idemp_r, Hi, Hstride.
    done.
  - symmetry. apply Z.ltb_lt. apply (Hnone (i + 3)%nat); [|done].
    rewrite <- Nat.Div0.add_mod_idemp_l, Hi. done.
Qed.

Lemma summarize_no_sample (argument_limit : nat) (numColors : Z) :
  summarize argument_limit [] numColors
  = Returns [ {| hex := "#NaNNaNNaN"; rgb_r := NaN; rgb_g := NaN; rgb_b := NaN;
                 percentage := NaN |} ].
Proof.
  unfold summarize. rewrite medianCut_unfold.
  unfold medianCut_array, is_leaf. cbn [length Nat.leb].
  rewrite orb_true_r. reflexivity.
Qed.

(** Without eligible pixel every number of both results is [NaN], and
    the palette is the single entry built from the empty bucket. *)
Lemma no_eligible_pixel_results (argument_limit : nat) (pixels : list Z) (W H : nat)
    (numColors : Z) :
  length pixels = (4 * W * H)%nat →
  no_eligible_pixel pixels →
  calculateImageStats pixels
  = Some {| averageBrightness := NaN; averageContrast := NaN;
            red := NaN; green := NaN; blue := NaN |}
  ∧ extractColorPalette argument_limit pixels numColors
    = Some (Returns [ {| hex := "#NaNNaNNaN"; rgb_r := NaN; rgb_g := NaN;
                         rgb_b := NaN; percentage := NaN |} ]).
Proof.
  intros HL Hnone.
  assert (length pixels mod 4 = 0)%nat as Hmod.
  { rewrite HL, <- Nat.mul_assoc, Nat.mul_comm. apply Nat.Div0.mod_mul. }
  split.
  - unfold calculateImageStats, for_visible_pixels.
    rewrite visible_pixels_loop_skips by (done || lia). cbn [mbind option_bind].
    rewrite visible_pixels_loop_skips by (done || lia). reflexivity.
  - unfold extractColorPalette, sampler, for_visible_pixels.
    rewrite visible_pixels_loop_skips by (done || lia). cbn [mbind option_bind].
    by rewrite summarize_no_sample.
Qed.

(** C2: the specification asks for a defined "no data" value and no [NaN]
    when no pixel is eligible.  On the image of two pixels of alpha 0 and 127 the
    source divides zero by zero: the five statistics are [NaN], and the
    palette is one entry whose channels and percentage are [NaN] and whose
    [hex] is not a colour (on every engine: no spread call is made). *)
Theorem transparent_image_results (argument_limit : nat) :
  let pixels := [12; 34; 56; 0; 200; 100; 50; 127] in
  no_eligible_pixel pixels
  ∧ calculateImageStats pixels
    = Some {| averageBrightness := NaN; averageContrast := NaN;
              red := NaN; green := NaN; blue := NaN |}
  ∧ extractColorPalette_default argument_limit pixels
    = Some (Returns [ {| hex := "#NaNNaNNaN"; rgb_r := NaN; rgb_g := NaN;
                         rgb_b := NaN; percentage := NaN |} ]).
Proof.
  assert (no_eligible_pixel [12; 34; 56; 0; 200; 100; 50; 127]) as Hnone.
  { intros i a Hi Hat.
    do 8 (destruct i as [|i]; [simpl in *; try discriminate; simplify_eq; lia|]).
    done. }
  split; [done|].
  by apply (no_eligible_pixel_results _ _ 2 1).
Qed.

(** ** The palette summariser *)

(** When the call returns, the caller's array holds the same samples. *)
Lemma medianCut_array_returns (argument_limit : nat) (colors : list rgb) (depth : Z)
    (palette : list color) :
  medianCut argument_limit colors depth = Returns palette →
  ∃ sorted : list rgb,
    medianCut_array argument_limit colors depth = Returns sorted
    ∧ sorted ≡ₚ colors.
Proof.
  rewrite medianCut_unfold. unfold medianCut_array.
  destruct (is_leaf colors depth); [by eexists|].
  destruct (maxChannel argument_limit colors) as [axis|]; [|done].
  intros _. eexists. split; [done|]. apply Array_sort_Permutation.
Qed.

(** A count of near samples lies between zero and the number of
    samples. *)
Lemma count_near_bounds (sampledColors : list rgb) (color : color) :
  0 <= count_near sampledColors color <= Z.of_nat (length sampledColors).
Proof.
  unfold count_near.
  assert (∀ count : Z,
    count <= fold_left
      (fun count pixel =>
         if num_lt (getColorDistance pixel color) (ofZ 50)
         then count + 1 else count)
      sampledColors count <= count + Z.of_nat (length sampledColors)) as Hgen.
  { induction sampledColors as [|pixel l IH]; intros count; simpl; [lia|].
    destruct (num_lt _ _).
    - specialize (IH (count + 1)). lia.
    - specialize (IH count). lia. }
  specialize (Hgen 0). lia.
Qed.

(** The entries of a palette before the final sort: one per colour, in
    palette order, each with the count of its own colour. *)
Lemma summarize_returns (argument_limit : nat) (sampledColors : list rgb)
    (numColors : Z) (entries : list ColorInfo) :
  summarize argument_limit sampledColors numColors = Returns entries →
  ∃ (palette : list color) (sorted : list rgb),
    medianCut argument_limit sampledColors numColors = Returns palette
    ∧ medianCut_array argument_limit sampledColors numColors = Returns sorted
    ∧ sorted ≡ₚ sampledColors
    ∧ entries
      = Array_sort (fun a b => num_sub (percentage b) (percentage a))
          (map (fun color : color =>
                  {| hex := rgbToHex color.1.1 color.1.2 color.2;
                     rgb_r := color.1.1;
                     rgb_g := color.1.2;
                     rgb_b := color.2;
                     percentage :=
                       toFixed2 (num_mul (num_div (ofZ (count_near sorted color))
                                                  (ofZ (Z.of_nat (length sorted))))
                                         (ofZ 100)) |})
               palette).
Proof.
  unfold summarize.
  destruct (medianCut argument_limit sampledColors numColors) as [palette|] eqn:Hp;
    [|done].
  destruct (medianCut_array_returns _ _ _ _ Hp) as (sorted & -> & Hperm).
  cbn [mbind outcome_mbind mret outcome_mret]. cbv zeta. intros [= <-].
  exists palette, sorted. split; [done|]. split; [done|]. split; [done|].
  f_equal. erewrite imap_ext; [apply imap_const|].
  intros index c Hat.
  rewrite (list_lookup_total_correct _ index (count_near sorted c)); [done|].
  rewrite list_lookup_fmap. unfold color in *. by rewrite Hat.
Qed.

(** The summary ends as [medianCut] does. *)
Lemma summarize_outcome (argument_limit : nat) (sampledColors : list rgb)
    (numColors : Z) :
  (∃ entries, summarize argument_limit sampledColors numColors = Returns entries)
  ∨ summarize argument_limit sampledColors numColors = RangeError
    ∧ refused argument_limit sampledColors numColors.
Proof.
  unfold summarize.
  destruct (medianCut_outcome argument_limit sampledColors numColors)
    as [[palette Hp]|[Hp Hover]]; rewrite Hp.
  - destruct (medianCut_array_returns _ _ _ _ Hp) as (sorted & -> & _).
    left. by eexists.
  - by right.
Qed.

(** Rounding keeps a number between two integers that are doubles. *)
Lemma binary64_between (lo hi : Z) (x : Q) :
  Z.abs lo < 2 ^ 53 → Z.abs hi < 2 ^ 53 →
  (inject_Z lo <= x <= inject_Z hi)%Q →
  (inject_Z lo <= binary64 x <= inject_Z hi)%Q.
Proof.
  intros Hlo Hhi [H1 H2]. split.
  - rewrite <- (binary64_Z lo Hlo). by apply binary64_mono.
  - rewrite <- (binary64_Z hi Hhi). by apply binary64_mono.
Qed.

Lemma toFixed2_percent (q : Q) :
  (0 <= q <= 100)%Q →
  ∃ p : Q, toFixed2 (Num q) = Num p ∧ (0 <= p <= 100)%Q.
Proof.
  intros [H0 H100]. unfold toFixed2, literal.
  replace (Qle_bool 0 q) with true by (symmetry; by apply Qle_bool_iff).
  eexists. split; [done|].
  assert (0 <= Qfloor (q * 100 + (1 # 2)) <= 10000) as [Hlo Hhi].
  { split.
    - change 0 with (Qfloor 0). apply Qfloor_resp_le. lra.
    - change 10000 with (Qfloor (10000 + (1 # 2))). apply Qfloor_resp_le. lra. }
  apply (binary64_between 0 100); [done..|].
  unfold Qle. cbn [Qnum Qden inject_Z]. lia.
Qed.

(** A count out of a non-zero total is a percentage between 0 and 100. *)
Lemma percentage_of_count (count total : Z) :
  0 <= count <= total → 0 < total →
  ∃ p : Q,
    toFixed2 (num_mul (num_div (ofZ count) (ofZ total)) (ofZ 100)) = Num p
    ∧ (0 <= p <= 100)%Q.
Proof.
  intros [H0 Hle] Hpos. unfold num_div, num_mul, ofZ.
  assert (0 < inject_Z total)%Q as HposQ.
  { change 0%Q with (inject_Z 0). by rewrite <- Zlt_Qlt. }
  replace (Qeq_bool (inject_Z total) 0) with false.
  2:{ symmetry. apply not_true_iff_false. rewrite Qeq_bool_iff.
      intros Heq. rewrite Heq in HposQ. by apply Qlt_irrefl in HposQ. }
  apply toFixed2_percent.
  assert (0 <= inject_Z count / inject_Z total <= 1)%Q as Hratio.
  { split.
    - apply Qle_shift_div_l; [done|]. rewrite Qmult_0_l.
      change 0%Q with (inject_Z 0). by rewrite <- Zle_Qle.
    - apply Qle_shift_div_r; [done|]. rewrite Qmult_1_l. by rewrite <- Zle_Qle. }
  apply (binary64_between 0 1) in Hratio; [|done..].
  apply (binary64_between 0 100); [done..|].
  change (inject_Z 100) with 100%Q. change (inject_Z 0) with 0%Q in *.
  change (inject_Z 1) with 1%Q in *.
  generalize dependent (binary64 (inject_Z count / inject_Z total)).
  intros; split; lra.
Qed.

(** With one sample or more, every entry has a percentage between 0 and
    100. *)
Lemma summarize_percentages (argument_limit : nat) (sampledColors : list rgb)
    (numColors : Z) (entries : list ColorInfo) :
  sampledColors ≠ [] →
  summarize argument_limit sampledColors numColors = Returns entries →
  Forall (fun e => ∃ p : Q, percentage e = Num p ∧ (0 <= p <= 100)%Q) entries.
Proof.
  intros Hne (palette & sorted & _ & _ & Hperm & ->)%summarize_returns.
  rewrite Array_sort_Permutation.
  apply Forall_fmap, Forall_forall. intros color _. simpl.
  apply percentage_of_count.
  - apply count_near_bounds.
  - rewrite Hperm. destruct sampledColors; [done|]. simpl. lia.
Qed.

Lemma summarize_length (argument_limit : nat) (sampledColors : list rgb)
    (numColors : Z) (entries : list ColorInfo) :
  summarize argument_limit sampledColors numColors = Returns entries →
  (1 ≤ length entries ≤ 1 `max` length sampledColors)%nat.
Proof.
  intros (palette & sorted & Hp & _ & _ & ->)%summarize_returns.
  rewrite Array_sort_length, length_map. by apply medianCut_small in Hp.
Qed.

(** The comparator [(a, b) => b.percentage - a.percentage] orders any two
    entries one way or the other: the rounded difference has the sign of
    the difference. *)
Lemma by_percentage_total (a b : ColorInfo) :
  keeps_order (fun a b => num_sub (percentage b) (percentage a)) a b = false →
  keeps_order (fun a b => num_sub (percentage b) (percentage a)) b a = true.
Proof.
  unfold keeps_order, num_sub.
  destruct (percentage a) as [p|], (percentage b) as [q|]; try done.
  intros Hab. apply Qle_bool_iff, binary64_le_0.
  apply not_true_iff_false in Hab. rewrite Qle_bool_iff, binary64_le_0 in Hab. lra.
Qed.

Lemma Sorted_weaken_on {A : Type} (P : A → Prop) (R R' : A → A → Prop) (l : list A) :
  (∀ a b, P a → P b → R a b → R' a b) →
  Forall P l → Sorted R l → Sorted R' l.
Proof.
  intros HR HP Hs. induction Hs as [|x l Hl IH Hhd]; [constructor|].
  apply Forall_cons in HP as [Hx HP]. constructor; [by apply IH|].
  destruct Hhd as [|y l Hxy]; constructor.
  apply Forall_cons in HP as [Hy _]. by apply HR.
Qed.

Lemma summarize_Sorted (argument_limit : nat) (sampledColors : list rgb)
    (numColors : Z) (entries : list ColorInfo) :
  summarize argument_limit sampledColors numColors = Returns entries →
  Sorted percentage_ge entries.
Proof.
  intros Hrun. destruct (decide (sampledColors = [])) as [->|Hne].
  { rewrite summarize_no_sample in Hrun. injection Hrun as <-. repeat constructor. }
  eapply Sorted_weaken_on; [|by eapply summarize_percentages|].
  2:{ apply summarize_returns in Hrun as (palette & sorted & _ & _ & _ & ->).
      apply Array_sort_Sorted, by_percentage_total. }
  intros a b (p & Hp & _) (q & Hq & _).
  unfold percentage_ge, keeps_order, num_sub, num_ge. rewrite Hp, Hq.
  rewrite !Qle_bool_iff, binary64_le_0. lra.
Qed.

Lemma Sorted_adjacent {A : Type} (R : A → A → Prop) (l : list A) :
  Sorted R l → ∀ i a b, l !! i = Some a → l !! S i = Some b → R a b.
Proof.
  intros Hs. induction Hs as [|x l Hl IH Hhd]; intros i a b Ha Hb; [done|].
  destruct i as [|i]; simpl in Ha, Hb.
  - injection Ha as <-. destruct Hhd as [|y l Hxy]; [done|].
    simpl in Hb. by injection Hb as <-.
  - by apply (IH i).
Qed.

(** C6: on the buffer of any image the palette [extractColorPalette]
    returns is sorted by decreasing percentage: the percentage of any
    entry is at least that of the entry after it.  The call returns a
    palette whenever the engine takes one argument per sample (and three
    at least); it throws, and returns nothing, only when [medianCut]
    splits more samples than the engine takes arguments. *)
Theorem palette_sorted (argument_limit : nat) (pixels : list Z) (W H : nat)
    (numColors : Z) :
  length pixels = (4 * W * H)%nat →
  ∃ result : outcome (list ColorInfo),
    extractColorPalette argument_limit pixels numColors = Some result
    ∧ match result with
      | Returns entries =>
          Sorted percentage_ge entries
          ∧ ∀ i a b, entries !! i = Some a → entries !! S i = Some b →
                     percentage_ge a b
      | RangeError => refused argument_limit (sampler_spec pixels) numColors
      end
    ∧ ((3 ≤ argument_limit)%nat →
       (length (sampler_spec pixels) ≤ argument_limit)%nat →
       ∃ entries : list ColorInfo, result = Returns entries).
Proof.
  intros HL. unfold extractColorPalette.
  rewrite (sampler_on_image pixels W H HL). cbn [mbind option_bind].
  eexists. split; [done|].
  destruct (summarize_outcome argument_limit (sampler_spec pixels) numColors)
    as [[entries Hrun]|[Hrun Hover]]; rewrite Hrun.
  - split; [|by eexists].
    pose proof (summarize_Sorted _ _ _ _ Hrun) as Hs.
    split; [done|]. by apply Sorted_adjacent.
  - split; [done|]. intros H3 Hlen. destruct Hover as (_ & _ & [?|?]); lia.
Qed.

(** Three samples ten pixels apart, cut once, on the example engine: the
    second colour of the palette is near two of them, the first near one,
    and the entries come out as 66.67 % before 33.33 %. *)
Lemma palette_sorted_witness :
  let pixels :=
    [0; 0; 0; 255] ++ concat (replicate 9 [9; 9; 9; 255]) ++ [40; 30; 0; 255]
    ++ concat (replicate 9 [9; 9; 9; 255]) ++ [41; 30; 0; 255] in
  let first :=
    {| hex := "#291e00"; rgb_r := ofZ 41; rgb_g := ofZ 30; rgb_b := ofZ 0;
       percentage := literal (6667 # 100) |} in
  let second :=
    {| hex := "#000000"; rgb_r := ofZ 0; rgb_g := ofZ 0; rgb_b := ofZ 0;
       percentage := literal (3333 # 100) |} in
  length pixels = (4 * 21 * 1)%nat
  ∧ extractColorPalette example_limit pixels 1 = Some (Returns [first; second])
  ∧ percentage_ge first second.
Proof.
  intros pixels first second.
  assert (length pixels = (4 * 21 * 1)%nat) as HL by reflexivity.
  assert (extractColorPalette example_limit pixels 1 = Some (Returns [first; second]))
    as Hrun by (vm_compute; reflexivity).
  split; [exact HL|]. split; [exact Hrun|].
  destruct (palette_sorted example_limit pixels 21 1 1 HL)
    as (result & Hresult & Hsorted & _).
  rewrite Hrun in Hresult. injection Hresult as <-.
  destruct Hsorted as [_ Hadj].
  exact (Hadj 0%nat first second eq_refl eq_refl).
Defined.

(** The sum of [k] percentages is at most [100 * k]; the bound is an
    integer below 2^53, hence a double, and roundings do not pass it. *)
Lemma num_sum_from (l : list number) (acc : Q) (k : nat) :
  Z.of_nat (k + length l) < 2 ^ 32 →
  (0 <= acc <= inject_Z (100 * Z.of_nat k))%Q →
  Forall (fun x => ∃ p : Q, x = Num p ∧ (0 <= p <= 100)%Q) l →
  ∃ total : Q,
    fold_left num_add l (Num acc) = Num total
    ∧ (0 <= total <= inject_Z (100 * Z.of_nat (k + length l)))%Q.
Proof.
  revert acc k. induction l as [|x l IH]; intros acc k Hlen Hacc Hall.
  - exists acc. split; [done|]. by rewrite Nat.add_0_r.
  - apply Forall_cons in Hall as [(p & -> & Hp) Hall].
    cbn [fold_left num_add]. rewrite length_cons in Hlen.
    destruct (IH (binary64 (acc + p)) (S k)) as (total & Hsum & Htotal);
      [lia| |done|].
    + apply (binary64_between 0 (100 * Z.of_nat (S k))); [done| |].
      * lia.
      * rewrite Nat2Z.inj_succ, <- Z.add_1_r, Z.mul_add_distr_l, inject_Z_plus.
        change (inject_Z 0) with 0%Q. change (inject_Z (100 * 1)) with 100%Q.
        destruct Hacc, Hp. split; lra.
    + exists total. split; [done|].
      by replace (k + length (Num p :: l))%nat with (S k + length l)%nat
        by (rewrite length_cons; lia).
Qed.

(** C7: with one sample or more (and fewer than 2^32, the bound of an
    array), the count of samples strictly nearer than 50 to a colour is at
    most the number of samples (a sample at distance 50 exactly is not
    counted), every entry of the palette returned has a percentage between
    0 and 100, and the percentages add up to at most 100 times the number
    of entries.  They need not add up to 100: two samples ten apart are
    both near both representatives, and the percentages add up to 200.
    (No palette is returned only when [medianCut] splits more samples
    than the engine takes arguments.) *)
Theorem percentages_bounded (argument_limit : nat) (sampledColors : list rgb)
    (numColors : Z) :
  sampledColors ≠ [] →
  Z.of_nat (length sampledColors) < 2 ^ 32 →
  (∀ sorted color,
     medianCut_array argument_limit sampledColors numColors = Returns sorted →
     0 <= count_near sorted color <= Z.of_nat (length sampledColors))
  ∧ count_near [(0, 0, 0)] (ofZ 30, ofZ 40, ofZ 0) = 0
  ∧ count_near [(0, 0, 0)] (ofZ 30, ofZ 39, ofZ 0) = 1
  ∧ match summarize argument_limit sampledColors numColors with
    | Returns entries =>
        Forall (fun e => ∃ p : Q, percentage e = Num p ∧ (0 <= p <= 100)%Q) entries
        ∧ (∃ total : Q,
             num_sum (map percentage entries) = Num total
             ∧ (0 <= total <= inject_Z (100 * Z.of_nat (length entries)))%Q)
    | RangeError => refused argument_limit sampledColors numColors
    end
  ∧ ((3 ≤ argument_limit)%nat → (length sampledColors ≤ argument_limit)%nat →
     ∃ entries : list ColorInfo,
       summarize argument_limit sampledColors numColors = Returns entries)
  ∧ (let entries :=
         [ {| hex := "#000000"; rgb_r := ofZ 0; rgb_g := ofZ 0; rgb_b := ofZ 0;
              percentage := ofZ 100 |};
           {| hex := "#0a0000"; rgb_r := ofZ 10; rgb_g := ofZ 0; rgb_b := ofZ 0;
              percentage := ofZ 100 |} ] in
     summarize example_limit [(0, 0, 0); (10, 0, 0)] 8 = Returns entries
     ∧ num_sum (map percentage entries) = ofZ 200).
Proof.
  intros Hne Hlen.
  split.
  { intros sorted c Hsorted.
    destruct (medianCut_outcome argument_limit sampledColors numColors)
      as [[palette Hp]|[Hp _]].
    - destruct (medianCut_array_returns _ _ _ _ Hp) as (sorted' & Hs & Hperm).
      assert (sorted' = sorted) as -> by congruence.
      rewrite <- Hperm. apply count_near_bounds.
    - unfold medianCut_array in Hsorted. rewrite medianCut_unfold in Hp.
      destruct (is_leaf sampledColors numColors); [done|].
      destruct (maxChannel argument_limit sampledColors) as [axis|]; [|done].
      injection Hsorted as <-. rewrite <- (sort_by_channel_length axis).
      apply count_near_bounds. }
  split; [vm_compute; reflexivity|]. split; [vm_compute; reflexivity|].
  split; [|split].
  - destruct (summarize_outcome argument_limit sampledColors numColors)
      as [[entries Hrun]|[Hrun Hover]]; rewrite Hrun; [|done].
    pose proof (summarize_percentages _ _ _ _ Hne Hrun) as Hall.
    split; [done|].
    destruct (num_sum_from (map percentage entries) 0 0) as (total & Hsum & Htotal).
    + rewrite length_map. apply summarize_length in Hrun. lia.
    + done.
    + apply Forall_fmap. eapply Forall_impl; [exact Hall|].
      intros e (p & Hp & Hb). simpl. eauto.
    + exists total. split; [done|]. by rewrite length_map in Htotal.
  - intros H3 Hfits.
    destruct (summarize_outcome argument_limit sampledColors numColors)
      as [Hrun|[_ (_ & _ & [?|?])]]; [done|lia..].
  - split; vm_compute; reflexivity.
Qed.

(** Two samples ten apart: both entries are at 100 %. *)
Lemma percentages_bounded_witness :
  ∃ entries : list ColorInfo,
    summarize example_limit [(0, 0, 0); (10, 0, 0)] 8 = Returns entries
    ∧ Forall (fun e => ∃ p : Q, percentage e = Num p ∧ (0 <= p <= 100)%Q) entries.
Proof.
  destruct (percentages_bounded example_limit [(0, 0, 0); (10, 0, 0)] 8)
    as (_ & _ & _ & Hentries & _ & Hrun & _); [discriminate|simpl; lia|].
  rewrite Hrun in Hentries. eexists. split; [exact Hrun|exact (proj1 Hentries)].
Defined.

(** ** The statistics of a uniform image *)

Lemma uniform_image_length (n : nat) (r g b : Z) :
  length (uniform_image n r g b) = (4 * n)%nat.
Proof. induction n as [|n IH]; simpl; lia. Qed.

(** A loop over the pixels of a uniform image applies its body once per
    pixel. *)
Lemma loop_uniform_image {St : Type} (body : St → Z → Z → Z → St)
    (r g b : Z) (n : nat) (pre : list Z) (s : St) (fuel : nat) :
  (n < fuel)%nat →
  visible_pixels_loop fuel 4 (pre ++ uniform_image n r g b) (length pre) body s
  = Some (Nat.iter n (fun s => body s r g b) s).
Proof.
  revert pre s fuel. induction n as [|n IH]; intros pre s fuel Hfuel;
    (destruct fuel as [|fuel]; [lia|]); rewrite visible_pixels_loop_S.
  - cbn [uniform_image]. rewrite app_nil_r, Nat.ltb_irrefl. done.
  - cbn [uniform_image].
    replace (Nat.ltb (length pre)
               (length (pre ++ r :: g :: b :: 255 :: uniform_image n r g b)))
      with true by (symmetry; apply Nat.ltb_lt; rewrite length_app; simpl; lia).
    rewrite !lookup_app_r by lia.
    replace (length pre - length pre)%nat with 0%nat by lia.
    replace (length pre + 1 - length pre)%nat with 1%nat by lia.
    replace (length pre + 2 - length pre)%nat with 2%nat by lia.
    replace (length pre + 3 - length pre)%nat with 3%nat by lia.
    cbn [lookup list_lookup]. change (255 <? 128) with false. cbv iota.
    change (r :: g :: b :: 255 :: uniform_image n r g b)
      with ([r; g; b; 255] ++ uniform_image n r g b).
    rewrite app_assoc.
    replace (length pre + 4)%nat with (length (pre ++ [r; g; b; 255]))
      by (rewrite length_app; simpl; lia).
    rewrite IH by lia. by rewrite Nat.iter_succ_r.
Qed.

Lemma for_visible_pixels_uniform {St : Type} (body : St → Z → Z → Z → St)
    (r g b : Z) (n : nat) (s : St) :
  for_visible_pixels 4 (uniform_image n r g b) body s
  = Some (Nat.iter n (fun s => body s r g b) s).
Proof.
  unfold for_visible_pixels.
  apply (loop_uniform_image body r g b n []).
  rewrite uniform_image_length. lia.
Qed.

Lemma accumulate_uniform (r g b : Z) (n : nat) :
  Nat.iter n (fun t => accumulate t r g b) no_totals
  = {| totalBrightness :=
         Nat.iter n (fun s => num_add s (brightness r g b)) (ofZ 0);
       totalRed := Z.of_nat n * r;
       totalGreen := Z.of_nat n * g;
       totalBlue := Z.of_nat n * b;
       pixelCount := Z.of_nat n |}.
Proof.
  induction n as [|n IH]; [done|].
  rewrite !Nat.iter_succ, IH. unfold accumulate. cbn [totalBrightness totalRed totalGreen totalBlue pixelCount].
  f_equal; lia.
Qed.

(** *** Rounding errors *)

(** A sum of [n] copies of a non-negative number, each addition rounded,
    is within [sum_error] of [n] times the number, relatively. *)
Lemma iter_add_bounds (c : Q) (n : nat) :
  (0 <= c)%Q → Z.of_nat n <= 2 ^ 28 →
  ∃ σ : Q,
    Nat.iter n (fun s => num_add s (Num c)) (ofZ 0) = Num σ
    ∧ (inject_Z (Z.of_nat n) * c * (1 - sum_error) <= σ)%Q
    ∧ (σ <= inject_Z (Z.of_nat n) * c * (1 + sum_error))%Q.
Proof.
  intros Hc. induction n as [|n IH]; intros Hn.
  - exists (inject_Z 0). split; [done|].
    change (inject_Z (Z.of_nat 0)) with 0%Q. change (inject_Z 0) with 0%Q.
    split; lra.
  - destruct IH as (σ & Hiter & Hlo & Hhi); [lia|].
    exists (binary64 (σ + c)). split.
    { by rewrite Nat.iter_succ, Hiter. }
    assert (0 <= inject_Z (Z.of_nat n) * c)%Q as HP0.
    { apply Qmult_le_0_compat; [|done].
      change 0%Q with (inject_Z 0). rewrite <- Zle_Qle. lia. }
    assert (inject_Z (Z.of_nat n) * c <= 268435456 * c)%Q as HP1.
    { apply Qmult_le_compat_r; [|done].
      change 268435456%Q with (inject_Z (2 ^ 28)). rewrite <- Zle_Qle. lia. }
    assert (inject_Z (Z.of_nat (S n)) * c == inject_Z (Z.of_nat n) * c + c)%Q as HS.
    { rewrite Nat2Z.inj_succ, <- Z.add_1_r, inject_Z_plus. ring. }
    rewrite HS. unfold sum_error in *.
    generalize dependent (inject_Z (Z.of_nat n) * c)%Q. intros P Hlo Hhi HP0 HP1 _.
    destruct (binary64_error_nonneg (σ + c)) as [E1 E2]; [lra|].
    unfold unit_roundoff in *.
    generalize dependent (binary64 (σ + c)). intros σ' E1 E2.
    split; lra.
Qed.

(** The mean of such a sum, the division rounded. *)
Lemma mean_bounds (c σ : Q) (n : nat) :
  (0 <= c)%Q → (1 ≤ n)%nat →
  (inject_Z (Z.of_nat n) * c * (1 - sum_error) <= σ)%Q →
  (σ <= inject_Z (Z.of_nat n) * c * (1 + sum_error))%Q →
  ∃ μ : Q,
    num_div (Num σ) (ofZ (Z.of_nat n)) = Num μ
    ∧ (c * (1 - sum_error) * (1 - unit_roundoff) <= μ)%Q
    ∧ (μ <= c * (1 + sum_error) * (1 + unit_roundoff))%Q.
Proof.
  intros Hc Hn Hlo Hhi.
  assert (0 < inject_Z (Z.of_nat n))%Q as HN.
  { change 0%Q with (inject_Z 0). rewrite <- Zlt_Qlt. lia. }
  unfold num_div, ofZ.
  replace (Qeq_bool (inject_Z (Z.of_nat n)) 0) with false.
  2:{ symmetry. apply not_true_iff_false. rewrite Qeq_bool_iff.
      intros Heq. rewrite Heq in HN. by apply Qlt_irrefl in HN. }
  eexists. split; [done|].
  assert (c * (1 - sum_error) <= σ / inject_Z (Z.of_nat n))%Q as H1.
  { apply Qle_shift_div_l; [done|].
    eapply Qle_trans; [|exact Hlo]. apply Qle_lteq. right. ring. }
  assert (σ / inject_Z (Z.of_nat n) <= c * (1 + sum_error))%Q as H2.
  { apply Qle_shift_div_r; [done|].
    eapply Qle_trans; [exact Hhi|]. apply Qle_lteq. right. ring. }
  destruct (binary64_error_nonneg (σ / inject_Z (Z.of_nat n))) as [E1 E2].
  { unfold sum_error in *. lra. }
  unfold sum_error, unit_roundoff in *.
  generalize dependent (binary64 (σ / inject_Z (Z.of_nat n))).
  generalize dependent (σ / inject_Z (Z.of_nat n))%Q.
  intros x H1 H2 μ E1 E2. split; nra.
Qed.

(** The brightness of a pixel, with its four roundings and the three
    rounded coefficients, is within 2^-40 of the exact weighted sum. *)
Lemma brightness_bounds (r g b : Z) :
  0 <= r <= 255 → 0 <= g <= 255 → 0 <= b <= 255 →
  ∃ β : Q,
    brightness r g b = Num β
    ∧ (0 <= β <= 256)%Q
    ∧ (inject_Z (299 * r + 587 * g + 114 * b) * (1 # 1000) - (1 # 1099511627776) <= β)%Q
    ∧ (β <= inject_Z (299 * r + 587 * g + 114 * b) * (1 # 1000) + (1 # 1099511627776))%Q.
Proof.
  intros Hr Hg Hb. unfold brightness, literal, num_mul, num_add, ofZ.
  eexists. split; [done|].
  assert (binary64 (299 # 1000) = 5386305154335113 # 18014398509481984) as ->
    by (vm_compute; reflexivity).
  assert (binary64 (587 # 1000) = 2643612981266481 # 4503599627370496) as ->
    by (vm_compute; reflexivity).
  assert (binary64 (114 # 1000) = 8214565720323785 # 72057594037927936) as ->
    by (vm_compute; reflexivity).
  assert (0 <= inject_Z r <= 255)%Q as HR.
  { change 0%Q with (inject_Z 0). change 255%Q with (inject_Z 255).
    rewrite <- !Zle_Qle. lia. }
  assert (0 <= inject_Z g <= 255)%Q as HG.
  { change 0%Q with (inject_Z 0). change 255%Q with (inject_Z 255).
    rewrite <- !Zle_Qle. lia. }
  assert (0 <= inject_Z b <= 255)%Q as HB.
  { change 0%Q with (inject_Z 0). change 255%Q with (inject_Z 255).
    rewrite <- !Zle_Qle. lia. }
  assert (inject_Z (299 * r + 587 * g + 114 * b)
          == 299 * inject_Z r + 587 * inject_Z g + 114 * inject_Z b)%Q as ->.
  { rewrite !inject_Z_plus, !inject_Z_mult. reflexivity. }
  generalize dependent (inject_Z r). generalize dependent (inject_Z g).
  generalize dependent (inject_Z b). intros B HB G HG R HR.
  destruct (binary64_error_nonneg ((5386305154335113 # 18014398509481984) * R))
    as [A1 A2]; [lra|].
  destruct (binary64_error_nonneg ((2643612981266481 # 4503599627370496) * G))
    as [A3 A4]; [lra|].
  destruct (binary64_error_nonneg ((8214565720323785 # 72057594037927936) * B))
    as [A5 A6]; [lra|].
  unfold unit_roundoff in *.
  generalize dependent (binary64 ((5386305154335113 # 18014398509481984) * R)).
  generalize dependent (binary64 ((2643612981266481 # 4503599627370496) * G)).
  generalize dependent (binary64 ((8214565720323785 # 72057594037927936) * B)).
  intros t3 A5 A6 t2 A3 A4 t1 A1 A2.
  destruct (binary64_error_nonneg (t1 + t2)) as [A7 A8]; [lra|].
  unfold unit_roundoff in *.
  generalize dependent (binary64 (t1 + t2)). intros t12 A7 A8.
  destruct (binary64_error_nonneg (t12 + t3)) as [A9 A10]; [lra|].
  unfold unit_roundoff in *.
  generalize dependent (binary64 (t12 + t3)). intros β A9 A10.
  repeat split; lra.
Qed.

(** The rounded root lies in the binade of the root. *)
Lemma sqrt_pos_bounds (a : Q) :
  (0 < a)%Q → (0 <= sqrt_pos a <= 2 ^ (ilog2 a / 2 + 1))%Q.
Proof.
  intros Ha. destruct (ilog2_spec a Ha) as [_ Hhi].
  unfold sqrt_pos. set (e := ilog2 a / 2).
  set (y := (a * 2 ^ (2 * (52 - e)))%Q).
  set (t := Z.sqrt (Qfloor y)).
  assert (ilog2 a + 1 <= 2 * e + 2) as He.
  { unfold e. pose proof (Z.div_mod (ilog2 a) 2).
    pose proof (Z.mod_pos_bound (ilog2 a) 2). lia. }
  assert (y < 2 ^ 106)%Q as Hy.
  { unfold y. rewrite (pow2_split (2 * e + 2) 106).
    replace (106 - (2 * e + 2)) with (2 * (52 - e)) by lia.
    apply Qmult_lt_compat_r; [apply pow2_pos|].
    eapply Qlt_le_trans; [exact Hhi|]. by apply pow2_le. }
  assert (0 <= Qfloor y) as Hf0.
  { change 0 with (Qfloor 0). apply Qfloor_resp_le.
    unfold y. apply Qmult_le_0_compat; [lra|]. apply Qlt_le_weak, pow2_pos. }
  assert (Qfloor y < 2 ^ 106) as Hf.
  { rewrite Zlt_Qlt, pow2_Z by lia.
    eapply Qle_lt_trans; [apply Qfloor_le|exact Hy]. }
  assert (0 <= t < 2 ^ 53) as Ht.
  { split; [apply Z.sqrt_nonneg|].
    apply Z.sqrt_lt_square; [done|lia|].
    by replace (2 ^ 53 * 2 ^ 53) with (2 ^ 106) by lia. }
  set (m := match (y ?= inject_Z (t * t + t) + (1 # 4))%Q with
            | Eq => if Z.even t then t else t + 1
            | Lt => t
            | Gt => t + 1
            end).
  assert (0 <= m <= 2 ^ 53) as Hm.
  { unfold m. destruct (_ ?= _)%Q; [destruct (Z.even t)| |]; lia. }
  pose proof (pow2_pos (e - 52)) as HP. split.
  - apply Qmult_le_0_compat; [|lra].
    change 0%Q with (inject_Z 0). rewrite <- Zle_Qle. lia.
  - rewrite (pow2_split 53 (e + 1)). replace (e + 1 - 53) with (e - 52) by lia.
    apply Qmult_le_compat_r; [|lra].
    rewrite <- pow2_Z by lia. rewrite <- Zle_Qle. lia.
Qed.

(** The root of a number up to 2^-29 is at most 2^-14. *)
Lemma Math_sqrt_small (x : Q) :
  (0 <= x <= 1 # 536870912)%Q →
  ∃ c : Q, Math_sqrt (Num x) = Num c ∧ (0 <= c <= 1 # 16384)%Q.
Proof.
  intros [H0 H1]. unfold Math_sqrt.
  pose proof (Qred_correct x) as Hr. pose proof (Qnum_sign (Qred x)) as Hs.
  destruct (Qnum (Qred x)); rewrite Hr in Hs.
  - exists 0%Q. split; [done|]. split; lra.
  - eexists. split; [done|]. rewrite Qred_correct.
    assert (0 < Qred x)%Q as Ha by (rewrite Hr; done).
    destruct (sqrt_pos_bounds (Qred x) Ha) as [B0 B1].
    split; [done|]. eapply Qle_trans; [exact B1|].
    destruct (ilog2_spec (Qred x) Ha) as [Hlo _].
    assert (ilog2 (Qred x) < -28) as Hlog.
    { apply pow2_lt_inv. eapply Qle_lt_trans; [exact Hlo|].
      rewrite Hr. eapply Qle_lt_trans; [exact H1|]. reflexivity. }
    change (1 # 16384)%Q with (2 ^ (-14))%Q. apply pow2_le.
    pose proof (Z.div_mod (ilog2 (Qred x)) 2).
    pose proof (Z.mod_pos_bound (ilog2 (Qred x)) 2). lia.
  - exfalso. lra.
Qed.

(** A number up to 2^-14 prints as 0.00. *)
Lemma toFixed2_small (c : Q) :
  (0 <= c <= 1 # 16384)%Q → toFixed2 (Num c) = ofZ 0.
Proof.
  intros [H0 H1]. unfold toFixed2.
  replace (Qle_bool 0 c) with true by (symmetry; by apply Qle_bool_iff).
  assert (Qfloor (c * 100 + (1 # 2)) = 0) as ->; [|vm_compute; reflexivity].
  apply Z.le_antisymm.
  - change 0 with (Qfloor ((1 # 16384) * 100 + (1 # 2))).
    apply Qfloor_resp_le. lra.
  - change 0 with (Qfloor (1 # 2)). apply Qfloor_resp_le. lra.
Qed.

(** An integer prints with two zero decimals and reads back as
    itself. *)
Lemma toFixed2_integer (z : Z) :
  0 <= z < 2 ^ 40 → toFixed2 (ofZ z) = ofZ z.
Proof.
  intros Hz. unfold toFixed2, ofZ, literal.
  replace (Qle_bool 0 (inject_Z z)) with true.
  2:{ symmetry. apply Qle_bool_iff. change 0%Q with (inject_Z 0).
      rewrite <- Zle_Qle. lia. }
  assert (Qfloor (inject_Z z * 100 + (1 # 2)) = 100 * z) as ->.
  { pose proof (Qfloor_le (inject_Z z * 100 + (1 # 2))) as Hlo.
    pose proof (Qlt_floor (inject_Z z * 100 + (1 # 2))) as Hhi.
    set (f := Qfloor _) in *.
    unfold Qle, Qlt, Qplus, Qmult, inject_Z in Hlo, Hhi.
    cbn [Qnum Qden] in Hlo, Hhi. lia. }
  f_equal. rewrite (binary64_comp (100 * z # 100) (inject_Z z)).
  - apply binary64_Z. lia.
  - unfold Qeq, inject_Z. cbn [Qnum Qden]. lia.
Qed.

(** The mean of [n] copies of a channel value is the value. *)
Lemma channel_mean (n : nat) (v : Z) :
  (1 ≤ n)%nat → Z.abs v < 2 ^ 53 →
  num_div (ofZ (Z.of_nat n * v)) (ofZ (Z.of_nat n)) = ofZ v.
Proof.
  intros Hn Hv. unfold num_div, ofZ.
  assert (0 < inject_Z (Z.of_nat n))%Q as HN.
  { change 0%Q with (inject_Z 0). rewrite <- Zlt_Qlt. lia. }
  replace (Qeq_bool (inject_Z (Z.of_nat n)) 0) with false.
  2:{ symmetry. apply not_true_iff_false. rewrite Qeq_bool_iff.
      intros Heq. rewrite Heq in HN. by apply Qlt_irrefl in HN. }
  f_equal. rewrite (binary64_comp _ (inject_Z v)); [by apply binary64_Z|].
  rewrite inject_Z_mult. field.
  intros Heq. rewrite Heq in HN. by apply Qlt_irrefl in HN.
Qed.

(** On a uniform image each loop of [calculateImageStats] is an iterated
    sum. *)
Lemma calculateImageStats_uniform (n : nat) (r g b : Z) :
  calculateImageStats (uniform_image n r g b)
  = let count := ofZ (Z.of_nat n) in
    let avgBrightness :=
      num_div (Nat.iter n (fun s => num_add s (brightness r g b)) (ofZ 0)) count in
    let varianceSum :=
      Nat.iter n (fun s => add_deviation avgBrightness s r g b) (ofZ 0) in
    Some {| averageBrightness := toFixed2 avgBrightness;
            averageContrast := toFixed2 (Math_sqrt (num_div varianceSum count));
            red := toFixed2 (num_div (ofZ (Z.of_nat n * r)) count);
            green := toFixed2 (num_div (ofZ (Z.of_nat n * g)) count);
            blue := toFixed2 (num_div (ofZ (Z.of_nat n * b)) count) |}.
Proof.
  unfold calculateImageStats.
  rewrite for_visible_pixels_uniform, accumulate_uniform.
  cbn [mbind option_bind totalBrightness totalRed totalGreen totalBlue pixelCount].
  by rewrite for_visible_pixels_uniform.
Qed.

Lemma binary64_between_doubles (lo hi x : Q) :
  binary64 lo = lo → binary64 hi = hi →
  (lo <= x <= hi)%Q → (lo <= binary64 x <= hi)%Q.
Proof.
  intros Hlo Hhi [H1 H2]. split.
  - rewrite <- Hlo. by apply binary64_mono.
  - rewrite <- Hhi. by apply binary64_mono.
Qed.

(** C5 (as amended): for a fully opaque image of one colour [(r, g, b)]
    with 1 to 2^28 pixels, [calculateImageStats] returns averageContrast
    0, colorDistribution [(r, g, b)], and an averageBrightness [h / 100]
    that is a nearest two-decimal value of [0.299 r + 0.587 g + 0.114 b]:
    with [V = 299 r + 587 g + 114 b], [10 h - 5 <= V <= 10 h + 5].  When
    the last digit of [V] is not 5 this is the sum rounded to two
    decimals; when it is 5 the sum is half-way between two values and
    [h / 100] is one of them, as the roundings of binary64 decide. *)
Theorem uniform_image_stats (n : nat) (r g b : Z) :
  (1 ≤ n)%nat → Z.of_nat n <= 2 ^ 28 →
  0 <= r <= 255 → 0 <= g <= 255 → 0 <= b <= 255 →
  ∃ h : Z,
    calculateImageStats (uniform_image n r g b)
    = Some {| averageBrightness := literal (h # 100);
              averageContrast := ofZ 0;
              red := ofZ r; green := ofZ g; blue := ofZ b |}
    ∧ 10 * h - 5 <= 299 * r + 587 * g + 114 * b <= 10 * h + 5.
Proof.
  intros Hn1 Hn Hr Hg Hb.
  destruct (brightness_bounds r g b Hr Hg Hb) as (β & Hβ & [Hβ0 Hβ1] & Hβlo & Hβhi).
  destruct (iter_add_bounds β n Hβ0 Hn) as (σ & Hσ & Hσlo & Hσhi).
  destruct (mean_bounds β σ n Hβ0 Hn1 Hσlo Hσhi) as (μ & Hμ & Hμlo & Hμhi).
  (* the deviation of a pixel from the mean, and its square *)
  set (δ := binary64 (β - μ)).
  set (sq := binary64 (δ * δ)).
  assert (- (1 # 32768) <= δ <= 1 # 32768)%Q as Hδ.
  { apply binary64_between_doubles; [vm_compute; reflexivity..|].
    unfold sum_error, unit_roundoff in *. split; lra. }
  assert (0 <= sq <= 1 # 1073741824)%Q as Hsq.
  { apply binary64_between_doubles; [vm_compute; reflexivity..|].
    destruct Hδ. split; nra. }
  destruct Hsq as [Hsq0 Hsq1].
  destruct (iter_add_bounds sq n Hsq0 Hn) as (ν & Hν & Hνlo & Hνhi).
  destruct (mean_bounds sq ν n Hsq0 Hn1 Hνlo Hνhi) as (var & Hvar & Hvarlo & Hvarhi).
  destruct (Math_sqrt_small var) as (c & Hc & Hcb).
  { unfold sum_error, unit_roundoff in *. split; lra. }
  (* the two-decimal brightness *)
  assert (0 <= μ)%Q as Hμ0 by (unfold sum_error, unit_roundoff in *; lra).
  exists (Qfloor (μ * 100 + (1 # 2))). split.
  - rewrite calculateImageStats_uniform. cbv zeta.
    unfold add_deviation. rewrite Hβ, Hσ, Hμ.
    rewrite !channel_mean by lia.
    rewrite !toFixed2_integer by lia.
    cbn [num_sub Math_pow2 num_mul]. fold δ. fold sq.
    rewrite Hν, Hvar, Hc, (toFixed2_small c Hcb).
    unfold toFixed2.
    replace (Qle_bool 0 μ) with true by (symmetry; by apply Qle_bool_iff).
    done.
  - pose proof (Qfloor_le (μ * 100 + (1 # 2))) as Hlo.
    pose proof (Qlt_floor (μ * 100 + (1 # 2))) as Hhi.
    set (h := Qfloor (μ * 100 + (1 # 2))) in *.
    generalize dependent (299 * r + 587 * g + 114 * b). intros V Hβlo Hβhi.
    assert (inject_Z (10 * h - 5) < inject_Z (V + 1))%Q as H1.
    { unfold Z.sub. rewrite !inject_Z_plus, inject_Z_mult.
      change (inject_Z 10) with 10%Q. change (inject_Z (- (5))) with (-5)%Q.
      change (inject_Z 1) with 1%Q.
      unfold sum_error, unit_roundoff in *.
      generalize dependent (inject_Z V).
      generalize dependent (inject_Z h). intros. lra. }
    assert (inject_Z V < inject_Z (10 * h + 6))%Q as H2.
    { rewrite inject_Z_plus in Hhi. rewrite inject_Z_plus, inject_Z_mult.
      change (inject_Z 10) with 10%Q. change (inject_Z 6) with 6%Q.
      change (inject_Z 1) with 1%Q in Hhi.
      unfold sum_error, unit_roundoff in *.
      generalize dependent (inject_Z V).
      generalize dependent (inject_Z h). intros. lra. }
    rewrite <- Zlt_Qlt in H1, H2. lia.
Qed.

(** A single pixel of colour (10, 20, 30): the brightness 18.15 is printed
    exactly. *)
Lemma uniform_image_stats_witness :
  calculateImageStats [10; 20; 30; 255]
  = Some {| averageBrightness := literal (1815 # 100);
            averageContrast := ofZ 0;
            red := ofZ 10; green := ofZ 20; blue := ofZ 30 |}.
Proof.
  destruct (uniform_image_stats 1 10 20 30) as (h & Hrun & Hh);
    [lia | simpl; lia | lia | lia | lia |].
  assert (h = 1815) as -> by lia. exact Hrun.
Defined.

(** C5, as stated, fails: for five opaque pixels of colour (0, 1, 62) the
    weighted sum is 7.655, which rounds to 7.66, and this is also what
    the brightness of one such pixel prints as; the average of the five
    rounded brightnesses prints as 7.65, which is the value returned. *)
Lemma uniform_image_counterexample :
  averageBrightness <$> calculateImageStats (uniform_image 5 0 1 62)
  = Some (literal (765 # 100))
  ∧ toFixed2 (brightness 0 1 62) = literal (766 # 100)
  ∧ (299 * 0 + 587 * 1 + 114 * 62 = 7655)%Z
  ∧ literal (765 # 100) ≠ literal (766 # 100).
Proof.
  split; [vm_compute; reflexivity|]. split; [vm_compute; reflexivity|].
  split; [reflexivity|]. vm_compute. discriminate.
Qed.

(** The colour of the example of the specification, pure red, on ten by
    ten pixels: 0.299 * 255 is 76.245, and the value returned is 76.24. *)
Example red_image_brightness :
  averageBrightness <$> calculateImageStats (uniform_image (10 * 10) 255 0 0)
  = Some (literal (7624 # 100)).
Proof.
  rewrite calculateImageStats_uniform. vm_compute. reflexivity.
Qed.

(** ** Hexadecimal colours *)

(** What [rgbToHex] does to one channel: [toString(16)], padded to two
    digits. *)
Lemma rgbToHex_channels (r g b : number) :
  rgbToHex r g b
  = String "#"
      (String.concat ""
         (map (fun x =>
                 let hex := toString16 x in
                 if (String.length hex =? 1)%nat then String "0" hex else hex)
              [r; g; b])).
Proof. reflexivity. Qed.

(** The 256 channel values, checked one by one: the padded digits are the
    two lowercase digits of the value, and they read back as the value. *)
Lemma channel_hex_check :
  forallb
    (fun n =>
       let x := Z.of_nat n in
       let hex := toString16 (ofZ x) in
       String.eqb (if (String.length hex =? 1)%nat then String "0" hex else hex)
                  (two_hex_digits x)
       && forallb is_lower_hex (list_ascii_of_string (two_hex_digits x))
       && match hex_pair (hex_digit (x / 16)) (hex_digit (x mod 16)) with
          | Some y => y =? x
          | None => false
          end)
    (seq 0 256)
  = true.
Proof. vm_compute. reflexivity. Qed.

Lemma channel_hex (x : Z) :
  0 <= x <= 255 →
  (let hex := toString16 (ofZ x) in
   if (String.length hex =? 1)%nat then String "0" hex else hex)
  = two_hex_digits x
  ∧ forallb is_lower_hex (list_ascii_of_string (two_hex_digits x)) = true
  ∧ hex_pair (hex_digit (x / 16)) (hex_digit (x mod 16)) = Some x.
Proof.
  intros Hx.
  pose proof channel_hex_check as Hall. rewrite forallb_forall in Hall.
  specialize (Hall (Z.to_nat x)). rewrite Z2Nat.id in Hall by lia.
  cbv zeta in Hall. rewrite !andb_true_iff in Hall.
  destruct Hall as [[Heq Hlow] Hback]; [apply in_seq; lia|].
  apply String.eqb_eq in Heq.
  destruct (hex_pair _ _) as [y|]; [|done]. apply Z.eqb_eq in Hback as ->.
  done.
Qed.

(** C8: for integers [r], [g], [b] between 0 and 255, [rgbToHex] writes a
    [#] followed by six lowercase hexadecimal digits, two per channel with
    a leading zero where needed, and reading that string back with
    [hexToRgb] gives [(r, g, b)]. *)
Theorem hex_round_trip (r g b : Z) :
  0 <= r <= 255 → 0 <= g <= 255 → 0 <= b <= 255 →
  rgbToHex (ofZ r) (ofZ g) (ofZ b)
  = String "#" (two_hex_digits r ++ two_hex_digits g ++ two_hex_digits b)%string
  ∧ String.length (rgbToHex (ofZ r) (ofZ g) (ofZ b)) = 7%nat
  ∧ forallb is_lower_hex
      (list_ascii_of_string
         (two_hex_digits r ++ two_hex_digits g ++ two_hex_digits b)%string) = true
  ∧ hexToRgb (rgbToHex (ofZ r) (ofZ g) (ofZ b)) = Some (r, g, b).
Proof.
  intros Hr Hg Hb.
  destruct (channel_hex r Hr) as (Er & Lr & Br).
  destruct (channel_hex g Hg) as (Eg & Lg & Bg).
  destruct (channel_hex b Hb) as (Eb & Lb & Bb).
  assert (rgbToHex (ofZ r) (ofZ g) (ofZ b)
          = String "#" (two_hex_digits r ++ two_hex_digits g ++ two_hex_digits b)%string)
    as Hhex.
  { rewrite rgbToHex_channels. cbn [map String.concat].
    cbv zeta in Er, Eg, Eb. rewrite Er, Eg, Eb. reflexivity. }
  rewrite Hhex. split; [done|]. split; [reflexivity|]. split.
  - unfold two_hex_digits in *. cbn [String.append list_ascii_of_string forallb] in *.
    rewrite !andb_true_iff in *. tauto.
  - unfold two_hex_digits. cbn [String.append hexToRgb].
    rewrite Br, Bg, Bb. reflexivity.
Qed.

(** The colour (255, 0, 10) is written [#ff000a] and read back. *)
Lemma hex_round_trip_witness :
  rgbToHex (ofZ 255) (ofZ 0) (ofZ 10) = "#ff000a"
  ∧ hexToRgb "#ff000a" = Some (255, 0, 10).
Proof.
  split; [reflexivity|].
  change "#ff000a" with (rgbToHex (ofZ 255) (ofZ 0) (ofZ 10)).
  apply (hex_round_trip 255 0 10); lia.
Defined.

(** ** The response parser *)

Lemma prefix_append (p q s : string) :
  String.prefix (p ++ q)%string s = true → String.prefix p s = true.
Proof.
  revert s. induction p as [|c p IH]; intros s; [by destruct s|].
  destruct s as [|d s]; cbn [String.append String.prefix]; [done|].
  destruct (ascii_dec c d); [apply IH|done].
Qed.

Lemma prefix_fence (s : string) :
  startsWith s "```json" = true → startsWith s "```" = true.
Proof. apply (prefix_append "```" "json"). Qed.

(** A response that does not open with a fence goes to [JSON.parse]
    trimmed, and otherwise as it is. *)
Lemma cleaned_unfenced (text : string) :
  startsWith (trim text) "```" = false → cleaned text = trim text.
Proof.
  intros Hno. unfold cleaned. rewrite Hno.
  destruct (startsWith (trim text) "```json") eqn:Hjson; [|done].
  apply prefix_fence in Hjson. congruence.
Qed.

Section GeminiFacts.
Variable Value : Type.
Variable JSON_parse : string → completion Value.
Variable empty_array : Value.

(** Whatever the text, the parser returns: the error of [JSON.parse] is
    caught. *)
Lemma parseJSONResponse_returns (text : string) (fallback : Value) :
  ∃ v, parseJSONResponse Value JSON_parse text fallback = Return v.
Proof.
  unfold parseJSONResponse, try_catch.
  destruct (JSON_parse (cleaned text)); eauto.
Qed.

(** A text that parses is returned parsed, not replaced. *)
Lemma parseJSONResponse_parsed (text : string) (fallback v : Value) :
  JSON_parse (cleaned text) = Return v →
  parseJSONResponse Value JSON_parse text fallback = Return v.
Proof. unfold parseJSONResponse. by intros ->. Qed.
End GeminiFacts.

(** C9: when the response text, trimmed and with its code fences
    removed, is not valid JSON ([JSON.parse] throws on it), the parser
    returns the fallback it was given and throws nothing; for an OCR
    response the fallback is the empty array, so [ocr] is [[]]. *)
Theorem malformed_response_falls_back (Value : Type)
    (JSON_parse : string → completion Value) (empty_array : Value)
    (text : string) (fallback : Value) (error : string) :
  JSON_parse (cleaned text) = Throw error →
  parseJSONResponse Value JSON_parse text fallback = Return fallback
  ∧ ocr_of_response Value JSON_parse empty_array text = Return empty_array.
Proof.
  intros Hthrow. unfold ocr_of_response, parseJSONResponse.
  by rewrite Hthrow.
Qed.

(** A fenced OCR answer cut short: after the fences are removed the
    array is still not closed, and [ocr] is the empty array. *)
Lemma malformed_response_falls_back_witness :
  let answer :=
    ("[{" ++ quoted "text" ++ ": " ++ quoted "Hello" ++ ", "
     ++ quoted "confidence" ++ ": 0.9")%string in
  let text := ("```json" ++ line_feed ++ answer ++ line_feed ++ "```")%string in
  cleaned text = (answer ++ line_feed)%string
  ∧ json_parse (cleaned text) = Throw "SyntaxError"
  ∧ ocr_of_response json json_parse (JArray []) text = Return (JArray []).
Proof.
  intros answer text.
  split; [reflexivity|]. split; [reflexivity|].
  apply (malformed_response_falls_back json json_parse (JArray []) text
           (JArray []) "SyntaxError").
  reflexivity.
Defined.

(** The same answer complete: the fences are removed and the array is
    returned. *)
Example fenced_response_parsed :
  let answer :=
    ("[{" ++ quoted "text" ++ ": " ++ quoted "Hello" ++ ", "
     ++ quoted "confidence" ++ ": 0.9}]")%string in
  parseJSONResponse json json_parse
    ("```json" ++ line_feed ++ answer ++ line_feed ++ "```")%string (JArray [])
  = Return (JArray [JObject [("text", JString "Hello");
                             ("confidence", JNumber "0.9")]]).
Proof. reflexivity. Qed.

(** * Further properties of the code *)

(** ** The palette *)

Lemma between_channels (lo hi c : rgb) :
  between lo hi c ↔
  (lo.1.1 <= c.1.1 <= hi.1.1) ∧ (lo.1.2 <= c.1.2 <= hi.1.2) ∧ (lo.2 <= c.2 <= hi.2).
Proof.
  split.
  - intros H. split; [exact (H 0%nat)|]. split; [exact (H 1%nat)|exact (H 2%nat)].
  - intros (H0 & H1 & H2) [|[|k]]; simpl; done.
Qed.

(** The channel sums of the base case stay between the bounds times the
    number of samples. *)
Lemma channel_sums_between (lo hi : rgb) (colors : list rgb) (acc : rgb) (n : Z) :
  Forall (between lo hi) colors →
  (∀ k : nat, n * chan k lo <= chan k acc <= n * chan k hi) →
  ∀ k : nat,
    (n + Z.of_nat (length colors)) * chan k lo
    <= chan k (fold_left
                 (fun avg c => (avg.1.1 + chan 0 c, avg.1.2 + chan 1 c, avg.2 + chan 2 c))
                 colors acc)
    <= (n + Z.of_nat (length colors)) * chan k hi.
Proof.
  intros Hall. revert acc n.
  induction Hall as [|c colors Hc Hall IH]; intros acc n Hacc k.
  - simpl. rewrite Z.add_0_r. apply Hacc.
  - cbn [fold_left]. rewrite length_cons, Nat2Z.inj_succ.
    replace (n + Z.succ (Z.of_nat (length colors)))
      with ((n + 1) + Z.of_nat (length colors)) by lia.
    apply IH. intros [|[|j]]; cbn [chan fst snd].
    + pose proof (Hacc 0%nat). pose proof (Hc 0%nat). simpl in *. lia.
    + pose proof (Hacc 1%nat). pose proof (Hc 1%nat). simpl in *. lia.
    + pose proof (Hacc 2%nat). pose proof (Hc 2%nat). simpl in *. lia.
Qed.

(** A rounded quotient of a sum of [n] integers between [lo] and [hi] is
    an integer between [lo] and [hi]. *)
Lemma rounded_mean_between (lo hi s n : Z) :
  Z.abs lo < 2 ^ 53 → Z.abs hi < 2 ^ 53 →
  0 < n → n * lo <= s <= n * hi →
  ∃ v : Z, Math_round (num_div (ofZ s) (ofZ n)) = ofZ v ∧ lo <= v <= hi.
Proof.
  intros Hlo Hhi Hn [H1 H2]. unfold num_div, ofZ.
  assert (0 < inject_Z n)%Q as HnQ.
  { change 0%Q with (inject_Z 0). by rewrite <- Zlt_Qlt. }
  replace (Qeq_bool (inject_Z n) 0) with false.
  2:{ symmetry. apply not_true_iff_false. rewrite Qeq_bool_iff.
      intros Heq. rewrite Heq in HnQ. by apply Qlt_irrefl in HnQ. }
  cbn [Math_round]. eexists. split; [reflexivity|].
  assert (inject_Z lo <= inject_Z s / inject_Z n <= inject_Z hi)%Q as Hq.
  { split.
    - apply Qle_shift_div_l; [done|]. rewrite <- inject_Z_mult, <- Zle_Qle. lia.
    - apply Qle_shift_div_r; [done|]. rewrite <- inject_Z_mult, <- Zle_Qle. lia. }
  apply (binary64_between lo hi) in Hq; [|done..].
  generalize dependent (binary64 (inject_Z s / inject_Z n)). intros x [Hx1 Hx2].
  pose proof (Qfloor_le (x + (1 # 2))) as Hf1.
  pose proof (Qlt_floor (x + (1 # 2))) as Hf2.
  set (f := Qfloor (x + (1 # 2))) in *.
  rewrite inject_Z_plus in Hf2. change (inject_Z 1) with 1%Q in Hf2.
  split.
  - assert (inject_Z (lo - 1) < inject_Z f)%Q as H; [|rewrite <- Zlt_Qlt in H; lia].
    unfold Z.sub. rewrite inject_Z_plus. change (inject_Z (- (1))) with (-1)%Q. lra.
  - assert (inject_Z f < inject_Z (hi + 1))%Q as H; [|rewrite <- Zlt_Qlt in H; lia].
    rewrite inject_Z_plus. change (inject_Z 1) with 1%Q. lra.
Qed.

(** The representative of a non-empty bucket has integer channels, each
    inside the interval the samples span on that channel. *)
Lemma average_between (lo hi : rgb) (colors : list rgb) :
  (∀ k : nat, Z.abs (chan k lo) < 2 ^ 53 ∧ Z.abs (chan k hi) < 2 ^ 53) →
  colors ≠ [] → Forall (between lo hi) colors →
  ∃ v : rgb, average colors = of_rgb v ∧ between lo hi v.
Proof.
  intros Hdouble Hne Hall. unfold average. cbv zeta.
  pose proof (channel_sums_between lo hi colors (0, 0, 0) 0 Hall) as Hsum.
  assert (0 < Z.of_nat (length colors)) as Hn by (destruct colors; [done|simpl; lia]).
  set (avg := fold_left _ colors (0, 0, 0)) in *.
  rewrite Z.add_0_l in Hsum.
  assert (∀ k : nat,
    Z.of_nat (length colors) * chan k lo <= chan k avg
    <= Z.of_nat (length colors) * chan k hi) as Hk.
  { intros k. apply Hsum. intros [|[|j]]; simpl; lia. }
  destruct (rounded_mean_between (chan 0 lo) (chan 0 hi) avg.1.1 _
              (proj1 (Hdouble 0%nat)) (proj2 (Hdouble 0%nat)) Hn (Hk 0%nat))
    as (r & -> & Hr).
  destruct (rounded_mean_between (chan 1 lo) (chan 1 hi) avg.1.2 _
              (proj1 (Hdouble 1%nat)) (proj2 (Hdouble 1%nat)) Hn (Hk 1%nat))
    as (g & -> & Hg).
  destruct (rounded_mean_between (chan 2 lo) (chan 2 hi) avg.2 _
              (proj1 (Hdouble 2%nat)) (proj2 (Hdouble 2%nat)) Hn (Hk 2%nat))
    as (b & -> & Hb).
  exists (r, g, b). split; [done|]. by intros [|[|k]].
Qed.

(** Every colour [medianCut] returns for a non-empty bucket has integer
    channels inside the box of the samples. *)
Lemma medianCut_between (argument_limit : nat) (lo hi : rgb) (colors : list rgb)
    (depth : Z) (palette : list color) :
  (∀ k : nat, Z.abs (chan k lo) < 2 ^ 53 ∧ Z.abs (chan k hi) < 2 ^ 53) →
  colors ≠ [] → Forall (between lo hi) colors →
  medianCut argument_limit colors depth = Returns palette →
  Forall (fun c => ∃ v : rgb, c = of_rgb v ∧ between lo hi v) palette.
Proof.
  intros Hdouble.
  assert (∀ (n : nat) (colors : list rgb) (depth : Z) (palette : list color),
    (length colors ≤ n)%nat → colors ≠ [] → Forall (between lo hi) colors →
    medianCut argument_limit colors depth = Returns palette →
    Forall (fun c => ∃ v : rgb, c = of_rgb v ∧ between lo hi v) palette) as Hgen.
  { clear colors depth palette.
    induction n as [|n IH]; intros cs d palette Hlen Hne Hall.
    - destruct cs; [done|simpl in Hlen; lia].
    - rewrite medianCut_unfold. destruct (is_leaf cs d) eqn:Hleaf.
      + intros [= <-]. apply Forall_singleton. by apply average_between.
      + destruct (halves_shorter _ _ Hleaf) as [Hl Hr].
        destruct (maxChannel argument_limit cs) as [axis|]; [|done].
        cbn [mbind outcome_mbind]. cbv zeta.
        assert (Forall (between lo hi) (sort_by_channel axis cs)) as Hsorted.
        { unfold sort_by_channel. by rewrite Array_sort_Permutation. }
        destruct (medianCut _ (take _ _) _) as [l|] eqn:Hrunl; [|done].
        destruct (medianCut _ (drop _ _) _) as [r|] eqn:Hrunr; [|done].
        cbn [mbind outcome_mbind mret outcome_mret]. intros [= <-].
        apply Forall_app. split.
        * apply IH in Hrunl;
            [done|rewrite left_half_length; lia| |by apply Forall_take].
          intros Heq. apply (f_equal length) in Heq.
          rewrite left_half_length in Heq. cbn [length] in Heq. lia.
        * apply IH in Hrunr;
            [done|rewrite right_half_length; lia| |by apply Forall_drop].
          intros Heq. apply (f_equal length) in Heq.
          rewrite right_half_length in Heq. cbn [length] in Heq. lia. }
  intros Hne Hall. by apply (Hgen (length colors)).
Qed.

(** Differences, products and sums of integers below 2^53 are exact. *)
Lemma num_sub_Z (a b : Z) :
  Z.abs (a - b) < 2 ^ 53 → num_sub (ofZ a) (ofZ b) = ofZ (a - b).
Proof.
  intros H. unfold num_sub, ofZ. f_equal.
  rewrite (binary64_comp _ (inject_Z (a - b))); [by apply binary64_Z|].
  unfold Z.sub. rewrite inject_Z_plus, inject_Z_opp. reflexivity.
Qed.

Lemma num_mul_Z (a b : Z) :
  Z.abs (a * b) < 2 ^ 53 → num_mul (ofZ a) (ofZ b) = ofZ (a * b).
Proof.
  intros H. unfold num_mul, ofZ. f_equal.
  rewrite (binary64_comp _ (inject_Z (a * b))); [by apply binary64_Z|].
  by rewrite inject_Z_mult.
Qed.

Lemma num_add_Z (a b : Z) :
  Z.abs (a + b) < 2 ^ 53 → num_add (ofZ a) (ofZ b) = ofZ (a + b).
Proof.
  intros H. unfold num_add, ofZ. f_equal.
  rewrite (binary64_comp _ (inject_Z (a + b))); [by apply binary64_Z|].
  by rewrite inject_Z_plus.
Qed.

Lemma Qred_Z (z : Z) : Qred (inject_Z z) = inject_Z z.
Proof. apply Qred_identity. simpl. apply Z.gcd_1_r. Qed.

(** The distance between two integer colours is the rounded root of the
    integer [square_distance]. *)
Lemma getColorDistance_Z (p v : rgb) :
  between (0, 0, 0) (255, 255, 255) p → between (0, 0, 0) (255, 255, 255) v →
  getColorDistance p (of_rgb v) = Math_sqrt (ofZ (square_distance p v))
  ∧ 0 <= square_distance p v <= 195075.
Proof.
  intros Hp Hv. apply between_channels in Hp, Hv. simpl in Hp, Hv.
  destruct p as [[pr pg] pb], v as [[vr vg] vb]. simpl in Hp, Hv.
  unfold getColorDistance, of_rgb, Math_pow2, square_distance. cbn [chan fst snd].
  assert (∀ a b, 0 <= a <= 255 → 0 <= b <= 255 →
            0 <= (a - b) * (a - b) <= 65025) as Hsq.
  { intros a b Ha Hb. assert (-255 <= a - b <= 255) as Hd by lia.
    generalize dependent (a - b). intros d Hd. nia. }
  pose proof (Hsq pr vr) as H1. pose proof (Hsq pg vg) as H2.
  pose proof (Hsq pb vb) as H3.
  rewrite !num_sub_Z by lia. rewrite !num_mul_Z by lia. rewrite !num_add_Z by lia.
  split; [done|lia].
Qed.

(** For an integer [s] up to 2^18 the rounded root is below 50 exactly
    when [s] is below 2500. *)
Lemma sqrt_below_50 (s : Z) :
  0 <= s < 2 ^ 18 →
  num_lt (Math_sqrt (ofZ s)) (ofZ 50) = (s <? 2500).
Proof.
  intros [Hs0 Hs1]. unfold Math_sqrt, ofZ. rewrite Qred_Z.
  destruct s as [|s|s]; [done| |lia]. cbn [inject_Z Qnum].
  change (Z.pos s # 1)%Q with (inject_Z (Z.pos s)).
  set (z := Z.pos s) in *. assert (0 < z) as Hz by done. clearbody z.
  unfold num_lt. f_equal.
  unfold sqrt_pos. rewrite ilog2_Z by done.
  assert (0 <= Z.log2 z < 18) as Hlog.
  { split; [apply Z.log2_nonneg|]. by apply Z.log2_lt_pow2. }
  set (e := Z.log2 z / 2).
  assert (0 <= e <= 8) as He.
  { unfold e. pose proof (Z.div_mod (Z.log2 z) 2).
    pose proof (Z.mod_pos_bound (Z.log2 z) 2). lia. }
  set (j := 52 - e). assert (44 <= j <= 52) as Hj by (unfold j; lia).
  replace (e - 52) with (- j) by (unfold j; lia).
  set (P := 2 ^ j).
  assert (2 ^ 44 <= P) as HP by (unfold P; apply Z.pow_le_mono_r; lia).
  assert (inject_Z z * 2 ^ (2 * j) == inject_Z (z * (P * P)))%Q as Hy.
  { rewrite inject_Z_mult. unfold P. rewrite <- Z.pow_add_r by lia.
    rewrite pow2_Z by lia. by replace (j + j) with (2 * j) by lia. }
  set (y := (inject_Z z * 2 ^ (2 * j))%Q) in *.
  assert (Qfloor y = z * (P * P)) as Hfl by (rewrite Hy; apply Qfloor_Z).
  rewrite Hfl.
  set (t := Z.sqrt (z * (P * P))).
  assert (0 <= z * (P * P)) as Hnn by nia.
  destruct (Z.sqrt_spec _ Hnn) as [Ht1 Ht2]. fold t in Ht1, Ht2.
  assert (0 <= t) as Ht0 by apply Z.sqrt_nonneg.
  set (m := match (y ?= inject_Z (t * t + t) + (1 # 4))%Q with
            | Eq => if Z.even t then t else t + 1
            | Lt => t
            | Gt => t + 1
            end).
  assert (t <= m <= t + 1) as Hm.
  { unfold m. destruct (_ ?= _)%Q; [destruct (Z.even t)| |]; lia. }
  assert (Qle_bool (inject_Z 50) (Qred (inject_Z m * 2 ^ (- j)))
          = (50 * P <=? m)) as ->.
  { apply eq_true_iff_eq. rewrite Qle_bool_iff, Qred_correct, Z.leb_le.
    rewrite Zle_Qle, inject_Z_mult. unfold P. rewrite pow2_Z by lia.
    pose proof (pow2_pos j) as Hpos. pose proof (pow2_cancel j) as Hc.
    split; intros H.
    - apply (Qmult_le_compat_r _ _ (2 ^ j)) in H; [|lra].
      rewrite <- Qmult_assoc, (Qmult_comm (2 ^ (- j))), Hc, Qmult_1_r in H. done.
    - apply (Qmult_le_compat_r _ _ (2 ^ (- j))) in H;
        [|apply Qlt_le_weak, pow2_pos].
      rewrite <- Qmult_assoc, Hc, Qmult_1_r in H. done. }
  destruct (Z.ltb_spec z 2500) as [Hlt|Hge].
  - (* the root is below 50 *)
    apply negb_true_iff, Z.leb_gt.
    assert (t < 50 * P - 1); [|lia].
    destruct (Z.lt_ge_cases t (50 * P - 1)) as [|Hbig]; [done|exfalso].
    assert ((50 * P - 1) * (50 * P - 1) <= t * t) by nia.
    assert (z * (P * P) <= 2499 * (P * P)) by nia.
    nia.
  - (* the root is 50 or more *)
    apply negb_false_iff, Z.leb_le.
    assert (50 * P <= t); [|lia].
    destruct (Z.le_gt_cases (50 * P) t) as [|Hsmall]; [done|exfalso].
    assert ((t + 1) * (t + 1) <= 50 * P * (50 * P)) by nia.
    assert (2500 * (P * P) <= z * (P * P)) by nia.
    lia.
Qed.

(** The test [getColorDistance(pixel, color) < 50] between integer
    colours is the integer test on the squared distance. *)
Lemma near_test (p v : rgb) :
  between (0, 0, 0) (255, 255, 255) p → between (0, 0, 0) (255, 255, 255) v →
  num_lt (getColorDistance p (of_rgb v)) (ofZ 50) = (square_distance p v <? 2500).
Proof.
  intros Hp Hv. destruct (getColorDistance_Z p v Hp Hv) as [-> Hs].
  apply sqrt_below_50. lia.
Qed.

(** *** Palette entries *)

Lemma count_near_filter (sampledColors : list rgb) (c : color) :
  count_near sampledColors c
  = Z.of_nat (length (List.filter
                        (fun pixel => num_lt (getColorDistance pixel c) (ofZ 50))
                        sampledColors)).
Proof.
  unfold count_near.
  assert (∀ count : Z,
    fold_left
      (fun count pixel =>
         if num_lt (getColorDistance pixel c) (ofZ 50) then count + 1 else count)
      sampledColors count
    = count + Z.of_nat (length (List.filter
                (fun pixel => num_lt (getColorDistance pixel c) (ofZ 50))
                sampledColors))) as Hgen.
  { induction sampledColors as [|pixel l IH]; intros count; simpl; [lia|].
    rewrite IH. destruct (num_lt _ _); simpl; lia. }
  apply Hgen.
Qed.

Lemma filter_ext_Forall {A : Type} (f g : A → bool) (l : list A) :
  Forall (fun x => f x = g x) l → List.filter f l = List.filter g l.
Proof.
  induction 1 as [|x l Hx _ IH]; [done|]. simpl. by rewrite Hx, IH.
Qed.

Lemma filter_all {A : Type} (l : list A) : List.filter (fun _ => true) l = l.
Proof. induction l as [|x l IH]; [done|]. simpl. by rewrite IH. Qed.

(** What an entry of the palette is made of, for a colour with channels
    from 0 to 255. *)
Lemma rgbToHex_bytes (r g b : Z) :
  0 <= r <= 255 → 0 <= g <= 255 → 0 <= b <= 255 →
  rgbToHex (ofZ r) (ofZ g) (ofZ b)
  = String "#" (two_hex_digits r ++ two_hex_digits g ++ two_hex_digits b)%string.
Proof.
  intros Hr Hg Hb.
  destruct (channel_hex r Hr) as (Er & _). destruct (channel_hex g Hg) as (Eg & _).
  destruct (channel_hex b Hb) as (Eb & _).
  rewrite rgbToHex_channels. cbn [map String.concat].
  cbv zeta in Er, Eg, Eb. rewrite Er, Eg, Eb. reflexivity.
Qed.

Lemma lookup_total_byte (pixels : list Z) (i : nat) :
  Forall is_byte pixels → is_byte (pixels !!! i).
Proof.
  intros Hall. rewrite list_lookup_total_alt.
  destruct (pixels !! i) as [v|] eqn:Hat; simpl.
  - rewrite Forall_forall in Hall. apply Hall. by eapply list_elem_of_lookup_2.
  - unfold is_byte. cbv. split; discriminate.
Qed.

Lemma sampler_spec_bytes (pixels : list Z) :
  Forall is_byte pixels →
  Forall (between (0, 0, 0) (255, 255, 255)) (sampler_spec pixels).
Proof.
  intros Hall. unfold sampler_spec. apply Forall_fmap, Forall_forall.
  intros i _. simpl. apply between_channels. unfold triple_at. simpl.
  pose proof (lookup_total_byte pixels i Hall).
  pose proof (lookup_total_byte pixels (i + 1) Hall).
  pose proof (lookup_total_byte pixels (i + 2) Hall).
  unfold is_byte in *. lia.
Qed.

Lemma bytes_are_doubles (k : nat) :
  Z.abs (chan k (0, 0, 0)) < 2 ^ 53 ∧ Z.abs (chan k (255, 255, 255)) < 2 ^ 53.
Proof. destruct k as [|[|k]]; simpl; lia. Qed.

(** The entries of the summary of a non-empty sample list of canvas
    colours. *)
Lemma summarize_bytes (argument_limit : nat) (sampledColors : list rgb)
    (numColors : Z) (entries : list ColorInfo) :
  sampledColors ≠ [] →
  Forall (between (0, 0, 0) (255, 255, 255)) sampledColors →
  summarize argument_limit sampledColors numColors = Returns entries →
  Forall (fun e =>
            ∃ r g b : Z,
              (0 <= r <= 255 ∧ 0 <= g <= 255 ∧ 0 <= b <= 255)
              ∧ rgb_r e = ofZ r ∧ rgb_g e = ofZ g ∧ rgb_b e = ofZ b
              ∧ hex e = String "#" (two_hex_digits r ++ two_hex_digits g
                                    ++ two_hex_digits b)%string)
         entries.
Proof.
  intros Hne Hall (palette & sorted & Hp & _ & _ & ->)%summarize_returns.
  rewrite Array_sort_Permutation. apply Forall_fmap.
  eapply Forall_impl;
    [apply (medianCut_between argument_limit (0, 0, 0) (255, 255, 255)
              sampledColors numColors);
       [apply bytes_are_doubles|done..]|].
  intros c (v & -> & Hv). apply between_channels in Hv. simpl in Hv.
  destruct v as [[r g] b]. simpl in *.
  exists r, g, b. split; [lia|]. repeat split.
  apply rgbToHex_bytes; lia.
Qed.

(** *** The palette of a uniform image *)

Lemma uniform_image_lookup (n : nat) (r g b : Z) (k : nat) :
  (k < n)%nat →
  uniform_image n r g b !! (4 * k)%nat = Some r
  ∧ uniform_image n r g b !! (4 * k + 1)%nat = Some g
  ∧ uniform_image n r g b !! (4 * k + 2)%nat = Some b
  ∧ uniform_image n r g b !! (4 * k + 3)%nat = Some 255.
Proof.
  revert k. induction n as [|n IH]; intros k Hk; [lia|].
  destruct k as [|k]; [done|].
  replace (4 * S k)%nat with (S (S (S (S (4 * k))))) by lia.
  cbn [uniform_image Nat.add lookup list_lookup]. apply IH. lia.
Qed.

(** The multiples of 40 below [m]: one for every 40 offsets begun. *)
Lemma sampled_offsets_count (m : nat) :
  length (List.filter (fun i => (i mod 40 =? 0)%nat) (seq 0 m)) = ((m + 39) / 40)%nat.
Proof.
  induction m as [|m IH]; [done|].
  rewrite seq_S, List.filter_app, length_app, IH. cbn [Nat.add seq List.filter].
  pose proof (Nat.div_mod_eq m 40). pose proof (Nat.mod_upper_bound m 40).
  pose proof (Nat.div_mod_eq (m + 39) 40). pose proof (Nat.mod_upper_bound (m + 39) 40).
  pose proof (Nat.div_mod_eq (S (m + 39)) 40).
  pose proof (Nat.mod_upper_bound (S (m + 39)) 40).
  destruct (m mod 40 =? 0)%nat eqn:Hm; [apply Nat.eqb_eq in Hm|apply Nat.eqb_neq in Hm];
    cbn [length]; lia.
Qed.

(** One pixel in ten of a uniform image is sampled, the first one
    included. *)
Lemma sampler_uniform (n : nat) (r g b : Z) :
  sampler (uniform_image n r g b) = Some (replicate ((n + 9) / 10) (r, g, b)).
Proof.
  rewrite (sampler_on_image _ n 1) by (rewrite uniform_image_length; lia).
  f_equal. symmetry. apply replicate_as_Forall. unfold sampler_spec, sampled_offsets.
  rewrite uniform_image_length.
  assert (Forall (fun i => ∃ k, i = (4 * k)%nat ∧ (k < n)%nat)
            (List.filter (fun i => (i mod 40 =? 0)%nat) (seq 0 (4 * n)))) as Hoff.
  { apply Forall_forall. intros i Hi. apply list_elem_of_In, filter_In in Hi.
    destruct Hi as [[_ Hlt]%in_seq Hmod%Nat.eqb_eq].
    exists (i / 4)%nat. pose proof (Nat.div_mod_eq i 40). pose proof (Nat.div_mod_eq i 4).
    pose proof (Nat.mod_upper_bound i 4). lia. }
  assert (List.filter (fun i => 128 <=? alpha_at (uniform_image n r g b) i)
            (List.filter (fun i => (i mod 40 =? 0)%nat) (seq 0 (4 * n)))
          = List.filter (fun i => (i mod 40 =? 0)%nat) (seq 0 (4 * n))) as ->.
  { rewrite (filter_ext_Forall _ (fun _ => true)).
    - apply filter_all.
    - eapply Forall_impl; [exact Hoff|]. intros i (k & -> & Hk). simpl.
      unfold alpha_at. destruct (uniform_image_lookup n r g b k Hk) as (_ & _ & _ & Ha).
      by rewrite (list_lookup_total_correct _ _ _ Ha). }
  split.
  - rewrite length_map, sampled_offsets_count.
    pose proof (Nat.div_mod_eq (n + 9) 10). pose proof (Nat.mod_upper_bound (n + 9) 10).
    pose proof (Nat.div_mod_eq (4 * n + 39) 40).
    pose proof (Nat.mod_upper_bound (4 * n + 39) 40). lia.
  - apply Forall_fmap. eapply Forall_impl; [exact Hoff|].
    intros i (k & -> & Hk). simpl. unfold triple_at.
    destruct (uniform_image_lookup n r g b k Hk) as (Hr & Hg & Hb & _).
    by rewrite (list_lookup_total_correct _ _ _ Hr),
      (list_lookup_total_correct _ _ _ Hg), (list_lookup_total_correct _ _ _ Hb).
Qed.

(** Sorting equal elements leaves them as they are. *)
Lemma Array_sort_replicate {A : Type} (compareFn : A → A → number) (x : A) (n : nat) :
  keeps_order compareFn x x = true →
  Array_sort compareFn (replicate n x) = replicate n x.
Proof.
  intros Hx. induction n as [|n IH]; [done|].
  cbn [replicate Array_sort]. rewrite IH. destruct n as [|n]; [done|].
  cbn [replicate sort_insert]. by rewrite Hx.
Qed.

Lemma square_distance_same (c : rgb) : square_distance c c = 0.
Proof. unfold square_distance. lia. Qed.

Lemma channel_mean_one (m : nat) :
  (1 ≤ m)%nat → num_div (ofZ (Z.of_nat m)) (ofZ (Z.of_nat m)) = ofZ 1.
Proof.
  intros Hm. rewrite <- (channel_mean m 1) by (done || (simpl; lia)).
  by rewrite Z.mul_1_r.
Qed.

(** A summary whose first split is refused throws. *)
Lemma summarize_throws (argument_limit : nat) (sampledColors : list rgb)
    (numColors : Z) :
  refused argument_limit sampledColors numColors →
  summarize argument_limit sampledColors numColors = RangeError.
Proof.
  intros Hover%medianCut_throws_iff. unfold summarize. by rewrite Hover.
Qed.

(** The summary of [m] equal samples within the argument limit: the colour
    itself at 100 %, as many times as [medianCut] has leaves. *)
Lemma summarize_replicate (argument_limit m : nat) (r g b : Z) (depth : nat) :
  (1 ≤ m)%nat → 0 <= r <= 255 → 0 <= g <= 255 → 0 <= b <= 255 →
  (3 ≤ argument_limit)%nat → (m ≤ argument_limit)%nat →
  summarize argument_limit (replicate m (r, g, b)) (Z.of_nat depth)
  = Returns
      (replicate (m `min` 2 ^ depth)
         {| hex := String "#" (two_hex_digits r ++ two_hex_digits g
                               ++ two_hex_digits b)%string;
            rgb_r := ofZ r; rgb_g := ofZ g; rgb_b := ofZ b;
            percentage := ofZ 100 |}).
Proof.
  intros Hm Hr Hg Hb H3 Hfits.
  set (c := (r, g, b)).
  assert (between (0, 0, 0) (255, 255, 255) c) as Hc
    by (apply between_channels; simpl; lia).
  assert (replicate m c ≠ []) as Hne by (destruct m; [lia|done]).
  destruct (summarize_outcome argument_limit (replicate m c) (Z.of_nat depth))
    as [[entries Hrun]|[_ (_ & _ & Hover)]];
    [|rewrite length_replicate in Hover; lia].
  rewrite Hrun. f_equal.
  apply summarize_returns in Hrun as (palette & sorted & Hp & _ & Hperm & ->).
  (* the palette *)
  assert (palette = replicate (m `min` 2 ^ depth) (of_rgb c)) as ->.
  { symmetry. apply replicate_as_Forall. split.
    - rewrite (medianCut_length _ _ _ _ Hp), length_replicate. lia.
    - eapply Forall_impl;
        [apply (medianCut_between argument_limit c c (replicate m c) (Z.of_nat depth));
           [|done| |done]|].
      + intros k. destruct k as [|[|k]]; simpl; lia.
      + apply Forall_replicate. intros k. lia.
      + intros col (v & -> & Hv). apply between_channels in Hv.
        destruct v as [[vr vg] vb]. simpl in Hv. unfold of_rgb, c. simpl.
        repeat f_equal; lia. }
  (* the samples, sorted or not *)
  assert (Forall (eq c) sorted) as Hsame
    by (rewrite Hperm; apply Forall_replicate_eq).
  assert (length sorted = m) as Hlen by (by rewrite Hperm, length_replicate).
  assert (count_near sorted (of_rgb c) = Z.of_nat m) as Hcount.
  { rewrite count_near_filter, (filter_ext_Forall _ (fun _ => true)).
    - by rewrite filter_all, Hlen.
    - eapply Forall_impl; [exact Hsame|]. intros p <-. cbv beta.
      by rewrite near_test, square_distance_same. }
  rewrite fmap_replicate, Hcount, Hlen.
  rewrite channel_mean_one by lia.
  unfold of_rgb, c. cbn [fst snd].
  rewrite rgbToHex_bytes by done.
  rewrite (num_mul_Z 1 100) by (simpl; lia). rewrite toFixed2_integer by (simpl; lia).
  by apply Array_sort_replicate.
Qed.

(** *** The number of samples *)

Lemma filter_length_bound {A : Type} (f : A → bool) (l : list A) :
  (length (List.filter f l) ≤ length l)%nat.
Proof. induction l as [|x l IH]; [done|]. simpl. destruct (f x); simpl; lia. Qed.

(** One sample at most for every ten pixels begun, and exactly that many
    when no sampled pixel is transparent. *)
Lemma sampler_spec_count (pixels : list Z) (W H : nat) :
  length pixels = (4 * W * H)%nat →
  (length (sampler_spec pixels) ≤ (W * H + 9) / 10)%nat
  ∧ ((∀ i a, (i mod 4 = 3)%nat → pixels !! i = Some a → 128 <= a) →
     length (sampler_spec pixels) = ((W * H + 9) / 10)%nat).
Proof.
  intros Hlen. unfold sampler_spec, sampled_offsets. rewrite length_map.
  assert (length (List.filter (fun i => (i mod 40 =? 0)%nat) (seq 0 (length pixels)))
          = ((W * H + 9) / 10)%nat) as Hcount.
  { rewrite sampled_offsets_count, Hlen.
    pose proof (Nat.div_mod_eq (W * H + 9) 10).
    pose proof (Nat.mod_upper_bound (W * H + 9) 10).
    pose proof (Nat.div_mod_eq (4 * W * H + 39) 40).
    pose proof (Nat.mod_upper_bound (4 * W * H + 39) 40). lia. }
  split.
  - rewrite <- Hcount. apply filter_length_bound.
  - intros Hopaque. rewrite <- Hcount. f_equal.
    rewrite (filter_ext_Forall _ (fun _ => true)); [apply filter_all|].
    apply Forall_forall. intros i Hi. apply list_elem_of_In, filter_In in Hi.
    destruct Hi as [[_ Hlt]%in_seq Hmod%Nat.eqb_eq]. simpl in Hlt.
    pose proof (Nat.div_mod_eq i 40).
    assert (i + 3 < length pixels)%nat as Hin.
    { pose proof (Nat.div_mod_eq (length pixels) 4).
      assert (length pixels mod 4 = 0)%nat
        by (rewrite Hlen, <- Nat.mul_assoc, Nat.mul_comm; apply Nat.Div0.mod_mul).
      lia. }
    unfold alpha_at.
    destruct (lookup_lt_is_Some_2 pixels (i + 3)%nat Hin) as [a Ha].
    rewrite (list_lookup_total_correct _ _ _ Ha).
    apply Z.leb_le. apply (Hopaque (i + 3)%nat); [|done].
    replace (i + 3)%nat with (3 + (10 * (i / 40)) * 4)%nat by lia.
    by rewrite Nat.Div0.mod_add.
Qed.

(** *** What the sampler reads *)

Lemma filter_ext_in {A : Type} (f g : A → bool) (l : list A) :
  (∀ x, In x l → f x = g x) → List.filter f l = List.filter g l.
Proof.
  induction l as [|x l IH]; [done|]. intros Hall. simpl.
  rewrite (Hall x) by (by left). rewrite IH; [done|].
  intros y Hy. apply Hall. by right.
Qed.

(** Two buffers of one length that agree on every tenth pixel give the
    same samples. *)
Lemma sampler_spec_ext (pixels pixels' : list Z) :
  length pixels = length pixels' →
  (∀ i, (i mod 40 < 4)%nat → pixels !! i = pixels' !! i) →
  sampler_spec pixels = sampler_spec pixels'.
Proof.
  intros Hlen Hsame. unfold sampler_spec, sampled_offsets. rewrite <- Hlen.
  assert (∀ i k, (i mod 40 = 0)%nat → (k < 4)%nat →
            pixels !!! (i + k)%nat = pixels' !!! (i + k)%nat) as Hat.
  { intros i k Hi Hk. rewrite !list_lookup_total_alt, Hsame; [done|].
    rewrite <- Nat.Div0.add_mod_idemp_l, Hi. cbn [Nat.add].
    rewrite Nat.mod_small; lia. }
  set (offsets := List.filter (fun i => (i mod 40 =? 0)%nat) (seq 0 (length pixels))).
  assert (∀ i, In i offsets → (i mod 40 = 0)%nat) as Hoff.
  { intros i Hi. apply filter_In in Hi as [_ Hi]. by apply Nat.eqb_eq. }
  rewrite (filter_ext_in (fun i => 128 <=? alpha_at pixels i)
             (fun i => 128 <=? alpha_at pixels' i) offsets).
  2:{ intros i Hi. unfold alpha_at. by rewrite (Hat i 3%nat) by (auto || lia). }
  apply map_ext_in. intros i Hi. apply filter_In in Hi as [Hi _].
  unfold triple_at. pose proof (Hat i 0%nat (Hoff i Hi)) as H0.
  rewrite Nat.add_0_r in H0. rewrite H0 by lia.
  by rewrite (Hat i 1%nat), (Hat i 2%nat) by (auto || lia).
Qed.

(** *** The hexadecimal form *)

(** Two channel values from 0 to 255 with the same two digits are the
    same. *)
Lemma two_hex_digits_inj (x y : Z) :
  0 <= x <= 255 → 0 <= y <= 255 → two_hex_digits x = two_hex_digits y → x = y.
Proof.
  intros Hx Hy Heq. destruct (channel_hex x Hx) as (_ & _ & Bx).
  destruct (channel_hex y Hy) as (_ & _ & By).
  unfold two_hex_digits in Heq. injection Heq as H1 H2.
  rewrite H1, H2, By in Bx. by injection Bx.
Qed.

(** X1: every colour [medianCut] returns for a non-empty bucket of canvas
    colours has integer channels, and each channel lies between the
    smallest and the largest value the samples take on it: the palette
    stays inside any box that holds the samples.  (The call returns no
    colour only when it splits more samples than the engine takes
    arguments.) *)
Theorem medianCut_stays_in_box (argument_limit : nat) (lo hi : rgb)
    (colors : list rgb) (depth : Z) :
  between (0, 0, 0) (255, 255, 255) lo → between (0, 0, 0) (255, 255, 255) hi →
  colors ≠ [] → Forall (between lo hi) colors →
  match medianCut argument_limit colors depth with
  | Returns palette =>
      Forall (fun c => ∃ v : rgb, c = of_rgb v ∧ between lo hi v) palette
  | RangeError => refused argument_limit colors depth
  end.
Proof.
  intros Hlo Hhi Hne Hall.
  destruct (medianCut_outcome argument_limit colors depth)
    as [[palette Hp]|[Hp Hover]]; rewrite Hp; [|done].
  apply (medianCut_between argument_limit lo hi colors depth); [|done..].
  intros k. pose proof (Hlo k) as H1. pose proof (Hhi k) as H2.
  destruct k as [|[|k]]; simpl in *; lia.
Qed.

Lemma medianCut_stays_in_box_witness :
  ∃ palette : list color,
    medianCut example_limit [(10, 20, 30); (50, 60, 70); (20, 0, 40)] 8
    = Returns palette
    ∧ Forall (fun c => ∃ v : rgb, c = of_rgb v ∧ between (10, 0, 30) (50, 60, 70) v)
             palette.
Proof.
  pose proof (medianCut_stays_in_box example_limit (10, 0, 30) (50, 60, 70)
                [(10, 20, 30); (50, 60, 70); (20, 0, 40)] 8) as Hbox.
  assert (medianCut example_limit [(10, 20, 30); (50, 60, 70); (20, 0, 40)] 8
          = Returns [(ofZ 20, ofZ 0, ofZ 40); (ofZ 10, ofZ 20, ofZ 30);
                     (ofZ 50, ofZ 60, ofZ 70)]) as Hrun
    by (vm_compute; reflexivity).
  rewrite Hrun in Hbox. eexists. split; [exact Hrun|]. apply Hbox.
  - intros [|[|k]]; simpl; lia.
  - intros [|[|k]]; simpl; lia.
  - discriminate.
  - repeat first [apply Forall_nil_2 | apply Forall_cons_2];
      intros [|[|k]]; simpl; lia.
Defined.

(** X2: for samples and a palette colour with integer channels from 0 to
    255, the count behind a percentage is the number of samples whose
    squared distance to the colour, computed on the integers, is below
    2500: the rounded square root never moves a sample across the
    threshold 50. *)
Theorem near_count_is_integer_test (sampledColors : list rgb) (v : rgb) :
  Forall (between (0, 0, 0) (255, 255, 255)) sampledColors →
  between (0, 0, 0) (255, 255, 255) v →
  count_near sampledColors (of_rgb v)
  = Z.of_nat (length (List.filter (fun p => square_distance p v <? 2500)
                                  sampledColors)).
Proof.
  intros Hall Hv. rewrite count_near_filter. do 2 f_equal.
  apply filter_ext_Forall. eapply Forall_impl; [exact Hall|].
  intros p Hp. cbv beta. by apply near_test.
Qed.

(** Of three samples at squared distances 2500, 2499 and 0 from the
    colour (0, 0, 0), two are counted. *)
Lemma near_count_is_integer_test_witness :
  count_near [(30, 40, 0); (30, 39, 2); (0, 0, 0)] (of_rgb (0, 0, 0)) = 2.
Proof.
  apply (near_count_is_integer_test [(30, 40, 0); (30, 39, 2); (0, 0, 0)] (0, 0, 0)).
  - repeat first [apply Forall_nil_2 | apply Forall_cons_2];
      intros [|[|k]]; simpl; lia.
  - intros [|[|k]]; simpl; lia.
Defined.

(** X3: on the buffer of an image with channel values from 0 to 255 and
    a sampled pixel that is not transparent, the entries
    [extractColorPalette] returns have [rgb] channels that are integers
    from 0 to 255 and a [hex] that is [#] followed by the two lowercase
    hexadecimal digits of each of these channels.  The call returns
    entries whenever the engine takes one argument per sample (and three
    at least); it throws only when [medianCut] splits more samples than
    the engine takes arguments. *)
Theorem palette_entries_are_colours (argument_limit : nat) (pixels : list Z)
    (W H : nat) (numColors : Z) :
  length pixels = (4 * W * H)%nat → Forall is_byte pixels →
  sampler pixels ≠ Some [] →
  ∃ result : outcome (list ColorInfo),
    extractColorPalette argument_limit pixels numColors = Some result
    ∧ match result with
      | Returns entries =>
          Forall (fun e =>
                    ∃ r g b : Z,
                      (0 <= r <= 255 ∧ 0 <= g <= 255 ∧ 0 <= b <= 255)
                      ∧ rgb_r e = ofZ r ∧ rgb_g e = ofZ g ∧ rgb_b e = ofZ b
                      ∧ hex e = String "#" (two_hex_digits r ++ two_hex_digits g
                                            ++ two_hex_digits b)%string)
                 entries
      | RangeError => refused argument_limit (sampler_spec pixels) numColors
      end
    ∧ ((3 ≤ argument_limit)%nat →
       (length (sampler_spec pixels) ≤ argument_limit)%nat →
       ∃ entries : list ColorInfo, result = Returns entries).
Proof.
  intros Hlen Hbytes Hsome. unfold extractColorPalette.
  rewrite (sampler_on_image _ _ _ Hlen) in *. cbn [mbind option_bind].
  eexists. split; [done|].
  destruct (summarize_outcome argument_limit (sampler_spec pixels) numColors)
    as [[entries Hrun]|[Hrun Hover]]; rewrite Hrun.
  - split; [|by eexists].
    apply (summarize_bytes argument_limit (sampler_spec pixels) numColors);
      [|by apply sampler_spec_bytes|done].
    intros Heq. by rewrite Heq in Hsome.
  - split; [done|]. intros H3 Hfits. destruct Hover as (_ & _ & [?|?]); lia.
Qed.

Lemma palette_entries_are_colours_witness :
  ∃ entries : list ColorInfo,
    extractColorPalette example_limit [10; 20; 30; 255; 200; 100; 50; 0] 8
    = Some (Returns entries)
    ∧ Forall (fun e =>
                ∃ r g b : Z,
                  (0 <= r <= 255 ∧ 0 <= g <= 255 ∧ 0 <= b <= 255)
                  ∧ rgb_r e = ofZ r ∧ rgb_g e = ofZ g ∧ rgb_b e = ofZ b
                  ∧ hex e = String "#" (two_hex_digits r ++ two_hex_digits g
                                        ++ two_hex_digits b)%string)
             entries.
Proof.
  destruct (palette_entries_are_colours example_limit
              [10; 20; 30; 255; 200; 100; 50; 0] 2 1 8)
    as (result & Hrun & Hentries & _).
  - reflexivity.
  - repeat first [apply Forall_nil_2 | apply Forall_cons_2]; unfold is_byte; lia.
  - vm_compute. discriminate.
  - assert (extractColorPalette example_limit [10; 20; 30; 255; 200; 100; 50; 0] 8
            = Some (Returns [ {| hex := "#0a141e"; rgb_r := ofZ 10; rgb_g := ofZ 20;
                                 rgb_b := ofZ 30; percentage := ofZ 100 |} ]))
      as Hvalue by (vm_compute; reflexivity).
    rewrite Hvalue in Hrun. injection Hrun as <-.
    eexists. split; [exact Hvalue|exact Hentries].
Defined.

(** X4: for an opaque image of [n] pixels of one colour, on an engine
    that takes one argument per sample (one sample for every ten pixels
    begun, and three arguments at least), the palette that
    [extractColorPalette] returns with its default [numColors] is the
    entry of that colour at 100 %, repeated once per sample up to 256
    times: [min (ceil (n / 10)) 256] equal entries.  With more samples
    than the engine takes arguments the call throws. *)
Theorem uniform_image_palette (argument_limit n : nat) (r g b : Z) :
  (1 ≤ n)%nat → 0 <= r <= 255 → 0 <= g <= 255 → 0 <= b <= 255 →
  (3 ≤ argument_limit)%nat →
  extractColorPalette_default argument_limit (uniform_image n r g b)
  = Some (if ((n + 9) / 10 <=? argument_limit)%nat
          then Returns
                 (replicate (((n + 9) / 10) `min` 256)
                    {| hex := String "#" (two_hex_digits r ++ two_hex_digits g
                                          ++ two_hex_digits b)%string;
                       rgb_r := ofZ r; rgb_g := ofZ g; rgb_b := ofZ b;
                       percentage := ofZ 100 |})
          else RangeError).
Proof.
  intros Hn Hr Hg Hb H3. unfold extractColorPalette_default, extractColorPalette.
  rewrite sampler_uniform. cbn [mbind option_bind]. f_equal.
  pose proof (Nat.div_mod_eq (n + 9) 10).
  pose proof (Nat.mod_upper_bound (n + 9) 10).
  destruct (Nat.leb_spec ((n + 9) / 10) argument_limit) as [Hfits|Hover].
  - change 8 with (Z.of_nat 8). rewrite summarize_replicate; [done|lia|done..].
  - apply summarize_throws. unfold refused. rewrite length_replicate.
    split; [done|]. split; [lia|]. by left.
Qed.

(** On the example engine: twenty-five orange pixels give three samples
    and three equal entries; a red image of 1920 by 1080 pixels gives
    207360 samples, and the call throws. *)
Lemma uniform_image_palette_witness :
  let entry :=
    {| hex := "#ff8000"; rgb_r := ofZ 255; rgb_g := ofZ 128; rgb_b := ofZ 0;
       percentage := ofZ 100 |} in
  extractColorPalette_default example_limit (uniform_image 25 255 128 0)
  = Some (Returns [entry; entry; entry])
  ∧ extractColorPalette_default example_limit
      (uniform_image (Z.to_nat (1920 * 1080)) 255 0 0)
    = Some RangeError.
Proof.
  intros entry. split.
  - rewrite (uniform_image_palette example_limit 25 255 128 0);
      [reflexivity | lia | lia | lia | lia | unfold example_limit; lia].
  - rewrite (uniform_image_palette example_limit (Z.to_nat (1920 * 1080)) 255 0 0);
      [|lia | lia | lia | lia | unfold example_limit; lia].
    replace ((Z.to_nat (1920 * 1080) + 9) / 10 <=? example_limit)%nat with false;
      [reflexivity|].
    symmetry. apply Nat.leb_gt. unfold example_limit.
    pose proof (Nat.div_mod_eq (Z.to_nat (1920 * 1080) + 9) 10).
    pose proof (Nat.mod_upper_bound (Z.to_nat (1920 * 1080) + 9) 10). lia.
Defined.

(** X5: on the buffer of a [W] by [H] image the sampler keeps one sample
    at most for every ten pixels begun, [ceil (W * H / 10)], and exactly
    that many when no pixel is transparent. *)
Theorem sampler_count (pixels : list Z) (W H : nat) :
  length pixels = (4 * W * H)%nat →
  ∃ sampledColors : list rgb,
    sampler pixels = Some sampledColors
    ∧ (length sampledColors ≤ (W * H + 9) / 10)%nat
    ∧ ((∀ i a, (i mod 4 = 3)%nat → pixels !! i = Some a → 128 <= a) →
       length sampledColors = ((W * H + 9) / 10)%nat).
Proof.
  intros Hlen. rewrite (sampler_on_image _ _ _ Hlen). eexists. split; [done|].
  by apply sampler_spec_count.
Qed.

Lemma sampler_count_witness :
  ∃ sampledColors : list rgb,
    sampler (uniform_image 11 1 2 3) = Some sampledColors
    ∧ (length sampledColors ≤ (11 * 1 + 9) / 10)%nat
    ∧ ((∀ i a, (i mod 4 = 3)%nat → uniform_image 11 1 2 3 !! i = Some a → 128 <= a) →
       length sampledColors = ((11 * 1 + 9) / 10)%nat).
Proof.
  apply (sampler_count (uniform_image 11 1 2 3) 11 1). reflexivity.
Defined.

(** X6: [extractColorPalette] reads one pixel in ten and nothing else:
    two buffers of one image size that agree on the four entries of
    every tenth pixel, the first one included, give the same palette (or
    throw alike). *)
Theorem palette_reads_every_tenth_pixel (argument_limit : nat)
    (pixels pixels' : list Z) (W H : nat) (numColors : Z) :
  length pixels = (4 * W * H)%nat → length pixels' = length pixels →
  (∀ i, (i mod 40 < 4)%nat → pixels !! i = pixels' !! i) →
  extractColorPalette argument_limit pixels numColors
  = extractColorPalette argument_limit pixels' numColors.
Proof.
  intros Hlen Hlen' Hsame. unfold extractColorPalette.
  rewrite (sampler_on_image pixels W H Hlen).
  rewrite (sampler_on_image pixels' W H) by congruence.
  by rewrite (sampler_spec_ext pixels pixels').
Qed.

(** Eleven pixels: the second one, which is not sampled, changes
    nothing. *)
Lemma palette_reads_every_tenth_pixel_witness :
  extractColorPalette example_limit
    ([1; 2; 3; 255; 9; 9; 9; 255] ++ uniform_image 9 7 7 7) 8
  = extractColorPalette example_limit
      ([1; 2; 3; 255; 200; 0; 0; 0] ++ uniform_image 9 7 7 7) 8.
Proof.
  apply (palette_reads_every_tenth_pixel example_limit
           ([1; 2; 3; 255; 9; 9; 9; 255] ++ uniform_image 9 7 7 7)
           ([1; 2; 3; 255; 200; 0; 0; 0] ++ uniform_image 9 7 7 7) 11 1 8).
  - reflexivity.
  - reflexivity.
  - intros i Hi.
    do 4 (destruct i as [|i]; [reflexivity|]).
    do 4 (destruct i as [|i]; [exfalso; simpl in Hi; lia|]).
    reflexivity.
Defined.

(** X7: [rgbToHex] tells colours apart: two colours with integer
    channels from 0 to 255 that are written the same are the same. *)
Theorem rgbToHex_injective (r g b r' g' b' : Z) :
  0 <= r <= 255 → 0 <= g <= 255 → 0 <= b <= 255 →
  0 <= r' <= 255 → 0 <= g' <= 255 → 0 <= b' <= 255 →
  rgbToHex (ofZ r) (ofZ g) (ofZ b) = rgbToHex (ofZ r') (ofZ g') (ofZ b') →
  r = r' ∧ g = g' ∧ b = b'.
Proof.
  intros Hr Hg Hb Hr' Hg' Hb' Heq. rewrite !rgbToHex_bytes in Heq by done.
  unfold two_hex_digits in Heq. cbn [String.append] in Heq.
  injection Heq as H1 H2 H3 H4 H5 H6.
  repeat split; apply two_hex_digits_inj; try done; unfold two_hex_digits; congruence.
Qed.

Lemma rgbToHex_injective_witness :
  rgbToHex (ofZ 255) (ofZ 128) (ofZ 0) = "#ff8000"%string
  ∧ (255 = 255 ∧ 128 = 128 ∧ 0 = 0).
Proof.
  split; [reflexivity|].
  apply (rgbToHex_injective 255 128 0 255 128 0); [lia..|reflexivity].
Defined.

(** ** The statistics *)

Lemma length_mod_4_tail (r g b a : Z) (rest : list Z) :
  (length (r :: g :: b :: a :: rest) mod 4 = 0)%nat → (length rest mod 4 = 0)%nat.
Proof.
  cbn [length]. intros H.
  pose proof (Nat.div_mod_eq (length rest) 4).
  pose proof (Nat.mod_upper_bound (length rest) 4).
  pose proof (Nat.div_mod_eq (S (S (S (S (length rest))))) 4). lia.
Qed.

(** A loop of stride 4 runs its body on the eligible pixels, in order. *)
Lemma loop_opaque_pixels {St : Type} (body : St → Z → Z → Z → St)
    (fuel : nat) (pre pixels : list Z) (s : St) :
  (length pixels mod 4 = 0)%nat → (length pixels < 4 * fuel)%nat →
  visible_pixels_loop fuel 4 (pre ++ pixels) (length pre) body s
  = Some (fold_left (fun s (c : rgb) => body s c.1.1 c.1.2 c.2)
            (opaque_pixels pixels) s).
Proof.
  revert pre pixels s. induction fuel as [|fuel IH]; intros pre pixels s Hmod Hfuel; [lia|].
  rewrite visible_pixels_loop_S.
  destruct pixels as [|r [|g [|b [|a rest]]]]; try (simpl in Hmod; discriminate).
  - rewrite app_nil_r, Nat.ltb_irrefl. done.
  - replace (Nat.ltb (length pre) (length (pre ++ r :: g :: b :: a :: rest)))
      with true by (symmetry; apply Nat.ltb_lt; rewrite length_app; simpl; lia).
    rewrite !lookup_app_r by lia.
    replace (length pre - length pre)%nat with 0%nat by lia.
    replace (length pre + 1 - length pre)%nat with 1%nat by lia.
    replace (length pre + 2 - length pre)%nat with 2%nat by lia.
    replace (length pre + 3 - length pre)%nat with 3%nat by lia.
    cbn [lookup list_lookup opaque_pixels].
    change (r :: g :: b :: a :: rest) with ([r; g; b; a] ++ rest).
    rewrite app_assoc.
    replace (length pre + 4)%nat with (length (pre ++ [r; g; b; a]))
      by (rewrite length_app; simpl; lia).
    assert (length rest mod 4 = 0)%nat as Hrest by (by eapply length_mod_4_tail).
    simpl in Hfuel.
    destruct (a <? 128); rewrite IH by (done || lia); done.
Qed.

Lemma for_opaque_pixels {St : Type} (body : St → Z → Z → Z → St)
    (pixels : list Z) (s : St) :
  (length pixels mod 4 = 0)%nat →
  for_visible_pixels 4 pixels body s
  = Some (fold_left (fun s (c : rgb) => body s c.1.1 c.1.2 c.2)
            (opaque_pixels pixels) s).
Proof.
  intros Hmod. unfold for_visible_pixels.
  apply (loop_opaque_pixels body _ [] pixels s Hmod). lia.
Qed.

Lemma opaque_pixels_app (pre post : list Z) :
  (length pre mod 4 = 0)%nat →
  opaque_pixels (pre ++ post) = opaque_pixels pre ++ opaque_pixels post.
Proof.
  assert (∀ (n : nat) (pre : list Z), (length pre ≤ n)%nat →
            (length pre mod 4 = 0)%nat →
            opaque_pixels (pre ++ post) = opaque_pixels pre ++ opaque_pixels post) as Hgen.
  { induction n as [|n IH]; intros l Hlen Hmod.
    - destruct l; [done|simpl in Hlen; lia].
    - destruct l as [|r [|g [|b [|a rest]]]]; try (simpl in Hmod; discriminate); [done|].
      assert (length rest mod 4 = 0)%nat as Hrest by (by eapply length_mod_4_tail).
      cbn [app opaque_pixels]. simpl in Hlen.
      rewrite IH by (done || lia). by destruct (a <? 128). }
  intros Hmod. by apply (Hgen (length pre)).
Qed.

(** The statistics are a function of the eligible pixels. *)
Lemma calculateImageStats_opaque (pixels : list Z) :
  (length pixels mod 4 = 0)%nat →
  calculateImageStats pixels
  = let visible := opaque_pixels pixels in
    let t := fold_left (fun t (c : rgb) => accumulate t c.1.1 c.1.2 c.2) visible no_totals in
    let count := ofZ (pixelCount t) in
    let avgBrightness := num_div (totalBrightness t) count in
    let varianceSum :=
      fold_left (fun s (c : rgb) => add_deviation avgBrightness s c.1.1 c.1.2 c.2)
                visible (ofZ 0) in
    Some {| averageBrightness := toFixed2 avgBrightness;
            averageContrast := toFixed2 (Math_sqrt (num_div varianceSum count));
            red := toFixed2 (num_div (ofZ (totalRed t)) count);
            green := toFixed2 (num_div (ofZ (totalGreen t)) count);
            blue := toFixed2 (num_div (ofZ (totalBlue t)) count) |}.
Proof.
  intros Hmod. unfold calculateImageStats.
  rewrite for_opaque_pixels by done. cbn [mbind option_bind].
  by rewrite for_opaque_pixels.
Qed.

Lemma length_mod_4_app (pre post : list Z) :
  (length pre mod 4 = 0)%nat → (length post mod 4 = 0)%nat →
  (length (pre ++ post) mod 4 = 0)%nat.
Proof.
  intros H1 H2. rewrite length_app.
  rewrite <- Nat.Div0.add_mod_idemp_l, H1. simpl. done.
Qed.

(** *** The range of the statistics *)

(** The brightness sum of up to 2^28 canvas pixels stays below the count
    times 255, up to the relative error of the sum; the channel sums and
    the pixel count are exact. *)
Lemma accumulate_bounds (visible : list rgb) (t : totals) (k : Z) (σ : Q) :
  Forall (between (0, 0, 0) (255, 255, 255)) visible →
  0 <= k → k + Z.of_nat (length visible) <= 2 ^ 28 →
  totalBrightness t = Num σ →
  (0 <= σ <= inject_Z k * (255 + (1 # 1099511627776)) * (1 + sum_error))%Q →
  0 <= totalRed t <= 255 * k → 0 <= totalGreen t <= 255 * k →
  0 <= totalBlue t <= 255 * k → pixelCount t = k →
  let t' := fold_left (fun t (c : rgb) => accumulate t c.1.1 c.1.2 c.2) visible t in
  let n := k + Z.of_nat (length visible) in
  (∃ σ' : Q,
     totalBrightness t' = Num σ'
     ∧ (0 <= σ' <= inject_Z n * (255 + (1 # 1099511627776)) * (1 + sum_error))%Q)
  ∧ 0 <= totalRed t' <= 255 * n ∧ 0 <= totalGreen t' <= 255 * n
  ∧ 0 <= totalBlue t' <= 255 * n ∧ pixelCount t' = n.
Proof.
  intros Hall. revert t k σ.
  induction Hall as [|c visible Hc Hall IH]; intros t k σ Hk Hn Hσ Hb Hr Hg Hbl Hcount.
  - cbn [fold_left length]. rewrite Z.add_0_r. eauto 10.
  - cbn [fold_left]. rewrite length_cons, Nat2Z.inj_succ in *.
    replace (k + Z.succ (Z.of_nat (length visible)))
      with ((k + 1) + Z.of_nat (length visible)) by lia.
    apply between_channels in Hc. destruct c as [[r g] b]. simpl in Hc.
    destruct (brightness_bounds r g b) as (β & Hβ & [Hβ0 _] & _ & Hβhi); [lia..|].
    assert (β <= 255 + (1 # 1099511627776))%Q as Hβ1.
    { eapply Qle_trans; [exact Hβhi|].
      assert (inject_Z (299 * r + 587 * g + 114 * b) <= inject_Z 255000)%Q as Hw
        by (rewrite <- Zle_Qle; lia).
      change (inject_Z 255000) with 255000%Q in Hw.
      generalize dependent (inject_Z (299 * r + 587 * g + 114 * b)). intros; lra. }
    eapply (IH _ (k + 1) (binary64 (σ + β))); cbn [fst snd]; try lia.
    + unfold accumulate. cbn [totalBrightness]. by rewrite Hσ, Hβ.
    + assert (0 <= inject_Z k <= 268435456)%Q as HK.
      { change 0%Q with (inject_Z 0). change 268435456%Q with (inject_Z (2 ^ 28)).
        rewrite <- !Zle_Qle. lia. }
      rewrite inject_Z_plus. change (inject_Z 1) with 1%Q.
      destruct (binary64_error_nonneg (σ + β)) as [E1 E2]; [lra|].
      unfold sum_error, unit_roundoff in *.
      generalize dependent (inject_Z k). intros K ? ?.
      generalize dependent (binary64 (σ + β)). intros σ' E1 E2.
      split; lra.
    + unfold accumulate. cbn [totalRed]. lia.
    + unfold accumulate. cbn [totalGreen]. lia.
    + unfold accumulate. cbn [totalBlue]. lia.
    + unfold accumulate. cbn [pixelCount]. lia.
Qed.

(** A sum of rounded squares is a number, and not below zero. *)
Lemma variance_nonneg (visible : list rgb) (μ v : Q) :
  Forall (between (0, 0, 0) (255, 255, 255)) visible → (0 <= v)%Q →
  ∃ v' : Q,
    fold_left (fun s (c : rgb) => add_deviation (Num μ) s c.1.1 c.1.2 c.2)
              visible (Num v) = Num v'
    ∧ (0 <= v')%Q.
Proof.
  intros Hall. revert v. induction Hall as [|c visible Hc Hall IH]; intros v Hv.
  - by exists v.
  - cbn [fold_left]. apply between_channels in Hc. destruct c as [[r g] b].
    simpl in Hc. cbn [fst snd].
    destruct (brightness_bounds r g b) as (β & Hβ & _); [lia..|].
    unfold add_deviation. rewrite Hβ. cbn [num_sub Math_pow2 num_mul num_add].
    apply IH. apply binary64_nonneg.
    assert (0 <= binary64 (binary64 (β - μ) * binary64 (β - μ)))%Q; [|lra].
    apply binary64_nonneg. generalize (binary64 (β - μ)). intros d. nra.
Qed.

Lemma Math_sqrt_nonneg (x : Q) :
  (0 <= x)%Q → ∃ c : Q, Math_sqrt (Num x) = Num c ∧ (0 <= c)%Q.
Proof.
  intros H0. unfold Math_sqrt.
  pose proof (Qred_correct x) as Hr. pose proof (Qnum_sign (Qred x)) as Hs.
  destruct (Qnum (Qred x)); rewrite Hr in Hs.
  - exists 0%Q. split; [done|lra].
  - eexists. split; [done|]. rewrite Qred_correct.
    assert (0 < Qred x)%Q as Ha by (rewrite Hr; done).
    by destruct (sqrt_pos_bounds (Qred x) Ha) as [B0 _].
  - exfalso. lra.
Qed.

Lemma toFixed2_nonneg (q : Q) :
  (0 <= q)%Q → ∃ p : Q, toFixed2 (Num q) = Num p ∧ (0 <= p)%Q.
Proof.
  intros H0. unfold toFixed2, literal.
  replace (Qle_bool 0 q) with true by (symmetry; by apply Qle_bool_iff).
  eexists. split; [done|]. apply binary64_nonneg.
  assert (0 <= Qfloor (q * 100 + (1 # 2))) as Hf.
  { change 0 with (Qfloor 0). apply Qfloor_resp_le. lra. }
  unfold Qle. cbn [Qnum Qden]. lia.
Qed.

(** A number from 0 to less than [hi + 0.005] prints as a two-decimal
    value from 0 to [hi]. *)
Lemma toFixed2_upto (hi : Z) (q : Q) :
  0 <= hi < 2 ^ 40 → (0 <= q)%Q → (q < inject_Z hi + (1 # 200))%Q →
  ∃ p : Q, toFixed2 (Num q) = Num p ∧ (0 <= p <= inject_Z hi)%Q.
Proof.
  intros Hhi H0 H1. unfold toFixed2, literal.
  replace (Qle_bool 0 q) with true by (symmetry; by apply Qle_bool_iff).
  eexists. split; [done|].
  pose proof (Qfloor_le (q * 100 + (1 # 2))) as Hf1.
  assert (0 <= Qfloor (q * 100 + (1 # 2))) as Hf0.
  { change 0 with (Qfloor 0). apply Qfloor_resp_le. lra. }
  set (f := Qfloor (q * 100 + (1 # 2))) in *.
  assert (f <= 100 * hi) as Hf2.
  { assert (inject_Z f < inject_Z (100 * hi + 1))%Q as H; [|rewrite <- Zlt_Qlt in H; lia].
    rewrite inject_Z_plus, inject_Z_mult. change (inject_Z 100) with 100%Q.
    change (inject_Z 1) with 1%Q. generalize dependent (inject_Z hi).
    generalize dependent (inject_Z f). intros; lra. }
  apply (binary64_between 0 hi); [simpl; lia|lia|].
  unfold Qle. cbn [Qnum Qden inject_Z]. lia.
Qed.

Lemma num_div_pos (a : Q) (n : Z) :
  0 < n → num_div (Num a) (ofZ n) = Num (binary64 (a / inject_Z n)).
Proof.
  intros Hn. unfold num_div, ofZ.
  assert (0 < inject_Z n)%Q as HnQ.
  { change 0%Q with (inject_Z 0). by rewrite <- Zlt_Qlt. }
  replace (Qeq_bool (inject_Z n) 0) with false; [done|].
  symmetry. apply not_true_iff_false. rewrite Qeq_bool_iff.
  intros Heq. rewrite Heq in HnQ. by apply Qlt_irrefl in HnQ.
Qed.

(** The printed mean of a channel lies between 0 and 255. *)
Lemma channel_mean_range (s n : Z) :
  0 < n → 0 <= s <= 255 * n →
  ∃ p : Q, toFixed2 (num_div (ofZ s) (ofZ n)) = Num p ∧ (0 <= p <= 255)%Q.
Proof.
  intros Hn Hs. unfold ofZ at 1. rewrite num_div_pos by done.
  assert (0 < inject_Z n)%Q as HnQ.
  { change 0%Q with (inject_Z 0). by rewrite <- Zlt_Qlt. }
  assert (inject_Z 0 <= inject_Z s / inject_Z n <= inject_Z 255)%Q as Hq.
  { split.
    - apply Qle_shift_div_l; [done|]. rewrite <- inject_Z_mult, <- Zle_Qle. lia.
    - apply Qle_shift_div_r; [done|]. rewrite <- inject_Z_mult, <- Zle_Qle. lia. }
  apply (binary64_between 0 255) in Hq; [|done..].
  change (inject_Z 0) with 0%Q in Hq. change (inject_Z 255) with 255%Q in Hq.
  destruct (toFixed2_upto 255 (binary64 (inject_Z s / inject_Z n))) as (p & Hp & Hb);
    [lia|lra|change (inject_Z 255) with 255%Q; lra|].
  exists p. split; [done|]. by change (inject_Z 255) with 255%Q in Hb.
Qed.

Lemma opaque_pixels_bytes (pixels : list Z) :
  Forall is_byte pixels →
  Forall (between (0, 0, 0) (255, 255, 255)) (opaque_pixels pixels).
Proof.
  assert (∀ (n : nat) (pixels : list Z), (length pixels ≤ n)%nat →
            Forall is_byte pixels →
            Forall (between (0, 0, 0) (255, 255, 255)) (opaque_pixels pixels)) as Hgen.
  { induction n as [|n IH]; intros l Hlen Hall.
    - destruct l; [constructor|simpl in Hlen; lia].
    - destruct l as [|r [|g [|b [|a rest]]]]; try constructor.
      apply Forall_cons in Hall as [Hr Hall]. apply Forall_cons in Hall as [Hg Hall].
      apply Forall_cons in Hall as [Hb Hall]. apply Forall_cons in Hall as [_ Hall].
      simpl in Hlen. cbn [opaque_pixels].
      destruct (a <? 128); [apply IH; [lia|done]|].
      constructor; [|apply IH; [lia|done]].
      apply between_channels. unfold is_byte in *. simpl. lia. }
  by apply (Hgen (length pixels)).
Qed.

Lemma opaque_pixels_length (pixels : list Z) :
  (4 * length (opaque_pixels pixels) ≤ length pixels)%nat.
Proof.
  assert (∀ (n : nat) (pixels : list Z), (length pixels ≤ n)%nat →
            (4 * length (opaque_pixels pixels) ≤ length pixels)%nat) as Hgen.
  { induction n as [|n IH]; intros l Hlen.
    - destruct l; [done|simpl in Hlen; lia].
    - destruct l as [|r [|g [|b [|a rest]]]]; try (simpl; lia).
      simpl in Hlen. cbn [opaque_pixels].
      pose proof (IH rest). destruct (a <? 128); simpl length; lia. }
  by apply (Hgen (length pixels)).
Qed.

(** A buffer of whole pixels without eligible pixel in the sense of the
    loops has none in the sense of [no_eligible_pixel]. *)
Lemma opaque_pixels_none (pixels : list Z) :
  opaque_pixels pixels = [] → (length pixels mod 4 = 0)%nat →
  no_eligible_pixel pixels.
Proof.
  assert (∀ (n : nat) (pixels : list Z), (length pixels ≤ n)%nat →
            opaque_pixels pixels = [] → (length pixels mod 4 = 0)%nat →
            no_eligible_pixel pixels) as Hgen.
  { induction n as [|n IH]; intros l Hlen Hnone Hmod.
    - destruct l; [|simpl in Hlen; lia]. by intros i x _ Hat.
    - destruct l as [|r [|g [|b [|a rest]]]]; try (simpl in Hmod; discriminate).
      cbn [opaque_pixels] in Hnone. destruct (a <? 128) eqn:Ha; [|done].
      apply Z.ltb_lt in Ha. simpl in Hlen.
      pose proof (IH rest ltac:(lia) Hnone (length_mod_4_tail _ _ _ _ _ Hmod)) as Hrest.
      intros i x Hi Hat.
      destruct i as [|[|[|[|i]]]]; try (simpl in Hi; discriminate).
      + simpl in Hat. by injection Hat as <-.
      + simpl in Hat. apply (Hrest i x); [|done].
        replace (S (S (S (S i)))) with (i + 1 * 4)%nat in Hi by lia.
        by rewrite Nat.Div0.mod_add in Hi. }
  by apply (Hgen (length pixels)).
Qed.

(** With an eligible pixel, and up to 2^28 of them, the five statistics
    are numbers: means and brightness from 0 to 255, contrast not below
    0. *)
Lemma stats_of_opaque_pixels (pixels : list Z) :
  (length pixels mod 4 = 0)%nat → Z.of_nat (length pixels) <= 4 * 2 ^ 28 →
  Forall is_byte pixels → opaque_pixels pixels ≠ [] →
  ∃ br ct rd gr bl : Q,
    calculateImageStats pixels
    = Some {| averageBrightness := Num br; averageContrast := Num ct;
              red := Num rd; green := Num gr; blue := Num bl |}
    ∧ (0 <= br <= 255)%Q ∧ (0 <= ct)%Q
    ∧ (0 <= rd <= 255)%Q ∧ (0 <= gr <= 255)%Q ∧ (0 <= bl <= 255)%Q.
Proof.
  intros Hmod Hsize Hbytes Hne. rewrite calculateImageStats_opaque by done. cbv zeta.
  pose proof (opaque_pixels_bytes pixels Hbytes) as Hall.
  pose proof (opaque_pixels_length pixels) as Hlen.
  set (visible := opaque_pixels pixels) in *.
  assert (0 < Z.of_nat (length visible)) as Hn by (destruct visible; [done|simpl; lia]).
  destruct (accumulate_bounds visible no_totals 0 0 Hall) as
    ((σ & Hσ & Hσ0 & Hσ1) & Hr & Hg & Hb & Hcount);
    try (cbn [totalRed totalGreen totalBlue pixelCount no_totals]; lia); [done| |].
  { change (inject_Z 0) with 0%Q. split; lra. }
  rewrite Z.add_0_l in *. set (t := fold_left _ visible no_totals) in *.
  rewrite Hσ, Hcount, num_div_pos by done.
  (* the mean brightness *)
  assert (0 < inject_Z (Z.of_nat (length visible)))%Q as HnQ.
  { change 0%Q with (inject_Z 0). by rewrite <- Zlt_Qlt. }
  assert (0 <= σ / inject_Z (Z.of_nat (length visible))
          <= (255 + (1 # 1099511627776)) * (1 + sum_error))%Q as [Hm0 Hm1].
  { split.
    - apply Qle_shift_div_l; [done|]. lra.
    - apply Qle_shift_div_r; [done|]. eapply Qle_trans; [exact Hσ1|].
      apply Qle_lteq. right. ring. }
  destruct (binary64_error_nonneg _ Hm0) as [_ E].
  pose proof (binary64_nonneg _ Hm0) as Hμ0.
  set (μ := binary64 (σ / inject_Z (Z.of_nat (length visible)))) in *.
  destruct (toFixed2_upto 255 μ) as (br & -> & Hbr); [lia|done| |].
  { change (inject_Z 255) with 255%Q. unfold sum_error, unit_roundoff in *.
    generalize dependent (σ / inject_Z (Z.of_nat (length visible)))%Q. intros; lra. }
  (* the contrast *)
  destruct (variance_nonneg visible μ 0 Hall) as (v & Hv & Hv0); [lra|].
  change (ofZ 0) with (Num 0). rewrite Hv, num_div_pos by done.
  destruct (Math_sqrt_nonneg (binary64 (v / inject_Z (Z.of_nat (length visible)))))
    as (c & -> & Hc).
  { apply binary64_nonneg. apply Qle_shift_div_l; [done|]. lra. }
  destruct (toFixed2_nonneg c Hc) as (ct & -> & Hct).
  (* the channel means *)
  destruct (channel_mean_range (totalRed t) _ Hn Hr) as (rd & -> & Hrd).
  destruct (channel_mean_range (totalGreen t) _ Hn Hg) as (gr & -> & Hgr).
  destruct (channel_mean_range (totalBlue t) _ Hn Hb) as (bl & -> & Hbl).
  exists br, ct, rd, gr, bl. change (inject_Z 255) with 255%Q in Hbr. done.
Qed.

(** X8: [calculateImageStats] does not see transparent pixels: a pixel
    with alpha below 128 put anywhere between the pixels of a buffer,
    whatever its colour, leaves the five statistics as they are. *)
Theorem transparent_pixels_ignored (pre post : list Z) (r g b a : Z) :
  (length pre mod 4 = 0)%nat → (length post mod 4 = 0)%nat → a < 128 →
  calculateImageStats (pre ++ [r; g; b; a] ++ post)
  = calculateImageStats (pre ++ post).
Proof.
  intros Hpre Hpost Ha.
  rewrite !calculateImageStats_opaque
    by (repeat (apply length_mod_4_app; try done)).
  rewrite !opaque_pixels_app by done.
  cbn [app opaque_pixels]. by replace (a <? 128) with true by lia.
Qed.

Lemma transparent_pixels_ignored_witness :
  calculateImageStats ([10; 20; 30; 255] ++ [200; 100; 50; 127] ++ [40; 50; 60; 128])
  = calculateImageStats ([10; 20; 30; 255] ++ [40; 50; 60; 128]).
Proof.
  apply (transparent_pixels_ignored [10; 20; 30; 255] [40; 50; 60; 128] 200 100 50 127);
    [reflexivity | reflexivity | lia].
Defined.

(** X9: on the buffer of an image of up to 2^28 pixels with channel
    values from 0 to 255, of which one pixel or more is eligible, the
    five statistics are numbers and none is [NaN]: the three channel
    means and the brightness lie between 0 and 255, the contrast is not
    negative. *)
Theorem statistics_in_range (pixels : list Z) (W H : nat) :
  length pixels = (4 * W * H)%nat → Z.of_nat (W * H) <= 2 ^ 28 →
  Forall is_byte pixels → ¬ no_eligible_pixel pixels →
  ∃ br ct rd gr bl : Q,
    calculateImageStats pixels
    = Some {| averageBrightness := Num br; averageContrast := Num ct;
              red := Num rd; green := Num gr; blue := Num bl |}
    ∧ (0 <= br <= 255)%Q ∧ (0 <= ct)%Q
    ∧ (0 <= rd <= 255)%Q ∧ (0 <= gr <= 255)%Q ∧ (0 <= bl <= 255)%Q.
Proof.
  intros Hlen Hsize Hbytes Hsome.
  assert (length pixels mod 4 = 0)%nat as Hmod
    by (rewrite Hlen, <- Nat.mul_assoc, Nat.mul_comm; apply Nat.Div0.mod_mul).
  apply stats_of_opaque_pixels; [done| |done|].
  - rewrite Hlen. lia.
  - intros Hnone. apply Hsome. by apply opaque_pixels_none.
Qed.

Lemma statistics_in_range_witness :
  ∃ br ct rd gr bl : Q,
    calculateImageStats [10; 20; 30; 255; 200; 100; 50; 127]
    = Some {| averageBrightness := Num br; averageContrast := Num ct;
              red := Num rd; green := Num gr; blue := Num bl |}
    ∧ (0 <= br <= 255)%Q ∧ (0 <= ct)%Q
    ∧ (0 <= rd <= 255)%Q ∧ (0 <= gr <= 255)%Q ∧ (0 <= bl <= 255)%Q.
Proof.
  apply (statistics_in_range [10; 20; 30; 255; 200; 100; 50; 127] 2 1).
  - reflexivity.
  - simpl. lia.
  - repeat first [apply Forall_nil_2 | apply Forall_cons_2]; unfold is_byte; lia.
  - intros Hnone. pose proof (Hnone 3%nat 255 eq_refl eq_refl). lia.
Defined.

(** ** Strings *)

Lemma string_app_assoc (a b c : string) : (a ++ (b ++ c) = (a ++ b) ++ c)%string.
Proof. induction a as [|x a IH]; [done|]. cbn [String.append]. by rewrite IH. Qed.

Lemma string_app_nil_r (s : string) : (s ++ "")%string = s.
Proof. induction s as [|c s IH]; [done|]. cbn [String.append]. by rewrite IH. Qed.

Lemma string_length_app (a b : string) :
  String.length (a ++ b) = (String.length a + String.length b)%nat.
Proof. induction a as [|c a IH]; [done|]. cbn [String.append String.length]. by rewrite IH. Qed.

(** ** The metadata *)

(** *** Decimal digits *)

Lemma decimal_digits_fuel (fuel fuel' : nat) (n : Z) :
  0 <= n < 2 ^ (Z.of_nat fuel + 1) → (fuel ≤ fuel')%nat →
  decimal_digits (S fuel) n = decimal_digits (S fuel') n.
Proof.
  revert fuel' n. induction fuel as [|fuel IH]; intros fuel' n Hn Hle.
  - cbn [decimal_digits]. change (2 ^ (Z.of_nat 0 + 1)) with 2 in Hn.
    by replace (n <? 10) with true by lia.
  - destruct fuel' as [|fuel']; [lia|].
    cbn [decimal_digits]. destruct (n <? 10) eqn:Hlt; [done|].
    f_equal. apply Z.ltb_ge in Hlt.
    change (decimal_digits (S fuel) (n / 10) = decimal_digits (S fuel') (n / 10)).
    apply IH; [|lia].
    replace (Z.of_nat (S fuel) + 1) with (Z.succ (Z.of_nat fuel + 1)) in Hn by lia.
    rewrite Z.pow_succ_r in Hn by lia.
    split; [apply Z.div_pos; lia|].
    apply Z.div_lt_upper_bound; lia.
Qed.

Lemma decimal_small (n : Z) : 0 <= n < 10 → decimal n = String (digit n) "".
Proof.
  intros Hn. unfold decimal. cbn [decimal_digits].
  by replace (n <? 10) with true by lia.
Qed.

(** The digits of an integer of two digits or more: those of its tenth,
    then its last digit. *)
Lemma decimal_step (n : Z) :
  10 <= n → decimal n = (decimal (n / 10) ++ String (digit (n mod 10)) "")%string.
Proof.
  intros Hn. unfold decimal.
  assert (0 < n / 10) as Hq by (apply Z.div_str_pos; lia).
  assert (n / 10 <= n / 2) as Hhalf.
  { apply Z.div_le_lower_bound; [lia|].
    pose proof (Z.div_mod n 10). pose proof (Z.mod_pos_bound n 10). lia. }
  destruct (Z.log2_spec (n / 10) Hq) as [_ H2].
  pose proof (Z.log2_nonneg (n / 10)) as Hl0.
  assert (Z.log2 (n / 10) <= Z.log2 n - 1) as Hlog.
  { assert (Z.log2 (n / 10) < Z.log2 n); [|lia].
    apply Z.log2_lt_pow2; [done|].
    destruct (Z.log2_spec n) as [_ Hn2]; [lia|].
    rewrite Z.pow_succ_r in Hn2 by apply Z.log2_nonneg.
    pose proof (Z.div_mod n 2). pose proof (Z.mod_pos_bound n 2). lia. }
  assert (1 <= Z.log2 n) as Hl by lia.
  destruct (Z.to_nat (Z.log2 n)) as [|f0] eqn:Hf; [lia|].
  cbn [decimal_digits]. replace (n <? 10) with false by lia. f_equal.
  symmetry. apply decimal_digits_fuel; [|lia].
  split; [lia|]. by rewrite Z2Nat.id, <- Z.add_1_r in * by lia.
Qed.

Lemma string_take_app (a b : string) : string_take (String.length a) (a ++ b) = a.
Proof. induction a as [|c a IH]; [by destruct b|]. cbn. by rewrite IH. Qed.

Lemma string_drop_app (a b : string) : string_drop (String.length a) (a ++ b) = b.
Proof. induction a as [|c a IH]; [by destruct b|]. cbn. by rewrite IH. Qed.

(** The text of [toFixed(2)] for a number that is not negative: the
    digits of the hundreds of [n], a point, and the last two digits of
    [n]. *)
Lemma toFixed2_string_digits (x : Q) :
  (0 <= x)%Q →
  let n := Qfloor (x * 100 + (1 # 2)) in
  toFixed2_string x
  = (decimal (n / 100) ++ "."
     ++ String (digit (n / 10 mod 10)) (String (digit (n mod 10)) ""))%string
  ∧ 0 <= n.
Proof.
  intros Hx n. unfold toFixed2_string. cbv zeta.
  replace (Qle_bool 0 x) with true by (symmetry; by apply Qle_bool_iff).
  assert (Qfloor (Qabs x * 100 + (1 # 2)) = n) as ->.
  { unfold n. by rewrite (Qabs_pos x Hx). }
  assert (0 <= n) as Hn.
  { change 0 with (Qfloor 0). apply Qfloor_resp_le. lra. }
  split; [|done]. cbn [String.append].
  destruct (Z.lt_ge_cases n 10) as [H10|H10]; [|destruct (Z.lt_ge_cases n 100) as [H100|H100]].
  - rewrite (decimal_small n) by lia.
    rewrite (Z.div_small n 100), (Z.div_small n 10), (Z.mod_small n 10) by lia.
    reflexivity.
  - assert (0 <= n / 10 < 10) as Hq
      by (split; [apply Z.div_pos; lia|apply Z.div_lt_upper_bound; lia]).
    rewrite (decimal_step n) by done. rewrite (decimal_small (n / 10)) by done.
    rewrite (Z.div_small n 100) by lia.
    rewrite (Z.mod_small (n / 10) 10) by done.
    reflexivity.
  - assert (10 <= n / 10) as Hq by (apply Z.div_le_lower_bound; lia).
    rewrite (decimal_step n), (decimal_step (n / 10)) by done.
    rewrite Z.div_div by lia. change (10 * 10) with 100.
    set (a := decimal (n / 100)).
    rewrite <- string_app_assoc. cbn [String.append].
    rewrite string_length_app. cbn [String.length].
    replace (String.length a + 2 <=? 2)%nat with false.
    2:{ symmetry. apply Nat.leb_gt.
        assert (String.length a ≠ 0%nat); [|lia].
        unfold a, decimal. cbn [decimal_digits].
        destruct (n / 100 <? 10); [done|].
        rewrite string_length_app. simpl. lia. }
    rewrite ?string_length_app. cbn [String.length].
    replace (String.length a + 2 - 2)%nat with (String.length a) by lia.
    by rewrite string_take_app, string_drop_app.
Qed.

(** The rounded quotient of two integers, printed with two decimals, is
    a two-decimal value nearest to the exact quotient. *)
Lemma quotient_nearest (w h : Z) :
  0 <= w < 2 ^ 32 → 0 < h →
  let n := Qfloor (binary64 (inject_Z w / inject_Z h) * 100 + (1 # 2)) in
  (0 <= binary64 (inject_Z w / inject_Z h))%Q
  ∧ (2 * n - 1) * h <= 200 * w <= (2 * n + 1) * h.
Proof.
  intros [Hw0 Hw1] Hh n.
  assert (0 < inject_Z h)%Q as HhQ.
  { change 0%Q with (inject_Z 0). by rewrite <- Zlt_Qlt. }
  assert (0 <= inject_Z w < 4294967296)%Q as HwQ.
  { change 0%Q with (inject_Z 0). change 4294967296%Q with (inject_Z (2 ^ 32)).
    rewrite <- Zle_Qle, <- Zlt_Qlt. lia. }
  set (q := (inject_Z w / inject_Z h)%Q) in *.
  assert (q * inject_Z h == inject_Z w)%Q as Hq.
  { unfold q. field. intros Heq. rewrite Heq in HhQ. by apply Qlt_irrefl in HhQ. }
  assert (0 <= q)%Q as Hq0.
  { unfold q. apply Qle_shift_div_l; [done|]. lra. }
  destruct (binary64_error_nonneg q Hq0) as [E1 E2].
  pose proof (binary64_nonneg q Hq0) as Hq'0.
  split; [done|].
  pose proof (Qfloor_le (binary64 q * 100 + (1 # 2))) as Hf1.
  pose proof (Qlt_floor (binary64 q * 100 + (1 # 2))) as Hf2.
  fold n in Hf1, Hf2. rewrite inject_Z_plus in Hf2. change (inject_Z 1) with 1%Q in Hf2.
  unfold unit_roundoff in *. clearbody n.
  generalize dependent (binary64 q). intros q' E1 E2 Hq'0 Hf1 Hf2.
  (* both bounds, multiplied by the height *)
  assert ((inject_Z n - (1 # 2)) * inject_Z h
          <= 100 * inject_Z w * (1 + (1 # 9007199254740992)))%Q as Hlow.
  { assert (100 * inject_Z w * (1 + (1 # 9007199254740992))
            == 100 * q * (1 + (1 # 9007199254740992)) * inject_Z h)%Q as ->
      by (rewrite <- Hq; ring).
    apply Qmult_le_compat_r; [|lra]. lra. }
  assert (100 * inject_Z w * (1 - (1 # 9007199254740992))
          <= (inject_Z n + (1 # 2)) * inject_Z h)%Q as Hhigh.
  { assert (100 * inject_Z w * (1 - (1 # 9007199254740992))
            == 100 * q * (1 - (1 # 9007199254740992)) * inject_Z h)%Q as ->
      by (rewrite <- Hq; ring).
    apply Qmult_le_compat_r; [|lra]. lra. }
  assert (inject_Z ((2 * n - 1) * h) == 2 * ((inject_Z n - (1 # 2)) * inject_Z h))%Q as HA.
  { unfold Z.sub. rewrite inject_Z_mult, inject_Z_plus, inject_Z_mult.
    change (inject_Z (- (1))) with (-1)%Q. change (inject_Z 2) with 2%Q. ring. }
  assert (inject_Z ((2 * n + 1) * h) == 2 * ((inject_Z n + (1 # 2)) * inject_Z h))%Q as HB.
  { rewrite inject_Z_mult, inject_Z_plus, inject_Z_mult.
    change (inject_Z 1) with 1%Q. change (inject_Z 2) with 2%Q. ring. }
  assert (inject_Z (200 * w) == 200 * inject_Z w)%Q as HC by (by rewrite inject_Z_mult).
  split.
  - assert (inject_Z ((2 * n - 1) * h) < inject_Z (200 * w + 1))%Q as H;
      [|rewrite <- Zlt_Qlt in H; lia].
    rewrite inject_Z_plus, HA, HC. change (inject_Z 1) with 1%Q.
    generalize dependent ((inject_Z n - (1 # 2)) * inject_Z h)%Q. intros; lra.
  - assert (inject_Z (200 * w - 1) < inject_Z ((2 * n + 1) * h))%Q as H;
      [|rewrite <- Zlt_Qlt in H; lia].
    unfold Z.sub at 1. rewrite inject_Z_plus, HB, HC. change (inject_Z (- (1))) with (-1)%Q.
    generalize dependent ((inject_Z n + (1 # 2)) * inject_Z h)%Q. intros; lra.
Qed.

(** X10: for an image of positive height and a width below 2^32, the
    [aspectRatio] of the metadata is the text of a two-decimal value
    nearest to width / height, followed by [:1]: the digits of [n / 100],
    a point and the two digits of [n mod 100], for an integer [n] with
    [|n / 100 - width / height| <= 0.005]. *)
Theorem aspect_ratio_nearest (file : File) (img : Image) :
  0 <= width img < 2 ^ 32 → 0 < height img →
  ∃ n : Z,
    0 <= n
    ∧ aspectRatio (extractMetadata file img)
      = (decimal (n / 100) ++ "."
         ++ String (digit (n / 10 mod 10)) (String (digit (n mod 10)) ":1"))%string
    ∧ (2 * n - 1) * height img <= 200 * width img <= (2 * n + 1) * height img.
Proof.
  intros Hw Hh. unfold extractMetadata, quotient_toFixed2. cbn [aspectRatio].
  replace (height img =? 0) with false by lia.
  destruct (quotient_nearest (width img) (height img) Hw Hh) as [Hq0 Hn].
  destruct (toFixed2_string_digits _ Hq0) as [-> Hn0].
  eexists. split; [exact Hn0|]. split; [|exact Hn].
  rewrite <- string_app_assoc. reflexivity.
Qed.

(** A 1920 by 1080 image: 1.78:1. *)
Lemma aspect_ratio_nearest_witness :
  let file := {| file_name := "example.jpg"; file_size := 245678;
                 file_type := "image/jpeg" |} in
  let img := {| width := 1920; height := 1080; data := [] |} in
  aspectRatio (extractMetadata file img) = "1.78:1"%string
  ∧ ∃ n : Z,
      0 <= n
      ∧ aspectRatio (extractMetadata file img)
        = (decimal (n / 100) ++ "."
           ++ String (digit (n / 10 mod 10)) (String (digit (n mod 10)) ":1"))%string
      ∧ (2 * n - 1) * 1080 <= 200 * 1920 <= (2 * n + 1) * 1080.
Proof.
  split; [vm_compute; reflexivity|].
  apply (aspect_ratio_nearest
           {| file_name := "example.jpg"; file_size := 245678;
              file_type := "image/jpeg" |}
           {| width := 1920; height := 1080; data := [] |}); simpl; lia.
Defined.

(** ** The Gemini module *)

(** *** The API key check *)

Lemma test_key_chars_spec (s : string) :
  test_key_chars s = true
  ↔ s ≠ ""%string ∧ Forall (fun c => is_key_char c = true) (list_ascii_of_string s).
Proof.
  induction s as [|c s IH]; [split; [done|by intros [? _]]|].
  cbn [test_key_chars list_ascii_of_string]. destruct s as [|d s].
  - split.
    + intros Hc. split; [done|]. by repeat constructor.
    + intros [_ Hall]. by apply Forall_cons in Hall as [Hc _].
  - rewrite andb_true_iff, IH. split.
    + intros [Hc [_ Hall]]. split; [done|]. by constructor.
    + intros [_ Hall]. apply Forall_cons in Hall as [Hc Hall]. done.
Qed.

(** *** The data URL *)

Lemma split_comma_plain (s : string) :
  without "," s → split_comma s = [s].
Proof.
  unfold without. induction s as [|c s IH]; [done|].
  cbn [list_ascii_of_string split_comma]. intros [Hc Hs]%Forall_cons.
  replace (Ascii.eqb c ",") with false by (symmetry; by apply Ascii.eqb_neq).
  by rewrite IH.
Qed.

Lemma split_comma_head (h rest : string) :
  without "," h →
  split_comma (h ++ String "," rest) = h :: split_comma rest.
Proof.
  unfold without. induction h as [|c h IH]; [done|].
  cbn [list_ascii_of_string String.append split_comma]. intros [Hc Hs]%Forall_cons.
  replace (Ascii.eqb c ",") with false by (symmetry; by apply Ascii.eqb_neq).
  by rewrite IH.
Qed.

(** *** Fenced responses *)

Lemma trim_start_white (lead s : string) :
  all_white lead → trim_start (lead ++ s) = trim_start s.
Proof.
  unfold all_white. induction lead as [|c lead IH]; [done|].
  cbn [list_ascii_of_string String.append trim_start]. intros [Hc Hl]%Forall_cons.
  rewrite Hc. by apply IH.
Qed.

Lemma trim_end_white (trail : string) : all_white trail → trim_end trail = ""%string.
Proof.
  unfold all_white. induction trail as [|c trail IH]; [done|].
  cbn [list_ascii_of_string trim_end]. intros [Hc Hl]%Forall_cons.
  by rewrite IH, Hc.
Qed.

(** [trim_end] stops at the last character that is not white space. *)
Lemma trim_end_core (s : string) (c : ascii) (trail : string) :
  is_white c = false → all_white trail →
  trim_end (s ++ String c trail) = (s ++ String c "")%string.
Proof.
  intros Hc Htrail. induction s as [|d s IH].
  - cbn [String.append trim_end]. by rewrite trim_end_white, Hc.
  - cbn [String.append trim_end]. rewrite IH.
    destruct (s ++ String c "")%string eqn:Heq; [|done].
    by destruct s.
Qed.

Lemma prefix_other (fence : string) (c d : ascii) (s : string) :
  c ≠ d → String.prefix (String d fence) (String c s) = false.
Proof. intros Hne. cbn [String.prefix]. by destruct (ascii_dec d c). Qed.

(** Text without back quote is copied by the removal of a fence. *)
Lemma remove_fences_plain (fence body rest : string) :
  without backquote body →
  remove_fences_from (String backquote fence) 0 (body ++ rest)
  = (body ++ remove_fences_from (String backquote fence) 0 rest)%string.
Proof.
  unfold without. induction body as [|c body IH]; [done|].
  cbn [list_ascii_of_string String.append]. intros [Hc Hb]%Forall_cons.
  cbn [remove_fences_from]. rewrite prefix_other by done. by rewrite IH.
Qed.

Lemma prefix_app (p s : string) : String.prefix p (p ++ s) = true.
Proof.
  induction p as [|c p IH]; [by destruct s|].
  cbn [String.append String.prefix]. by destruct (ascii_dec c c).
Qed.

(** The characters of a match are dropped, and the scan resumes after
    it. *)
Lemma remove_fences_skip (fence s rest : string) :
  remove_fences_from fence (String.length s) (s ++ rest)
  = remove_fences_from fence 0 rest.
Proof.
  induction s as [|c s IH]; [by destruct rest|].
  cbn [String.length String.append remove_fences_from]. apply IH.
Qed.

(** A fence followed by a line feed is removed with the line feed. *)
Lemma remove_fences_open (c : ascii) (fence rest : string) :
  remove_fences_from (String c fence) 0 (String c fence ++ line_feed ++ rest)
  = remove_fences_from (String c fence) 0 rest.
Proof.
  cbn [String.append remove_fences_from].
  change (String c (fence ++ line_feed ++ rest))
    with (String c fence ++ line_feed ++ rest)%string.
  rewrite prefix_app. unfold fence_match.
  rewrite string_app_assoc, prefix_app. cbn [Nat.pred String.length].
  rewrite (string_app_assoc fence line_feed rest).
  replace (S (String.length fence)) with (String.length (fence ++ line_feed))
    by (rewrite string_length_app; simpl; lia).
  apply remove_fences_skip.
Qed.

(** A response between a [```json] fence and a [```] fence, or between
    two [```] fences, with white space around, is handed to [JSON.parse]
    without the fences. *)
Lemma cleaned_fenced (lead body trail : string) :
  all_white lead → all_white trail → without backquote body →
  cleaned (lead ++ "```json" ++ line_feed ++ body ++ "```" ++ trail) = body
  ∧ cleaned (lead ++ "```" ++ line_feed ++ body ++ "```" ++ trail) = body.
Proof.
  intros Hlead Htrail Hbody.
  pose proof (remove_fences_plain "``json" body "```" Hbody) as Hjson.
  pose proof (remove_fences_plain "``" body "```" Hbody) as Hplain.
  pose proof (remove_fences_open backquote "``json" (body ++ "```")) as Hopen_json.
  pose proof (remove_fences_open backquote "``" (body ++ "```")) as Hopen.
  unfold backquote in *.
  assert (∀ open : string,
    trim (lead ++ (String "`" open ++ line_feed ++ body ++ "```" ++ trail))
    = (String "`" open ++ line_feed ++ body ++ "```")%string) as Htrim.
  { intros open. unfold trim. rewrite trim_start_white by done.
    cbn [String.append trim_start]. change (is_white "`") with false. cbv iota.
    assert (∀ t : string,
      String "`" (open ++ line_feed ++ body ++ String "`" (String "`" t))
      = (String "`" (open ++ line_feed ++ body ++ "``") ++ t)%string) as Hshape.
    { intros t. cbn [String.append]. f_equal.
      by rewrite !string_app_assoc, <- (string_app_assoc _ "``" t). }
    rewrite (Hshape (String "`" trail)), trim_end_core by done.
    symmetry. apply (Hshape "`"%string). }
  assert (remove_fences_from "```" 0 (body ++ "```") = body) as Hclose.
  { rewrite Hplain.
    change (remove_fences_from "```" 0 "```") with ""%string.
    apply string_app_nil_r. }
  split.
  - unfold cleaned. cbv zeta.
    rewrite (Htrim "``json"%string).
    replace (startsWith _ "```json") with true by (symmetry; apply prefix_app).
    unfold remove_fences. rewrite Hopen_json, Hjson.
    change (remove_fences_from "```json" 0 "```") with "```"%string.
    exact Hclose.
  - unfold cleaned. cbv zeta.
    rewrite (Htrim "``"%string).
    replace (startsWith _ "```json") with false by reflexivity.
    replace (startsWith _ "```") with true by (symmetry; apply prefix_app).
    unfold remove_fences. rewrite Hopen.
    exact Hclose.
Qed.

(** One step of a session: the monad unfolded and the matches on known
    outcomes reduced. *)
Ltac session_step :=
  unfold mbind, mret, session_mbind, session_mret, session_bind, session_ret,
    try_session, await, ask, call, throw;
  cbn [length app orb map].

Section GeminiServiceFacts.
Variable Value : Type.
Variable JSON_parse : string → completion Value.
Variable empty_array : Value.
Variable not_available : Value.
Variable readAsDataURL : File → option string.
Variable generateContent : nat → request → promise string.

Let analyze := analyzeImageWithGemini Value JSON_parse empty_array not_available
                 readAsDataURL generateContent.

Lemma analyze_without_key (file : File) (options : GeminiOptions.t)
    (sent : list request) :
  analyze file "" options sent
  = (Rejected (Error "Gemini API key is required"), sent).
Proof. reflexivity. Qed.

(** When every request is answered, the analysis is fulfilled whatever
    the answers are. *)
Lemma analyze_answered (file : File) (apiKey url : string)
    (options : GeminiOptions.t) :
  apiKey ≠ ""%string → readAsDataURL file = Some url →
  (∀ i r, ∃ text, generateContent i r = Fulfilled text) →
  ∃ result,
    analyze file apiKey options []
    = (Fulfilled result, requests_for file (data_url_payload url) options)
    ∧ (is_Some (ocr result) ↔ GeminiOptions.extractOCR options = true)
    ∧ (is_Some (objects result) ↔ GeminiOptions.detectObjects options = true)
    ∧ (is_Some (description result)
       ↔ GeminiOptions.detectObjects options || GeminiOptions.analyzeDesign options = true)
    ∧ (is_Some (uiElements result) ↔ GeminiOptions.analyzeUI options = true)
    ∧ (is_Some (designAnalysis result) ↔ GeminiOptions.analyzeDesign options = true).
Proof.
  intros Hkey Hread Hall. unfold analyze, analyzeImageWithGemini.
  replace (String.eqb apiKey "") with false by (symmetry; by apply String.eqb_neq).
  unfold fileToBase64. rewrite Hread.
  destruct options as [o1 o2 o3 o4].
  unfold requests_for, prompts_for. cbn [GeminiOptions.extractOCR
    GeminiOptions.detectObjects GeminiOptions.analyzeUI GeminiOptions.analyzeDesign].
  destruct o1, o2, o3, o4; session_step;
    repeat (match goal with
            | |- context [generateContent ?i ?r] =>
                let text := fresh "text" in
                destruct (Hall i r) as [text ->]
            | |- context [parseJSONResponse Value JSON_parse ?t ?f] =>
                let v := fresh "v" in
                destruct (parseJSONResponse_returns Value JSON_parse t f) as [v ->]
            end; session_step);
    (eexists; split; [reflexivity|]);
    cbn [ocr objects description uiElements designAnalysis];
    repeat split; intros; try done; try (by eexists); by apply is_Some_None in H.
Qed.

(** How the analysis ends, read off the requests it sent: they are a
    prefix of the requests the options call for; all of them when it is
    fulfilled; and otherwise the last one sent is the one that was rejected
    or never answered, and a rejection is reported with the wrapped
    message of its cause. *)
Lemma analyze_outcome (file : File) (apiKey url : string)
    (options : GeminiOptions.t) (outcome : promise (GeminiAnalysis Value))
    (sent : list request) :
  apiKey ≠ ""%string → readAsDataURL file = Some url →
  analyze file apiKey options [] = (outcome, sent) →
  sent `prefix_of` requests_for file (data_url_payload url) options
  ∧ match outcome with
    | Fulfilled _ =>
        sent = requests_for file (data_url_payload url) options
        ∧ ∀ r, last sent = Some r →
               ∃ text, generateContent (length sent - 1) r = Fulfilled text
    | Rejected reason =>
        ∃ r cause,
          last sent = Some r
          ∧ generateContent (length sent - 1) r = Rejected cause
          ∧ reason = Error ("Failed to analyze image with Gemini: "
                            ++ message_of cause)
    | Pending =>
        ∃ r, last sent = Some r ∧ generateContent (length sent - 1) r = Pending
    end.
Proof.
  intros Hkey Hread. unfold analyze, analyzeImageWithGemini.
  replace (String.eqb apiKey "") with false by (symmetry; by apply String.eqb_neq).
  unfold fileToBase64. rewrite Hread.
  destruct options as [o1 o2 o3 o4].
  unfold requests_for, prompts_for. cbn [GeminiOptions.extractOCR
    GeminiOptions.detectObjects GeminiOptions.analyzeUI GeminiOptions.analyzeDesign].
  destruct o1, o2, o3, o4; session_step;
    repeat (match goal with
            | |- context [generateContent ?i ?r] =>
                let Hreq := fresh "Hreq" in
                destruct (generateContent i r) as [?|[?|]|] eqn:Hreq
            | |- context [parseJSONResponse Value JSON_parse ?t ?f] =>
                let v := fresh "v" in
                destruct (parseJSONResponse_returns Value JSON_parse t f) as [v ->]
            end; session_step);
    intros [= <- <-]; (split; [by eexists|]);
    try (split; [reflexivity|]; intros ? [= <-]; eexists; eassumption);
    try (eexists _, _; split; [reflexivity|]; split; [eassumption|reflexivity]);
    try (eexists; split; [reflexivity|eassumption]).
Qed.

(** When the model answers every request with text that is not JSON, the
    result holds the fallbacks: [[]] for [ocr], [objects] and
    [uiElements], the placeholder record for [designAnalysis]. *)
Lemma analyze_fallbacks (file : File) (apiKey url : string)
    (options : GeminiOptions.t) :
  apiKey ≠ ""%string → readAsDataURL file = Some url →
  (∀ i r, ∃ text error,
     generateContent i r = Fulfilled text
     ∧ JSON_parse (cleaned text) = Throw error) →
  ∃ result,
    analyze file apiKey options []
    = (Fulfilled result, requests_for file (data_url_payload url) options)
    ∧ ocr result
      = (if GeminiOptions.extractOCR options then Some empty_array else None)
    ∧ objects result
      = (if GeminiOptions.detectObjects options then Some empty_array else None)
    ∧ uiElements result
      = (if GeminiOptions.analyzeUI options then Some empty_array else None)
    ∧ designAnalysis result
      = (if GeminiOptions.analyzeDesign options then Some not_available else None).
Proof.
  intros Hkey Hread Hall. unfold analyze, analyzeImageWithGemini.
  replace (String.eqb apiKey "") with false by (symmetry; by apply String.eqb_neq).
  unfold fileToBase64. rewrite Hread.
  destruct options as [o1 o2 o3 o4].
  unfold requests_for, prompts_for. cbn [GeminiOptions.extractOCR
    GeminiOptions.detectObjects GeminiOptions.analyzeUI GeminiOptions.analyzeDesign].
  destruct o1, o2, o3, o4; session_step;
    repeat (match goal with
            | |- context [generateContent ?i ?r] =>
                let text := fresh "text" in
                let Hparse := fresh "Hparse" in
                destruct (Hall i r) as (text & ? & -> & Hparse)
            | Hparse : JSON_parse (cleaned ?t) = Throw _
              |- context [parseJSONResponse Value JSON_parse ?t ?f] =>
                unfold parseJSONResponse at 1; rewrite Hparse;
                cbn [try_catch]
            end; session_step);
    (eexists; split; [reflexivity|]); done.
Qed.
End GeminiServiceFacts.

(** X11: [validateApiKey] accepts exactly the keys of 21 characters or
    more made of letters, digits, [_] and [-] only; nothing else of the
    form of a key is checked. *)
Theorem validateApiKey_accepts (apiKey : string) :
  validateApiKey apiKey = true
  ↔ (21 ≤ String.length apiKey)%nat
    ∧ Forall (fun c => is_key_char c = true) (list_ascii_of_string apiKey).
Proof.
  unfold validateApiKey. rewrite andb_true_iff, Nat.ltb_lt, test_key_chars_spec.
  split.
  - intros [Hlen [_ Hall]]. split; [lia|done].
  - intros [Hlen Hall]. split; [lia|]. split; [|done].
    intros ->. simpl in Hlen. lia.
Qed.

(** X12: [fileToBase64] resolves with what follows the first comma of the
    data URL: for a header and a payload without comma, the payload; and
    with [undefined] when the text the reader returns has no comma. *)
Theorem fileToBase64_payload (readAsDataURL : File → option string) (file : File)
    (header payload : string) :
  without "," header → without "," payload →
  (readAsDataURL file = Some (header ++ String "," payload)%string →
   fileToBase64 readAsDataURL file = Fulfilled (Some payload))
  ∧ (readAsDataURL file = Some header →
     fileToBase64 readAsDataURL file = Fulfilled None).
Proof.
  intros Hh Hp. unfold fileToBase64, data_url_payload. split; intros ->.
  - by rewrite split_comma_head, split_comma_plain.
  - by rewrite split_comma_plain.
Qed.

Lemma fileToBase64_payload_witness :
  fileToBase64 (fun _ => Some "data:image/png;base64,iVBORw0KGgo="%string)
    {| file_name := "a.png"; file_size := 8; file_type := "image/png" |}
  = Fulfilled (Some "iVBORw0KGgo="%string).
Proof.
  apply (fileToBase64_payload (fun _ => Some "data:image/png;base64,iVBORw0KGgo="%string)
           {| file_name := "a.png"; file_size := 8; file_type := "image/png" |}
           "data:image/png;base64" "iVBORw0KGgo=").
  - unfold without. simpl.
    repeat first [apply Forall_nil_2 | apply Forall_cons_2]; discriminate.
  - unfold without. simpl.
    repeat first [apply Forall_nil_2 | apply Forall_cons_2]; discriminate.
  - reflexivity.
Defined.

(** X13: a response made of a [```json] fence or a [```] fence, a line
    feed, a body without back quote and a closing [```] fence, with any
    white space before and after, is parsed as its body: the text handed
    to [JSON.parse] is the body, and the parsed body is what is
    returned. *)
Theorem fenced_response_is_unwrapped (Value : Type)
    (JSON_parse : string → completion Value) (lead body trail : string)
    (fallback v : Value) :
  all_white lead → all_white trail → without backquote body →
  JSON_parse body = Return v →
  cleaned (lead ++ "```json" ++ line_feed ++ body ++ "```" ++ trail) = body
  ∧ cleaned (lead ++ "```" ++ line_feed ++ body ++ "```" ++ trail) = body
  ∧ parseJSONResponse Value JSON_parse
      (lead ++ "```json" ++ line_feed ++ body ++ "```" ++ trail) fallback = Return v
  ∧ parseJSONResponse Value JSON_parse
      (lead ++ "```" ++ line_feed ++ body ++ "```" ++ trail) fallback = Return v.
Proof.
  intros Hlead Htrail Hbody Hparse.
  destruct (cleaned_fenced lead body trail Hlead Htrail Hbody) as [H1 H2].
  unfold parseJSONResponse. rewrite H1, H2, Hparse. done.
Qed.

Lemma fenced_response_is_unwrapped_witness :
  let body := ("[1, 2]" ++ line_feed)%string in
  parseJSONResponse json json_parse
    (" " ++ "```json" ++ line_feed ++ body ++ "```" ++ line_feed)%string JNull
  = Return (JArray [JNumber "1"; JNumber "2"]).
Proof.
  apply (fenced_response_is_unwrapped json json_parse " " ("[1, 2]" ++ line_feed)
           line_feed JNull (JArray [JNumber "1"; JNumber "2"])).
  - unfold all_white. simpl. repeat first [apply Forall_nil_2 | apply Forall_cons_2]; reflexivity.
  - unfold all_white. simpl. repeat first [apply Forall_nil_2 | apply Forall_cons_2]; reflexivity.
  - unfold without. simpl.
    repeat first [apply Forall_nil_2 | apply Forall_cons_2]; discriminate.
  - reflexivity.
Defined.

(** A key that does not start with AI: 21 hyphens. *)
Lemma validateApiKey_accepts_witness :
  validateApiKey "---------------------" = true.
Proof.
  apply (validateApiKey_accepts "---------------------"). split.
  - simpl. lia.
  - simpl. repeat first [apply Forall_nil_2 | apply Forall_cons_2]; reflexivity.
Defined.

(** X14: with a key and a file that is read, when the model answers every
    request, [analyzeImageWithGemini] is fulfilled whatever the answers
    say: it sends the requests the options call for, in the order OCR,
    objects, description, UI, design, and sets [ocr] when [extractOCR] is
    on, [objects] when [detectObjects] is, [description] when
    [detectObjects] or [analyzeDesign] is, [uiElements] when [analyzeUI]
    is, and [designAnalysis] when [analyzeDesign] is, and nothing else. *)
Theorem analysis_survives_any_answer (Value : Type)
    (JSON_parse : string → completion Value) (empty_array not_available : Value)
    (readAsDataURL : File → option string)
    (generateContent : nat → request → promise string)
    (file : File) (apiKey url : string) (options : GeminiOptions.t) :
  apiKey ≠ ""%string → readAsDataURL file = Some url →
  (∀ i r, ∃ text, generateContent i r = Fulfilled text) →
  ∃ result,
    analyzeImageWithGemini Value JSON_parse empty_array not_available
      readAsDataURL generateContent file apiKey options []
    = (Fulfilled result, requests_for file (data_url_payload url) options)
    ∧ (is_Some (ocr result) ↔ GeminiOptions.extractOCR options = true)
    ∧ (is_Some (objects result) ↔ GeminiOptions.detectObjects options = true)
    ∧ (is_Some (description result)
       ↔ GeminiOptions.detectObjects options || GeminiOptions.analyzeDesign options = true)
    ∧ (is_Some (uiElements result) ↔ GeminiOptions.analyzeUI options = true)
    ∧ (is_Some (designAnalysis result) ↔ GeminiOptions.analyzeDesign options = true).
Proof. apply analyze_answered. Qed.

(** X15: how [analyzeImageWithGemini] ends, once the key is there and the
    file is read.  The requests sent are a prefix of those the options
    call for.  Fulfilled, it has sent them all and the last one was
    answered.  Rejected, the last request sent is the one the model
    rejected, nothing was sent after it, and the error thrown is an
    [Error] whose message is "Failed to analyze image with Gemini: "
    followed by the message of that rejection ("Unknown error" when what
    was thrown is not an [Error]).  Otherwise the last request sent was
    never answered. *)
Theorem analysis_outcome (Value : Type)
    (JSON_parse : string → completion Value) (empty_array not_available : Value)
    (readAsDataURL : File → option string)
    (generateContent : nat → request → promise string)
    (file : File) (apiKey url : string) (options : GeminiOptions.t)
    (outcome : promise (GeminiAnalysis Value)) (sent : list request) :
  apiKey ≠ ""%string → readAsDataURL file = Some url →
  analyzeImageWithGemini Value JSON_parse empty_array not_available
    readAsDataURL generateContent file apiKey options [] = (outcome, sent) →
  sent `prefix_of` requests_for file (data_url_payload url) options
  ∧ match outcome with
    | Fulfilled _ =>
        sent = requests_for file (data_url_payload url) options
        ∧ ∀ r, last sent = Some r →
               ∃ text, generateContent (length sent - 1)%nat r = Fulfilled text
    | Rejected reason =>
        ∃ r cause,
          last sent = Some r
          ∧ generateContent (length sent - 1)%nat r = Rejected cause
          ∧ reason = Error ("Failed to analyze image with Gemini: "
                            ++ message_of cause)
    | Pending =>
        ∃ r, last sent = Some r ∧ generateContent (length sent - 1)%nat r = Pending
    end.
Proof. apply analyze_outcome. Qed.

(** X16: when every answer of the model is text that [JSON.parse]
    rejects once cleaned, the analysis is still fulfilled and holds the
    fallbacks: the empty array for [ocr], [objects] and [uiElements],
    and the record of three 'N/A' for [designAnalysis], each for the
    options that are on. *)
Theorem analysis_fallbacks (Value : Type)
    (JSON_parse : string → completion Value) (empty_array not_available : Value)
    (readAsDataURL : File → option string)
    (generateContent : nat → request → promise string)
    (file : File) (apiKey url : string) (options : GeminiOptions.t) :
  apiKey ≠ ""%string → readAsDataURL file = Some url →
  (∀ i r, ∃ text error,
     generateContent i r = Fulfilled text
     ∧ JSON_parse (cleaned text) = Throw error) →
  ∃ result,
    analyzeImageWithGemini Value JSON_parse empty_array not_available
      readAsDataURL generateContent file apiKey options []
    = (Fulfilled result, requests_for file (data_url_payload url) options)
    ∧ ocr result
      = (if GeminiOptions.extractOCR options then Some empty_array else None)
    ∧ objects result
      = (if GeminiOptions.detectObjects options then Some empty_array else None)
    ∧ uiElements result
      = (if GeminiOptions.analyzeUI options then Some empty_array else None)
    ∧ designAnalysis result
      = (if GeminiOptions.analyzeDesign options then Some not_available else None).
Proof. apply analyze_fallbacks. Qed.

Lemma analysis_survives_any_answer_witness :
  ∃ result,
    analyzeImageWithGemini json json_parse (JArray []) example_not_available
      (fun _ => Some example_url) example_answers example_file "example-key"
      (App.geminiOptions (App.options example_state)) []
    = (Fulfilled result,
       requests_for example_file (Some "iVBORw0KGgo="%string)
         (App.geminiOptions (App.options example_state)))
    ∧ (is_Some (ocr result) ↔ true = true)
    ∧ (is_Some (objects result) ↔ true = true)
    ∧ (is_Some (description result) ↔ true = true)
    ∧ (is_Some (uiElements result) ↔ false = true)
    ∧ (is_Some (designAnalysis result) ↔ false = true).
Proof.
  apply (analysis_survives_any_answer json json_parse (JArray [])
           example_not_available (fun _ => Some example_url) example_answers
           example_file "example-key" example_url
           (App.geminiOptions (App.options example_state))).
  - discriminate.
  - reflexivity.
  - intros i r. eexists. reflexivity.
Defined.

(** The second request is rejected: two requests are sent and the error
    carries the message of the rejection. *)
Lemma analysis_outcome_witness :
  let sent :=
    [ {| request_prompt := ocrPrompt; inlineData_data := Some "iVBORw0KGgo="%string;
         inlineData_mimeType := "image/png" |};
      {| request_prompt := objectPrompt; inlineData_data := Some "iVBORw0KGgo="%string;
         inlineData_mimeType := "image/png" |} ] in
  analyzeImageWithGemini json json_parse (JArray []) example_not_available
    (fun _ => Some example_url) example_quota example_file "example-key"
    (App.geminiOptions (App.options example_state)) []
  = (Rejected (Error "Failed to analyze image with Gemini: quota exceeded"), sent)
  ∧ sent `prefix_of` requests_for example_file (Some "iVBORw0KGgo="%string)
                       (App.geminiOptions (App.options example_state)).
Proof.
  intros sent. split; [reflexivity|].
  apply (analysis_outcome json json_parse (JArray []) example_not_available
           (fun _ => Some example_url) example_quota example_file "example-key"
           example_url (App.geminiOptions (App.options example_state))
           (Rejected (Error "Failed to analyze image with Gemini: quota exceeded"))
           sent).
  - discriminate.
  - reflexivity.
  - reflexivity.
Defined.

Lemma analysis_fallbacks_witness :
  ∃ result,
    analyzeImageWithGemini json json_parse (JArray []) example_not_available
      (fun _ => Some example_url) example_answers example_file "example-key"
      (App.geminiOptions (App.options example_state)) []
    = (Fulfilled result,
       requests_for example_file (Some "iVBORw0KGgo="%string)
         (App.geminiOptions (App.options example_state)))
    ∧ ocr result = Some (JArray [])
    ∧ objects result = Some (JArray [])
    ∧ uiElements result = None
    ∧ designAnalysis result = None.
Proof.
  apply (analysis_fallbacks json json_parse (JArray []) example_not_available
           (fun _ => Some example_url) example_answers example_file "example-key"
           example_url (App.geminiOptions (App.options example_state))).
  - discriminate.
  - reflexivity.
  - intros i r. eexists _, _. split; reflexivity.
Defined.

(** ** The canvas pipeline and the application *)

(** *** The canvas pipeline *)

(** On a decoded image with a pixel or more, the buffer is read, the
    palette is the summary of its samples, and the statistics return. *)
Lemma image_buffer_results (argument_limit : nat) (img : Image) :
  0 < width img → 0 < height img →
  length (data img) = Z.to_nat (4 * width img * height img) →
  getImageData img = Some (data img)
  ∧ extractColorPalette_default argument_limit (data img)
    = Some (summarize argument_limit (sampler_spec (data img)) 8)
  ∧ is_Some (calculateImageStats (data img)).
Proof.
  intros Hw Hh Hlen.
  assert (length (data img) = (4 * Z.to_nat (width img) * Z.to_nat (height img))%nat)
    as Hlen' by (rewrite Hlen, !Z2Nat.inj_mul by lia; done).
  split; [|split].
  - unfold getImageData.
    replace (width img =? 0) with false by lia.
    by replace (height img =? 0) with false by lia.
  - unfold extractColorPalette_default, extractColorPalette.
    by rewrite (sampler_on_image _ _ _ Hlen').
  - rewrite calculateImageStats_opaque; [by eexists|].
    rewrite Hlen', <- Nat.mul_assoc, Nat.mul_comm. apply Nat.Div0.mod_mul.
Qed.

(** The handler on such an image: it ends before [resolve] exactly when
    the colours are asked for and [medianCut] throws. *)
Lemma onload_image (argument_limit : nat) (toDataURL : Image → string) (file : File)
    (img : Image) (options : CanvasOptions.t) :
  0 < width img → 0 < height img →
  length (data img) = Z.to_nat (4 * width img * height img) →
  onload argument_limit toDataURL file img options
  = match (if CanvasOptions.extractColors options
           then match summarize argument_limit (sampler_spec (data img)) 8 with
                | Returns palette => Some (Some palette)
                | RangeError => None
                end
           else Some None) with
    | Some palette =>
        Some {| metadata :=
                  if CanvasOptions.extractMetadata options
                  then Some (extractMetadata file img) else None;
                colors := palette;
                base64 :=
                  if CanvasOptions.convertBase64 options
                  then Some (toDataURL img) else None;
                statistics :=
                  if CanvasOptions.calculateStats options
                  then calculateImageStats (data img) else None |}
    | None => None
    end.
Proof.
  intros Hw Hh Hlen.
  destruct (image_buffer_results argument_limit img Hw Hh Hlen)
    as (Hdata & Hp & [stats Hs]).
  unfold onload, convertToBase64. rewrite Hdata.
  destruct options as [[] [] [] []];
    cbn [mbind option_bind CanvasOptions.extractMetadata CanvasOptions.extractColors
         CanvasOptions.convertBase64 CanvasOptions.calculateStats];
    rewrite ?Hp; cbn [mbind option_bind];
    try destruct (summarize argument_limit (sampler_spec (data img)) 8);
    cbn [mbind option_bind]; rewrite ?Hs; reflexivity.
Qed.

(** *** The application *)

Section AppFacts.
Variable Value : Type.
Variable JSON_parse : string → completion Value.
Variable empty_array : Value.
Variable not_available : Value.
Variable readAsDataURL : File → option string.
Variable generateContent : nat → request → promise string.
Variable argument_limit : nat.
Variable getContext : bool.
Variable decode : File → option Image.
Variable toDataURL : Image → string.
Variable now : string.

Let run := App.handleProcess Value JSON_parse empty_array not_available
             readAsDataURL generateContent argument_limit getContext decode
             toDataURL now.

Let started (s : App.state Value) : App.state Value :=
  App.setError None (App.setIsProcessing true s).

(** Every way [handleProcess] can end. *)
Lemma handleProcess_ends (s : App.state Value) (file : File) :
  App.selectedFile s = Some file →
  let s' := (run s).1 in
  let sent := (run s).2 in
  s' = started s
  ∨ App.isProcessing s' = false
    ∧ (App.result s' = App.result s ∧ sent = []
       ∧ (App.error s' = Some "Processing failed: Could not get canvas context"%string
          ∨ App.error s' = Some "Processing failed: Failed to load image"%string)
       ∨ (∃ canvasResult,
            App.result s'
            = Some {| timestamp := now; canvas := canvasResult; ai := None |}
            ∧ (App.error s' = Some "AI Analysis failed with unknown error"%string
               ∧ sent = []
               ∨ ∃ r cause,
                   last sent = Some r
                   ∧ generateContent (length sent - 1) r = Rejected cause
                   ∧ App.error s'
                     = Some ("AI Analysis failed: Failed to analyze image with Gemini: "
                             ++ message_of cause)%string))
       ∨ (∃ canvasResult ai,
            App.result s'
            = Some {| timestamp := now; canvas := canvasResult; ai := ai |}
            ∧ App.error s' = None)).
Proof.
  intros Hfile. cbv zeta. unfold run, App.handleProcess. rewrite Hfile.
  fold (started s). unfold processImageWithCanvas.
  destruct getContext; cbn [negb]; [|right; split; [done|]; left; eauto].
  destruct (decode file) as [img|]; [|right; split; [done|]; left; eauto].
  destruct (onload _ _ _ _ _) as [canvasResult|]; [|by left].
  change (App.apiKey (started s)) with (App.apiKey s).
  change (App.options (started s)) with (App.options s).
  destruct (negb (String.eqb (App.apiKey s) "") && _) eqn:Hai.
  2:{ right. split; [done|]. right. right. by eexists _, _. }
  apply andb_true_iff in Hai as [Hkey%negb_true_iff%String.eqb_neq _].
  destruct (readAsDataURL file) as [url|] eqn:Hread.
  - destruct (analyzeImageWithGemini _ _ _ _ _ _ _ _ _ _) as [outcome sent] eqn:Hrun.
    destruct (analyze_outcome _ _ _ _ _ _ _ _ _ _ _ _ Hkey Hread Hrun) as [_ Hout].
    destruct outcome as [geminiResult|reason|]; cbn [fst snd].
    + right. split; [done|]. right. right. by eexists _, _.
    + right. split; [done|]. right. left. eexists. split; [done|]. right.
      destruct Hout as (r & cause & Hlast & Hreq & ->). by eexists _, _.
    + by left.
  - unfold analyzeImageWithGemini.
    replace (String.eqb (App.apiKey s) "") with false
      by (symmetry; by apply String.eqb_neq).
    unfold fileToBase64. rewrite Hread. session_step. cbn [fst snd].
    right. split; [done|]. right. left. eexists. split; [done|]. by left.
Qed.

(** A failure of the model keeps what the canvas computed: the result
    is set without its [ai] part, and the error shown carries the message
    of the request that failed under both prefixes. *)
Lemma handleProcess_ai_failure (s : App.state Value) (file : File) (url : string)
    (canvasResult : CanvasResult) (r : request) (cause : thrown) :
  App.selectedFile s = Some file →
  processImageWithCanvas argument_limit getContext decode toDataURL file
    (App.canvasOptions (App.options s)) = Fulfilled canvasResult →
  readAsDataURL file = Some url →
  last (run s).2 = Some r →
  generateContent (length (run s).2 - 1) r = Rejected cause →
  (run s).1
  = App.setIsProcessing false
      (App.setResult
         (Some {| timestamp := now; canvas := canvasResult; ai := None |})
         (App.setError
            (Some ("AI Analysis failed: Failed to analyze image with Gemini: "
                   ++ message_of cause)%string)
            (started s))).
Proof.
  intros Hfile Hcanvas Hread. unfold run, App.handleProcess.
  rewrite Hfile. fold (started s).
  change (App.apiKey (started s)) with (App.apiKey s).
  change (App.options (started s)) with (App.options s).
  rewrite Hcanvas.
  destruct (negb (String.eqb (App.apiKey s) "") && _) eqn:Hai; [|done].
  apply andb_true_iff in Hai as [Hkey%negb_true_iff%String.eqb_neq _].
  destruct (analyzeImageWithGemini _ _ _ _ _ _ _ _ _ _) as [outcome sent] eqn:Hrun.
  destruct (analyze_outcome _ _ _ _ _ _ _ _ _ _ _ _ Hkey Hread Hrun) as [_ Hout].
  destruct outcome as [geminiResult|reason|]; cbn [fst snd]; intros Hlast Hreq.
  - destruct Hout as [_ Hok]. destruct (Hok r Hlast) as [text Htext]. congruence.
  - destruct Hout as (r' & cause' & Hlast' & Hreq' & ->).
    assert (r' = r) as -> by congruence. assert (cause' = cause) as -> by congruence.
    done.
  - destruct Hout as (r' & Hlast' & Hreq'). congruence.
Qed.

(** Without a key, or without an option of the model selected, nothing
    is read from the file or sent to the model, and a fulfilled canvas
    step is the whole result. *)
Lemma handleProcess_canvas_only (s : App.state Value) (file : File) :
  App.selectedFile s = Some file →
  App.apiKey s = ""%string ∨ App.hasAiOptions (App.options s) = false →
  (run s).2 = []
  ∧ ∀ canvasResult,
      processImageWithCanvas argument_limit getContext decode toDataURL file
        (App.canvasOptions (App.options s)) = Fulfilled canvasResult →
      (run s).1
      = App.setIsProcessing false
          (App.setResult
             (Some {| timestamp := now; canvas := canvasResult; ai := None |})
             (started s)).
Proof.
  intros Hfile Hno. unfold run, App.handleProcess.
  rewrite Hfile. fold (started s).
  change (App.apiKey (started s)) with (App.apiKey s).
  change (App.options (started s)) with (App.options s).
  assert (negb (String.eqb (App.apiKey s) "") && App.hasAiOptions (App.options s)
          = false) as ->.
  { destruct Hno as [-> | ->]; [done|]. apply andb_false_r. }
  split.
  - by destruct (processImageWithCanvas _ _ _ _ _ _) as [?|[?|]|].
  - by intros canvasResult ->.
Qed.
End AppFacts.

(** X17: with a 2D context and a decoded image of a pixel or more, on an
    engine that takes three arguments or more.  When the colours are not
    asked for, or the engine takes one argument per sample of the image,
    the promise of [processImageWithCanvas] is fulfilled, and each part
    of its result is there exactly when its option is on.  When the
    colours are asked for and the image has more samples than the engine
    takes arguments, [medianCut] throws inside the [onload] handler and
    the promise never settles: it is neither fulfilled nor rejected. *)
Theorem canvas_pipeline_settles (argument_limit : nat) (getContext : bool)
    (decode : File → option Image) (toDataURL : Image → string) (file : File)
    (img : Image) (options : CanvasOptions.t) :
  getContext = true → decode file = Some img →
  0 < width img → 0 < height img →
  length (data img) = Z.to_nat (4 * width img * height img) →
  (3 ≤ argument_limit)%nat →
  (CanvasOptions.extractColors options = false
   ∨ (length (sampler_spec (data img)) ≤ argument_limit)%nat →
   ∃ result : CanvasResult,
     processImageWithCanvas argument_limit getContext decode toDataURL file options
     = Fulfilled result
     ∧ (is_Some (metadata result) ↔ CanvasOptions.extractMetadata options = true)
     ∧ (is_Some (colors result) ↔ CanvasOptions.extractColors options = true)
     ∧ (is_Some (base64 result) ↔ CanvasOptions.convertBase64 options = true)
     ∧ (is_Some (statistics result) ↔ CanvasOptions.calculateStats options = true))
  ∧ (CanvasOptions.extractColors options = true →
     (argument_limit < length (sampler_spec (data img)))%nat →
     processImageWithCanvas argument_limit getContext decode toDataURL file options
     = Pending).
Proof.
  intros -> Hdecode Hw Hh Hlen H3. unfold processImageWithCanvas. cbn [negb].
  rewrite Hdecode, onload_image by done.
  destruct (image_buffer_results argument_limit img Hw Hh Hlen)
    as (_ & _ & [stats Hs]).
  split.
  - intros Hfits.
    assert (∃ palette,
              (if CanvasOptions.extractColors options
               then match summarize argument_limit (sampler_spec (data img)) 8 with
                    | Returns palette => Some (Some palette)
                    | RangeError => None
                    end
               else Some None) = Some palette
              ∧ (is_Some palette ↔ CanvasOptions.extractColors options = true))
      as (palette & -> & Hpalette).
    { destruct (CanvasOptions.extractColors options).
      - destruct (summarize_outcome argument_limit (sampler_spec (data img)) 8)
          as [[entries ->]|[_ (_ & _ & Hover)]].
        + eexists. split; [done|]. split; [done|]. by eexists.
        + destruct Hfits as [?|?]; [done|lia].
      - eexists. split; [done|]. split; [by intros ?%is_Some_None|done]. }
    eexists. split; [reflexivity|]. cbn [metadata colors base64 statistics].
    rewrite Hs. split; [|split; [done|split]].
    + destruct (CanvasOptions.extractMetadata options);
        split; intros; try done; try (by eexists); by apply is_Some_None in H.
    + destruct (CanvasOptions.convertBase64 options);
        split; intros; try done; try (by eexists); by apply is_Some_None in H.
    + destruct (CanvasOptions.calculateStats options);
        split; intros; try done; try (by eexists); by apply is_Some_None in H.
  - intros -> Hover. rewrite summarize_throws; [done|].
    split; [done|]. split; [lia|]. by left.
Qed.

(** On the example engine: the example image is processed; with the red
    image of 1920 by 1080 pixels, the promise never settles. *)
Lemma canvas_pipeline_settles_witness :
  (∃ result : CanvasResult,
     processImageWithCanvas example_limit true (fun _ => Some example_image)
       (fun _ => example_url) example_file
       (App.canvasOptions (App.options example_state))
     = Fulfilled result
     ∧ (is_Some (metadata result) ↔ true = true)
     ∧ (is_Some (colors result) ↔ true = true)
     ∧ (is_Some (base64 result) ↔ false = true)
     ∧ (is_Some (statistics result) ↔ false = true))
  ∧ processImageWithCanvas example_limit true (fun _ => Some example_large_image)
      (fun _ => example_url) example_file
      (App.canvasOptions (App.options example_state))
    = Pending.
Proof.
  split.
  - apply (canvas_pipeline_settles example_limit true (fun _ => Some example_image)
             (fun _ => example_url) example_file example_image
             (App.canvasOptions (App.options example_state)));
      [reflexivity | reflexivity | simpl; lia | simpl; lia | reflexivity
       | unfold example_limit; lia | ].
    right. change (length (sampler_spec (data example_image))) with 1%nat.
    unfold example_limit. lia.
  - apply (canvas_pipeline_settles example_limit true
             (fun _ => Some example_large_image) (fun _ => example_url) example_file
             example_large_image (App.canvasOptions (App.options example_state)));
      [reflexivity | reflexivity | simpl; lia | simpl; lia
       | cbn [data width height example_large_image];
         rewrite uniform_image_length; lia
       | unfold example_limit; lia | reflexivity | ].
    cbn [data example_large_image].
    pose proof (sampler_uniform (Z.to_nat (1920 * 1080)) 255 0 0) as Hsamples.
    rewrite (sampler_on_image _ (Z.to_nat (1920 * 1080)) 1) in Hsamples
      by (rewrite uniform_image_length; lia).
    apply (inj Some) in Hsamples. rewrite Hsamples, length_replicate.
    unfold example_limit.
    pose proof (Nat.div_mod_eq (Z.to_nat (1920 * 1080) + 9) 10).
    pose proof (Nat.mod_upper_bound (Z.to_nat (1920 * 1080) + 9) 10). lia.
Defined.

(** X18: every way [handleProcess] can end for a selected file.  Either
    it is left waiting on a promise that never settles, with the state it
    had when it started; or [isProcessing] is false again and one of
    three holds: the canvas step failed, the earlier result is kept,
    nothing was sent to the model and the error is one of the two
    "Processing failed" messages; or the canvas result is set without
    [ai], and the error is "AI Analysis failed with unknown error" with
    nothing sent (the file could not be read) or "AI Analysis failed:
    Failed to analyze image with Gemini: " followed by the message of the
    rejected request, which is the last one sent; or the result is set
    and there is no error. *)
Theorem handleProcess_end_states (Value : Type)
    (JSON_parse : string → completion Value) (empty_array not_available : Value)
    (readAsDataURL : File → option string)
    (generateContent : nat → request → promise string) (argument_limit : nat)
    (getContext : bool) (decode : File → option Image) (toDataURL : Image → string)
    (now : string) (s : App.state Value) (file : File) :
  App.selectedFile s = Some file →
  let run :=
    App.handleProcess Value JSON_parse empty_array not_available readAsDataURL
      generateContent argument_limit getContext decode toDataURL now s in
  let s' := run.1 in
  let sent := run.2 in
  s' = App.setError None (App.setIsProcessing true s)
  ∨ App.isProcessing s' = false
    ∧ (App.result s' = App.result s ∧ sent = []
       ∧ (App.error s' = Some "Processing failed: Could not get canvas context"%string
          ∨ App.error s' = Some "Processing failed: Failed to load image"%string)
       ∨ (∃ canvasResult,
            App.result s'
            = Some {| timestamp := now; canvas := canvasResult; ai := None |}
            ∧ (App.error s' = Some "AI Analysis failed with unknown error"%string
               ∧ sent = []
               ∨ ∃ r cause,
                   last sent = Some r
                   ∧ generateContent (length sent - 1)%nat r = Rejected cause
                   ∧ App.error s'
                     = Some ("AI Analysis failed: Failed to analyze image with Gemini: "
                             ++ message_of cause)%string))
       ∨ (∃ canvasResult ai,
            App.result s'
            = Some {| timestamp := now; canvas := canvasResult; ai := ai |}
            ∧ App.error s' = None)).
Proof. intros Hfile. by apply (handleProcess_ends _ _ _ _ _ _ _ _ _ _ _ s file). Qed.

(** X19: when the canvas step is fulfilled and a request to the model is
    rejected, [handleProcess] keeps what the canvas computed: the result
    is set with the canvas part and no [ai] part, [isProcessing] is false
    again, and the error shown is the message of the rejection under the
    prefixes of both handlers. *)
Theorem handleProcess_keeps_canvas_result (Value : Type)
    (JSON_parse : string → completion Value) (empty_array not_available : Value)
    (readAsDataURL : File → option string)
    (generateContent : nat → request → promise string) (argument_limit : nat)
    (getContext : bool) (decode : File → option Image) (toDataURL : Image → string)
    (now : string) (s : App.state Value) (file : File) (url : string)
    (canvasResult : CanvasResult) (r : request) (cause : thrown) :
  let run :=
    App.handleProcess Value JSON_parse empty_array not_available readAsDataURL
      generateContent argument_limit getContext decode toDataURL now s in
  App.selectedFile s = Some file →
  processImageWithCanvas argument_limit getContext decode toDataURL file
    (App.canvasOptions (App.options s)) = Fulfilled canvasResult →
  readAsDataURL file = Some url →
  last run.2 = Some r →
  generateContent (length run.2 - 1)%nat r = Rejected cause →
  run.1
  = App.setIsProcessing false
      (App.setResult
         (Some {| timestamp := now; canvas := canvasResult; ai := None |})
         (App.setError
            (Some ("AI Analysis failed: Failed to analyze image with Gemini: "
                   ++ message_of cause)%string)
            (App.setError None (App.setIsProcessing true s)))).
Proof. intros run. by apply handleProcess_ai_failure. Qed.

(** X20: without a key, or with no option of the model on,
    [handleProcess] sends nothing to the model, whatever the canvas step
    does; and when that step is fulfilled, its result is set with no [ai]
    part, no error, and [isProcessing] false again. *)
Theorem handleProcess_without_model (Value : Type)
    (JSON_parse : string → completion Value) (empty_array not_available : Value)
    (readAsDataURL : File → option string)
    (generateContent : nat → request → promise string) (argument_limit : nat)
    (getContext : bool) (decode : File → option Image) (toDataURL : Image → string)
    (now : string) (s : App.state Value) (file : File) :
  let run :=
    App.handleProcess Value JSON_parse empty_array not_available readAsDataURL
      generateContent argument_limit getContext decode toDataURL now s in
  App.selectedFile s = Some file →
  App.apiKey s = ""%string ∨ App.hasAiOptions (App.options s) = false →
  run.2 = []
  ∧ ∀ canvasResult,
      processImageWithCanvas argument_limit getContext decode toDataURL file
        (App.canvasOptions (App.options s)) = Fulfilled canvasResult →
      run.1
      = App.setIsProcessing false
          (App.setResult
             (Some {| timestamp := now; canvas := canvasResult; ai := None |})
             (App.setError None (App.setIsProcessing true s))).
Proof. intros run. by apply handleProcess_canvas_only. Qed.

(** In the example the second request is rejected: the run ends with the
    canvas result, no [ai] part and the message of the rejection. *)
Lemma handleProcess_end_states_witness :
  App.error (example_run example_quota example_state).1
  = Some "AI Analysis failed: Failed to analyze image with Gemini: quota exceeded"%string
  ∧ App.isProcessing (example_run example_quota example_state).1 = false
  ∧ length (example_run example_quota example_state).2 = 2%nat
  ∧ ((example_run example_quota example_state).1
     = App.setError None (App.setIsProcessing true example_state)
     ∨ App.isProcessing (example_run example_quota example_state).1 = false).
Proof.
  split; [vm_compute; reflexivity|]. split; [vm_compute; reflexivity|].
  split; [vm_compute; reflexivity|].
  destruct (handleProcess_end_states json json_parse (JArray [])
              example_not_available (fun _ => Some example_url) example_quota
              example_limit true (fun _ => Some example_image) (fun _ => example_url)
              "2025-12-18T14:30:00.000Z" example_state example_file eq_refl)
    as [Hstuck | [Hdone _]].
  - left. exact Hstuck.
  - right. exact Hdone.
Defined.

Lemma handleProcess_keeps_canvas_result_witness :
  let canvasResult :=
    {| metadata := Some (extractMetadata example_file example_image);
       colors := Some [ {| hex := "#0a141e"; rgb_r := ofZ 10; rgb_g := ofZ 20;
                           rgb_b := ofZ 30; percentage := ofZ 100 |} ];
       base64 := None;
       statistics := None |} in
  (example_run example_quota example_state).1
  = App.setIsProcessing false
      (App.setResult
         (Some {| timestamp := "2025-12-18T14:30:00.000Z";
                  canvas := canvasResult; ai := None |})
         (App.setError
            (Some "AI Analysis failed: Failed to analyze image with Gemini: quota exceeded"%string)
            (App.setError None (App.setIsProcessing true example_state)))).
Proof.
  intros canvasResult.
  apply (handleProcess_keeps_canvas_result json json_parse (JArray [])
           example_not_available (fun _ => Some example_url) example_quota
           example_limit true (fun _ => Some example_image) (fun _ => example_url)
           "2025-12-18T14:30:00.000Z" example_state example_file example_url
           canvasResult
           {| request_prompt := objectPrompt;
              inlineData_data := Some "iVBORw0KGgo="%string;
              inlineData_mimeType := "image/png" |}
           (Error "quota exceeded")).
  - reflexivity.
  - vm_compute. reflexivity.
  - reflexivity.
  - vm_compute. reflexivity.
  - vm_compute. reflexivity.
Defined.

Lemma handleProcess_without_model_witness :
  (example_run example_answers example_state_without_key).2 = []
  ∧ ∀ canvasResult,
      processImageWithCanvas example_limit true (fun _ => Some example_image)
        (fun _ => example_url) example_file
        (App.canvasOptions (App.options example_state_without_key))
      = Fulfilled canvasResult →
      (example_run example_answers example_state_without_key).1
      = App.setIsProcessing false
          (App.setResult
             (Some {| timestamp := "2025-12-18T14:30:00.000Z";
                      canvas := canvasResult; ai := None |})
             (App.setError None
                (App.setIsProcessing true example_state_without_key))).
Proof.
  apply (handleProcess_without_model json json_parse (JArray [])
           example_not_available (fun _ => Some example_url) example_answers
           example_limit true (fun _ => Some example_image) (fun _ => example_url)
           "2025-12-18T14:30:00.000Z" example_state_without_key example_file).
  - reflexivity.
  - left. reflexivity.
Defined.
